(** * geonetworkx.tools: spatial merge of points and graphs

    A shallow embedding of [spatial_points_merge] and [spatial_graph_merge]
    (src/geonetworkx/tools.py) together with the part of the networkx graph
    container they drive.  Python floats are idealised as rationals; the
    geometry primitives, the nearest-line search and the node-name generator
    are collaborators of the module and are taken as an interface. *)

From Stdlib Require Import List Ascii String Bool Arith ZArith QArith Lia Lqa Permutation
  Sorted.
Import ListNotations.

Local Open Scope string_scope.
Local Open Scope list_scope.
Local Open Scope nat_scope.

(** ** Values and geometry carriers *)

Definition Name := string.

(** shapely [Point(x, y)] *)
Definition Point := (Q * Q)%type.

(** shapely [LineString(coords)] *)
Definition LineString := list Point.

(** Python objects stored in attribute dictionaries. *)
Inductive Value :=
| VFloat (q : Q)
| VStr (s : string)
| VPoint (p : Point)
| VLine (l : LineString).

(** [a < b] on floats *)
Definition Qltb (a b : Q) : bool := negb (Qle_bool b a).

(** ** Python dictionaries: insertion-ordered association lists *)

Section Dict.
Context {K V : Type} (eqb : K -> K -> bool).

Fixpoint dict_get (d : list (K * V)) (k : K) : option V :=
  match d with
  | [] => None
  | (k', v) :: t => if eqb k' k then Some v else dict_get t k
  end.

(** [d[k] = v]: an existing key keeps its position, a new key goes last. *)
Fixpoint dict_set (d : list (K * V)) (k : K) (v : V) : list (K * V) :=
  match d with
  | [] => [(k, v)]
  | (k', v') :: t =>
      if eqb k' k then (k', v) :: t else (k', v') :: dict_set t k v
  end.

(** [d.update(d')] *)
Definition dict_update (d d' : list (K * V)) : list (K * V) :=
  fold_left (fun acc kv => dict_set acc (fst kv) (snd kv)) d' d.

Definition dict_mem (d : list (K * V)) (k : K) : bool :=
  match dict_get d k with Some _ => true | None => false end.
End Dict.

Definition Attrs := list (string * Value).

Definition attr_get (a : Attrs) (k : string) : option Value := dict_get String.eqb a k.
Definition attr_set (a : Attrs) (k : string) (v : Value) : Attrs := dict_set String.eqb a k v.
Definition attr_update (a b : Attrs) : Attrs := dict_update String.eqb a b.

(** ** Exceptions *)

Inductive Exn :=
| ValueError (msg : string)
| KeyError
| IndexError
| TypeError
| NetworkXError (msg : string).

Inductive Res (A : Type) :=
| Ok (a : A)
| Raise (e : Exn).
Arguments Ok {A} a.
Arguments Raise {A} e.

(** ** The graph container (networkx Graph / DiGraph / MultiGraph / MultiDiGraph
    carrying the GeoGraph attribute keys) *)

(** An edge as reported by [G.edges]: [(u, v)], with the key of a multigraph
    ([0] on a graph that is not a multigraph). *)
Record EdgeKey := mkEdge { e0 : Name; e1 : Name; ekey : nat }.

Record Graph := mkGraph {
  is_directed : bool;
  is_multigraph : bool;
  x_key : string;
  y_key : string;
  edges_geometry_key : string;
  nodes : list (Name * Attrs);        (* G.nodes(data=True) *)
  edges : list (EdgeKey * Attrs)      (* G.edges(keys=True, data=True) *)
}.

Definition set_nodes (g : Graph) (ns : list (Name * Attrs)) : Graph :=
  mkGraph (is_directed g) (is_multigraph g) (x_key g) (y_key g)
          (edges_geometry_key g) ns (edges g).

Definition set_edges (g : Graph) (es : list (EdgeKey * Attrs)) : Graph :=
  mkGraph (is_directed g) (is_multigraph g) (x_key g) (y_key g)
          (edges_geometry_key g) (nodes g) es.

Definition node_get (g : Graph) (n : Name) : option Attrs := dict_get String.eqb (nodes g) n.

(** [n in graph.nodes()] *)
Definition has_node (g : Graph) (n : Name) : bool := dict_mem String.eqb (nodes g) n.

(** Two endpoint pairs name the same adjacency: the same ordered pair, or on
    an undirected graph the reversed one. *)
Definition same_pair (directed : bool) (u v u' v' : Name) : bool :=
  (String.eqb u u' && String.eqb v v') || (negb directed && String.eqb u v' && String.eqb v u').

Definition same_edge (directed : bool) (a b : EdgeKey) : bool :=
  same_pair directed (e0 a) (e1 a) (e0 b) (e1 b) && Nat.eqb (ekey a) (ekey b).

(** [graph.add_node(n, **attr)] *)
Definition add_node (g : Graph) (n : Name) (attr : Attrs) : Graph :=
  match node_get g n with
  | None => set_nodes g (nodes g ++ [(n, attr)])
  | Some old => set_nodes g (dict_set String.eqb (nodes g) n (attr_update old attr))
  end.

(** Endpoints of an added edge are created, without attributes, when absent. *)
Definition ensure_node (g : Graph) (n : Name) : Graph :=
  if has_node g n then g else set_nodes g (nodes g ++ [(n, [])]).

(** The keys in use between [u] and [v]: [self._adj[u][v]] of a multigraph. *)
Definition keydict (g : Graph) (u v : Name) : list nat :=
  map (fun e => ekey (fst e))
      (filter (fun e => same_pair (is_directed g) (e0 (fst e)) (e1 (fst e)) u v) (edges g)).

(** [while key in keydict: key += 1] *)
Fixpoint first_free (keys : list nat) (key fuel : nat) : nat :=
  match fuel with
  | O => key
  | S fuel' => if existsb (Nat.eqb key) keys then first_free keys (S key) fuel' else key
  end.

(** [MultiGraph.new_edge_key(u, v)] *)
Definition new_edge_key (g : Graph) (u v : Name) : nat :=
  let keys := keydict g u v in first_free keys (List.length keys) (S (List.length keys)).

(** The edge dictionary entry for [(u, v, key)]: created, or its attributes
    updated when the edge exists. *)
Definition put_edge (g : Graph) (u v : Name) (key : nat) (attr : Attrs) : Graph :=
  let k := mkEdge u v key in
  match dict_get (same_edge (is_directed g)) (edges g) k with
  | None => set_edges g (edges g ++ [(k, attr)])
  | Some old => set_edges g (dict_set (same_edge (is_directed g)) (edges g) k (attr_update old attr))
  end.

(** [graph.add_edge(u, v, key=key, **attr)], as [add_edges_from] calls it with
    the keys of the source edges. *)
Definition add_edge_keyed (g : Graph) (u v : Name) (key : nat) (attr : Attrs) : Graph :=
  let g1 := ensure_node (ensure_node g u) v in
  put_edge g1 u v (if is_multigraph g then key else O) attr.

(** [graph.add_edge(u, v, **attr)] *)
Definition add_edge (g : Graph) (u v : Name) (attr : Attrs) : Graph :=
  let g1 := ensure_node (ensure_node g u) v in
  put_edge g1 u v (if is_multigraph g then new_edge_key g1 u v else O) attr.

(** [graph.has_edge] applied to the components of [e] *)
Definition has_edge (g : Graph) (e : EdgeKey) : bool :=
  existsb (fun x => same_edge (is_directed g) (fst x) e) (edges g).

(** [graph.remove_edge] applied to the components of [e], an edge that is present *)
Definition remove_edge (g : Graph) (e : EdgeKey) : Graph :=
  set_edges g (filter (fun x => negb (same_edge (is_directed g) (fst x) e)) (edges g)).

(** [nx.get_edge_attributes(graph, name)]: the edges that carry the attribute. *)
Fixpoint get_edge_attributes (es : list (EdgeKey * Attrs)) (name : string)
  : list (EdgeKey * Value) :=
  match es with
  | [] => []
  | (k, a) :: t =>
      match attr_get a name with
      | Some v => (k, v) :: get_edge_attributes t name
      | None => get_edge_attributes t name
      end
  end.

(** ** Computations with state and exceptions

    A body runs against a state it may read and mutate; it returns a value or
    raises.  Mutations made before an exception stay in the state.  [GM] is a
    method body running against the graph object it was handed. *)

Definition SE (S A : Type) : Type := S -> S * Res A.

Definition ret {S A} (a : A) : SE S A := fun s => (s, Ok a).
Definition raise {S A} (e : Exn) : SE S A := fun s => (s, Raise e).
Definition bind {S A B} (m : SE S A) (f : A -> SE S B) : SE S B :=
  fun s => match m s with
           | (s', Ok a) => f a s'
           | (s', Raise e) => (s', Raise e)
           end.
Definition self {S} : SE S S := fun s => (s, Ok s).
Definition mutate {S} (f : S -> S) : SE S unit := fun s => (f s, Ok tt).
Definition lookup {S A} (o : option A) (e : Exn) : SE S A :=
  match o with Some a => ret a | None => raise e end.

Definition GM (A : Type) : Type := SE Graph A.

Declare Scope gm_scope.
Delimit Scope gm_scope with gm.
Notation "x <- m ;; k" := (bind m (fun x => k))
  (at level 61, m at next level, right associativity) : gm_scope.
Notation "m ;;; k" := (bind m (fun _ => k))
  (at level 61, right associativity) : gm_scope.
Local Open Scope gm_scope.

(** [for x in xs: acc = body(acc, x)] *)
Fixpoint for_each {St A S} (xs : list A) (body : S -> A -> SE St S) (acc : S) : SE St S :=
  match xs with
  | [] => ret acc
  | x :: t => acc' <- body acc x ;; for_each t body acc'
  end.

(** ** Point batches *)

(** One row of the GeoDataFrame: its index label, the point of its geometry
    column, and its cells by column name. *)
Record Row := mkRow { row_index : Name; row_geometry : Point; row_cells : Attrs }.

Definition GeoDataFrame := list Row.

(** What a call of [get_closest_line_from_points]
    (geonetworkx.geometry_operations) gives: the index of a line for each
    point, or the [ValueError] it raises when it cannot index the lines, as
    it does when there is no line at all; section 4.1 of the design leaves
    the search undefined there. *)
Inductive Search :=
| Indexes (lines_indexes : list nat)
| SearchError (msg : string).

(** ** Collaborators of the module

    [closest_line.project], [.length], [.interpolate] (shapely);
    [euclidian_distance], [get_new_node_unique_name] (geonetworkx.utils);
    [split_line], [get_closest_line_from_points]
    (geonetworkx.geometry_operations); [settings.INTERSECTION_PREFIX]. *)
Class Collaborators := {
  project : LineString -> Point -> Q;
  line_length : LineString -> Q;
  interpolate : LineString -> Q -> Point;
  euclidian_distance : Point -> Point -> Q;
  split_line : LineString -> Q -> LineString * LineString;
  get_closest_line_from_points : list Point -> list Value -> Search;
  get_new_node_unique_name : Graph -> Name -> Name;
  INTERSECTION_PREFIX : string
}.

(** The split requests: edge -> (intersection node -> distance on the line),
    a [defaultdict(dict)] keyed by the edge tuple. *)
Definition SplitTable := list (EdgeKey * list (Name * Q)).

(** Equality of edge tuples as dictionary keys. *)
Definition edge_key_eqb (a b : EdgeKey) : bool :=
  String.eqb (e0 a) (e0 b) && String.eqb (e1 a) (e1 b) && Nat.eqb (ekey a) (ekey b).

(** [edges_to_split[e][n] = d] *)
Definition record_split (t : SplitTable) (e : EdgeKey) (n : Name) (d : Q) : SplitTable :=
  let old := match dict_get edge_key_eqb t e with Some m => m | None => [] end in
  dict_set edge_key_eqb t e (dict_set String.eqb old n d).

(** The outcome of a call of the nearest-line search, in the caller. *)
Definition searched {S} (r : Search) : SE S (list nat) :=
  match r with
  | Indexes lines_indexes => ret lines_indexes
  | SearchError msg => raise (ValueError msg)
  end.

Definition as_float (v : Value) : GM Q :=
  match v with VFloat q => ret q | _ => raise TypeError end.

Definition as_line (v : Value) : GM LineString :=
  match v with VLine l => ret l | _ => raise TypeError end.

(** [graph.nodes[n][k]] *)
Definition node_attr (n : Name) (k : string) : GM Value :=
  g <- self ;;
  a <- lookup (node_get g n) KeyError ;;
  lookup (attr_get a k) KeyError.

(** [Point([graph.nodes[n][graph.x_key], graph.nodes[n][graph.y_key]])] *)
Definition node_point (n : Name) : GM Point :=
  g <- self ;;
  vx <- node_attr n (x_key g) ;;
  vy <- node_attr n (y_key g) ;;
  x <- as_float vx ;;
  y <- as_float vy ;;
  ret (x, y).

(** Modelled from the spec: [GeoGraph.get_node_coordinates] lives in
    geonetworkx.geograph; it yields the two coordinates stored on the node. *)
Definition get_node_coordinates (n : Name) : GM (Value * Value) :=
  g <- self ;;
  vx <- node_attr n (x_key g) ;;
  vy <- node_attr n (y_key g) ;;
  ret (vx, vy).

(** [LineString([c1, c2])] on two coordinate pairs *)
Definition segment (c1 c2 : Value * Value) : GM LineString :=
  x1 <- as_float (fst c1) ;;
  y1 <- as_float (snd c1) ;;
  x2 <- as_float (fst c2) ;;
  y2 <- as_float (snd c2) ;;
  ret [(x1, y1); (x2, y2)].

(** [{graph.edges_geometry_key: LineString([coords(a), coords(b)])}] *)
Definition edge_data (a b : Name) : GM Attrs :=
  g <- self ;;
  ca <- get_node_coordinates a ;;
  cb <- get_node_coordinates b ;;
  l <- segment ca cb ;;
  ret [(edges_geometry_key g, VLine l)].

Section Merge.
Context {C : Collaborators}.

(** Lines 62-71: the extremity of the closest edge the point snaps to. *)
Definition closest_extremity (closest_edge_name : EdgeKey) (point : Point) : GM Name :=
  let first_node := e0 closest_edge_name in
  first_node_point <- node_point first_node ;;
  let second_node := e1 closest_edge_name in
  second_node_point <- node_point second_node ;;
  let distance_to_first_extremity := euclidian_distance point first_node_point in
  let distance_to_second_extremity := euclidian_distance point second_node_point in
  if Qltb distance_to_first_extremity distance_to_second_extremity
  then ret first_node
  else ret second_node.

(** Lines 72-86: the edges between the new node and its intersection node. *)
Definition connect (merge_direction : string) (node_name intersection_node_name : Name)
  : GM unit :=
  in_edge_data <- edge_data node_name intersection_node_name ;;
  g <- self ;;
  if is_directed g then
    out_edge_data <- edge_data intersection_node_name node_name ;;
    if String.eqb merge_direction "both" then
      mutate (fun g => add_edge g node_name intersection_node_name in_edge_data) ;;;
      mutate (fun g => add_edge g intersection_node_name node_name out_edge_data)
    else if String.eqb merge_direction "in" then
      mutate (fun g => add_edge g node_name intersection_node_name in_edge_data)
    else
      mutate (fun g => add_edge g intersection_node_name node_name out_edge_data)
  else
    mutate (fun g => add_edge g node_name intersection_node_name in_edge_data).

(** Lines 48-71: the intersection node of a point, and the split table
    after it. *)
Definition place_intersection (edges_to_split : SplitTable)
           (closest_edge_name : EdgeKey) (closest_line : LineString)
           (p_index : Name) (point : Point) : GM (Name * SplitTable) :=
  let closest_line_length := line_length closest_line in
  let intersection_distance_on_line := project closest_line point in
  if Qltb 0 intersection_distance_on_line
     && Qltb intersection_distance_on_line closest_line_length
  then
    let projected_point := interpolate closest_line intersection_distance_on_line in
    g <- self ;;
    let intersection_node_name :=
      get_new_node_unique_name g (String.append INTERSECTION_PREFIX p_index) in
    let intersection_node_info :=
      attr_set (attr_set [] (x_key g) (VFloat (fst projected_point)))
               (y_key g) (VFloat (snd projected_point)) in
    mutate (fun g => add_node g intersection_node_name intersection_node_info) ;;;
    ret (intersection_node_name,
         record_split edges_to_split closest_edge_name intersection_node_name
                      intersection_distance_on_line)
  else
    intersection_node_name <- closest_extremity closest_edge_name point ;;
    ret (intersection_node_name, edges_to_split).

(** Lines 41-86: the body of the loop over the points. *)
Definition merge_point (edges_as_lines : list (EdgeKey * Value)) (lines_indexes : list nat)
           (merge_direction : string) (edges_to_split : SplitTable)
           (it : nat * Row) : GM SplitTable :=
  let p := fst it in
  let p_index := row_index (snd it) in
  let point := row_geometry (snd it) in
  (* 1.1 Add given node *)
  g <- self ;;
  let node_name := get_new_node_unique_name g p_index in
  let node_info :=
    attr_set (attr_set (row_cells (snd it)) (x_key g) (VFloat (fst point)))
             (y_key g) (VFloat (snd point)) in
  mutate (fun g => add_node g node_name node_info) ;;;
  (* 1.2 Add projected node if necessary *)
  i <- lookup (nth_error lines_indexes p) IndexError ;;
  closest_edge_name <- lookup (option_map fst (nth_error edges_as_lines i)) IndexError ;;
  closest_value <- lookup (dict_get edge_key_eqb edges_as_lines closest_edge_name) KeyError ;;
  closest_line <- as_line closest_value ;;
  r <- place_intersection edges_to_split closest_edge_name closest_line p_index point ;;
  (* 1.3 Add edge : node <-> intersection_node *)
  connect merge_direction node_name (fst r) ;;;
  ret (snd r).

(** [sorted(items, key=distance)]: ascending, and stable. *)
Fixpoint insert_by_distance (x : Name * Q) (l : list (Name * Q)) : list (Name * Q) :=
  match l with
  | [] => [x]
  | y :: t => if Qltb (snd y) (snd x) then y :: insert_by_distance x t else x :: y :: t
  end.

Definition sorted_by_distance (l : list (Name * Q)) : list (Name * Q) :=
  fold_right insert_by_distance [] l.

(** Lines 101-104: the loop cutting the remainder at each further distance,
    and the last remainder. *)
Fixpoint cut_rest (remainder : LineString) (previous : Q) (distances : list Q)
  : list LineString :=
  match distances with
  | [] => [remainder]
  | d :: ds =>
      let cut_lines := split_line remainder (d - previous)%Q in
      fst cut_lines :: cut_rest (snd cut_lines) d ds
  end.

(** Lines 98-104: [split_lines]. *)
Definition cut_initial_line (initial_line : LineString) (distances : list Q)
  : GM (list LineString) :=
  d0 <- lookup (nth_error distances 0) IndexError ;;
  let cut_lines := split_line initial_line d0 in
  ret (fst cut_lines :: cut_rest (snd cut_lines) d0 (tl distances)).

(** [graph.add_edge(a, b, **{graph.edges_geometry_key: line})] *)
Definition add_line_edge (a b : Name) (line : LineString) : GM unit :=
  mutate (fun g => add_edge g a b [(edges_geometry_key g, VLine line)]).

(** Lines 110-112: the edges between consecutive intersection nodes. *)
Definition add_intermediary (names : list Name) (split_lines : list LineString)
           (_ : unit) (i : nat) : GM unit :=
  line <- lookup (nth_error split_lines (i + 1)) IndexError ;;
  a <- lookup (nth_error names i) IndexError ;;
  b <- lookup (nth_error names (i + 1)) IndexError ;;
  add_line_edge a b line.

(** Lines 89-112: the body of the loop over the edges to split. *)
Definition splice_edge (edges_as_lines : list (EdgeKey * Value)) (_ : unit)
           (it : EdgeKey * list (Name * Q)) : GM unit :=
  let e := fst it in
  let intersection_nodes := snd it in
  if 0 <? List.length intersection_nodes then
    initial_value <- lookup (dict_get edge_key_eqb edges_as_lines e) KeyError ;;
    initial_line <- as_line initial_value ;;
    (* 2.1 remove initial edge *)
    g <- self ;;
    (if has_edge g e then mutate (fun g => remove_edge g e) else ret tt) ;;;
    (* 2.2 cut the initial line *)
    let items := sorted_by_distance intersection_nodes in
    let sorted_intersection_nodes := map fst items in
    let distances_on_initial_line := map snd items in
    split_lines <- cut_initial_line initial_line distances_on_initial_line ;;
    (* 2.2 add intermediary edges *)
    first_line <- lookup (nth_error split_lines 0) IndexError ;;
    first_node <- lookup (nth_error sorted_intersection_nodes 0) IndexError ;;
    add_line_edge (e0 e) first_node first_line ;;;
    last_line <- lookup (nth_error split_lines (List.length split_lines - 1)) IndexError ;;
    last_node <- lookup (nth_error sorted_intersection_nodes
                                   (List.length sorted_intersection_nodes - 1)) IndexError ;;
    add_line_edge last_node (e1 e) last_line ;;;
    for_each (seq 0 (List.length sorted_intersection_nodes - 1))
             (add_intermediary sorted_intersection_nodes split_lines) tt
  else ret tt.

(** Lines 34-112: everything [spatial_points_merge] does to [graph]. *)
Definition points_merge_body (points_gdf : GeoDataFrame) (merge_direction : string)
  : GM unit :=
  (* 1. Find closest edge for each point *)
  g <- self ;;
  let edges_as_lines := get_edge_attributes (edges g) (edges_geometry_key g) in
  let points_coords := map row_geometry points_gdf in
  lines_indexes <-
    searched (get_closest_line_from_points points_coords (map snd edges_as_lines)) ;;
  edges_to_split <-
    for_each (combine (seq 0 (List.length points_gdf)) points_gdf)
             (merge_point edges_as_lines lines_indexes merge_direction) [] ;;
  (* 2. Split edges where a node have been projected *)
  for_each edges_to_split (splice_edge edges_as_lines) tt.
End Merge.

(** ** Graph objects and references

    The caller and the functions hold references to graph objects; a copy or a
    composition allocates a new object. *)

Definition Ref := nat.

Record Heap := mkHeap { objs : Ref -> Graph; next : Ref }.

Definition M (A : Type) : Type := SE Heap A.

Definition store (h : Heap) (r : Ref) (g : Graph) : Heap :=
  mkHeap (fun r' => if Nat.eqb r' r then g else objs h r') (next h).

(** Run a body against the object behind [r]. *)
Definition on {A} (r : Ref) (m : GM A) : M A :=
  fun h => let (g', res) := m (objs h r) in (store h r g', res).

Definition alloc (g : Graph) : M Ref :=
  fun h => (mkHeap (fun r' => if Nat.eqb r' (next h) then g else objs h r') (S (next h)),
            Ok (next h)).

(** Modelled from the spec: [GeoGraph.copy] lives in geonetworkx.geograph;
    copy mode clones the graph into a new object. *)
Definition copy (r : Ref) : M Ref :=
  g <- on r self ;; alloc g.

Section Tools.
Context {C : Collaborators}.

Definition spatial_points_merge (graph : Ref) (points_gdf : GeoDataFrame)
           (inplace : bool) (merge_direction : string) : M (option Ref) :=
  graph <- (if negb inplace then copy graph else ret graph) ;;
  on graph (points_merge_body points_gdf merge_direction) ;;;
  if negb inplace then ret (Some graph) else ret None.
End Tools.

(** ** networkx operations on whole graphs *)

(** [R.add_nodes_from(G.nodes(data=True))] *)
Definition add_nodes_from (R : Graph) (ns : list (Name * Attrs)) : Graph :=
  fold_left (fun r na => add_node r (fst na) (snd na)) ns R.

(** [R.add_edges_from(G.edges(keys=True, data=True))] *)
Definition add_edges_from (R : Graph) (es : list (EdgeKey * Attrs)) : Graph :=
  fold_left (fun r ea => add_edge_keyed r (e0 (fst ea)) (e1 (fst ea)) (ekey (fst ea)) (snd ea))
            es R.

(** [nx.compose(G, H)]: a new graph of the class of [G] holding the nodes and
    edges of [G], then those of [H]. *)
Definition compose_graphs (G H : Graph) : Graph :=
  let R := mkGraph (is_directed G) (is_multigraph G) (x_key G) (y_key G)
                   (edges_geometry_key G) [] [] in
  let R := add_nodes_from R (nodes G) in
  let R := add_nodes_from R (nodes H) in
  let R := add_edges_from R (edges G) in
  add_edges_from R (edges H).

Definition compose (G H : Ref) : M Ref :=
  g <- on G self ;;
  h <- on H self ;;
  if Bool.eqb (is_multigraph g) (is_multigraph h)
  then alloc (compose_graphs g h)
  else raise (NetworkXError "G and H must both be graphs or multigraphs.").

(** [nx.subgraph(G, nbunch)]: the nodes of [G] named in [nbunch] and the edges
    between them. *)
Definition subgraph (G : Graph) (nbunch : list Name) : Graph :=
  let keep n := existsb (String.eqb n) nbunch in
  mkGraph (is_directed G) (is_multigraph G) (x_key G) (y_key G) (edges_geometry_key G)
          (filter (fun na => keep (fst na)) (nodes G))
          (filter (fun ea => keep (e0 (fst ea)) && keep (e1 (fst ea))) (edges G)).

(** Modelled from the spec: [graph_nodes_to_gdf] lives in
    geonetworkx.readwrite; it stages the node set as a point batch, one
    (identifier, coordinate, attribute map) row per node. *)
Fixpoint rows_of_nodes (xk yk : string) (ns : list (Name * Attrs)) : Res GeoDataFrame :=
  match ns with
  | [] => Ok []
  | (n, a) :: t =>
      match attr_get a xk, attr_get a yk with
      | Some (VFloat x), Some (VFloat y) =>
          match rows_of_nodes xk yk t with
          | Ok rs => Ok (mkRow n (x, y) a :: rs)
          | Raise e => Raise e
          end
      | Some _, Some _ => Raise TypeError
      | _, _ => Raise KeyError
      end
  end.

Definition graph_nodes_to_gdf {S} (G : Graph) : SE S GeoDataFrame :=
  match rows_of_nodes (x_key G) (y_key G) (nodes G) with
  | Ok rs => ret rs
  | Raise e => raise e
  end.

(** [nodes_gdf.drop(index=labels, inplace=True)]: every label must be in the
    index. *)
Definition drop_index {S} (gdf : GeoDataFrame) (labels : list Name) : SE S GeoDataFrame :=
  if forallb (fun l => existsb (fun r => String.eqb (row_index r) l) gdf) labels
  then ret (filter (fun r => negb (existsb (String.eqb (row_index r)) labels)) gdf)
  else raise KeyError.

Section GraphMerge.
Context {C : Collaborators}.

Definition spatial_graph_merge (base_graph other_graph : Ref) (inplace : bool)
           (merge_direction : string) (unmerged_nodes merging_nodes : list Name)
  : M (option Ref) :=
  b <- on base_graph self ;;
  o <- on other_graph self ;;
  if negb (Bool.eqb (is_directed b) (is_directed o)) then
    raise (ValueError "Merging a directed graph and an undirected graph is ambiguous")
  else if negb (Bool.eqb (is_multigraph b) (is_multigraph o)) then
    raise (ValueError "Merging a multigraph and a graph is ambiguous")
  else if (0 <? List.length unmerged_nodes) && (0 <? List.length merging_nodes) then
    raise (ValueError "Cannot provide `unmerged_nodes` and `merging_nodes`")
  else
    nodes_gdf <-
      (if 0 <? List.length merging_nodes then
         let other_graph_view := subgraph o merging_nodes in
         graph_nodes_to_gdf other_graph_view
       else
         nodes_gdf <- graph_nodes_to_gdf o ;;
         drop_index nodes_gdf unmerged_nodes) ;;
    merged_graph <-
      (if inplace then
         spatial_points_merge base_graph nodes_gdf inplace merge_direction ;;;
         ret base_graph
       else
         r <- spatial_points_merge base_graph nodes_gdf inplace merge_direction ;;
         lookup r TypeError) ;;
    merged_graph <- compose merged_graph other_graph ;;
    if negb inplace then ret (Some merged_graph) else ret None.
End GraphMerge.

(** ** A concrete set of collaborators

    Exact planar geometry on rectilinear data: lines whose segments are
    parallel to an axis, distances between points that share a coordinate.
    On such data lengths are rational, so the runs below compute. *)

Module Rectilinear.

Definition Qabs' (q : Q) : Q := if Qltb q 0 then (- q)%Q else q.

Definition span (a b : Point) : Q :=
  Qred (Qabs' (fst b - fst a) + Qabs' (snd b - snd a))%Q.

Definition sq (q : Q) : Q := (q * q)%Q.

Definition clamp01 (t : Q) : Q :=
  if Qltb t 0 then 0%Q else if Qltb 1 t then 1%Q else t.

(** Parameter in [0, 1] of the point of segment [a b] closest to [p]. *)
Definition foot (a b p : Point) : Q :=
  let den := (sq (fst b - fst a) + sq (snd b - snd a))%Q in
  if Qeq_bool den 0 then 0%Q
  else clamp01 (((fst p - fst a) * (fst b - fst a) + (snd p - snd a) * (snd b - snd a)) / den)%Q.

Definition along (a b : Point) (t : Q) : Point :=
  (Qred (fst a + t * (fst b - fst a))%Q, Qred (snd a + t * (snd b - snd a))%Q).

Definition sqdist (p q : Point) : Q := Qred (sq (fst p - fst q) + sq (snd p - snd q))%Q.

(** Squared distance to the line and distance along it of the closest
    point, scanning the segments in order and keeping the first minimum. *)
Fixpoint scan (l : LineString) (p : Point) (walked : Q) (best : option (Q * Q))
  : option (Q * Q) :=
  match l with
  | a :: ((b :: _) as t) =>
      let f := foot a b p in
      let d2 := sqdist p (along a b f) in
      let here := (d2, Qred (walked + f * span a b)%Q) in
      let best' := match best with
                   | Some (m, _) => if Qltb d2 m then Some here else best
                   | None => Some here
                   end in
      scan t p (walked + span a b)%Q best'
  | _ => best
  end.

Definition project (l : LineString) (p : Point) : Q :=
  match scan l p 0%Q None with Some (_, d) => d | None => 0%Q end.

Fixpoint line_length (l : LineString) : Q :=
  match l with
  | a :: ((b :: _) as t) => Qred (span a b + line_length t)%Q
  | _ => 0%Q
  end.

Fixpoint interpolate (l : LineString) (d : Q) : Point :=
  match l with
  | a :: ((b :: _) as t) =>
      if Qltb (span a b) d then interpolate t (d - span a b)%Q
      else if Qeq_bool (span a b) 0 then a
      else along a b (d / span a b)%Q
  | a :: [] => a
  | [] => (0%Q, 0%Q)
  end.

Fixpoint split_line (l : LineString) (d : Q) : LineString * LineString :=
  match l with
  | a :: ((b :: _) as t) =>
      if Qltb (span a b) d then
        let r := split_line t (d - span a b)%Q in (a :: fst r, snd r)
      else if Qeq_bool (span a b) d then ([a; b], t)
      else let c := along a b (d / span a b)%Q in ([a; c], c :: t)
  | _ => (l, l)
  end.

Definition euclidian_distance (p q : Point) : Q :=
  Qred (Qabs' (fst p - fst q) + Qabs' (snd p - snd q))%Q.

Definition line_sqdist (v : Value) (p : Point) : option Q :=
  match v with
  | VLine l => option_map fst (scan l p 0%Q None)
  | _ => None
  end.

Fixpoint argmin (lines : list Value) (p : Point) (i : nat) (best : option (Q * nat))
  : option (Q * nat) :=
  match lines with
  | [] => best
  | v :: t =>
      let best' := match line_sqdist v p, best with
                   | Some d, Some (m, _) => if Qltb d m then Some (d, i) else best
                   | Some d, None => Some (d, i)
                   | None, _ => best
                   end in
      argmin t p (S i) best'
  end.

(** The search cannot index an empty set of lines. *)
Definition get_closest_line_from_points (points : list Point) (lines : list Value)
  : Search :=
  match lines with
  | [] => SearchError "no line to search"
  | _ =>
      Indexes (map (fun p => match argmin lines p 0 None with Some (_, i) => i | None => 0 end)
                   points)
  end.

Fixpoint underscores (n : nat) : string :=
  match n with O => EmptyString | S n' => String "_"%char (underscores n') end.

Definition longest (ns : list (Name * Attrs)) : nat :=
  fold_right (fun na m => Nat.max (String.length (fst na)) m) 0 ns.

(** The name itself when it is free; otherwise the name with a suffix that
    makes it longer than every name in use. *)
Definition get_new_node_unique_name (g : Graph) (name : Name) : Name :=
  if has_node g name then String.append name (underscores (S (longest (nodes g))))
  else name.

#[global] Instance collaborators : Collaborators :=
  Build_Collaborators project line_length interpolate euclidian_distance split_line
                      get_closest_line_from_points get_new_node_unique_name
                      "intersection_".

End Rectilinear.

(** ** Sample graphs *)

(** Graphs with the attribute keys used in the examples. *)
Definition graph_of (directed multi : bool) (ns : list (Name * Attrs))
           (es : list (EdgeKey * Attrs)) : Graph :=
  mkGraph directed multi "x" "y" "geometry" ns es.

Definition at_xy (x y : Q) : Attrs := [("x", VFloat x); ("y", VFloat y)].

Definition heap_of (gs : list Graph) : Heap :=
  mkHeap (fun r => nth r gs (graph_of false false [] [])) (List.length gs).

(** Scenario graph: one edge [(A, B)], a straight segment from (0,0) to (10,0). *)
Definition AB (directed : bool) : Graph :=
  graph_of directed false
           [("A", at_xy 0 0); ("B", at_xy 10 0)]
           [(mkEdge "A" "B" 0, [("geometry", VLine [(0, 0); (10, 0)]%Q)])].

Definition point_at (name : Name) (x y : Q) : Row := mkRow name (x, y) [].

(** A second graph: [C] at (3,2) and [D] at (7,2) joined by an edge, [E] at
    (5,9) on its own, and a node [A] of its own at (0,5). *)
Definition CD : Graph :=
  graph_of false false
           [("C", at_xy 3 2); ("D", at_xy 7 2); ("E", at_xy 5 9); ("A", at_xy 0 5)]
           [(mkEdge "C" "D" 0, [("geometry", VLine [(3, 2); (7, 2)]%Q)])].

(** The scenario graph once two points have been projected on its edge, at
    3 and at 7 along the line. *)
Definition ABplaced : Graph :=
  graph_of false false
           [("A", at_xy 0 0); ("B", at_xy 10 0); ("I", at_xy 3 0); ("J", at_xy 7 0)]
           [(mkEdge "A" "B" 0, [("geometry", VLine [(0, 0); (10, 0)]%Q)])].

(** A closed street: one node [A] at (0,0) and the edge [(A, A)] running
    around a square of side 4. *)
Definition Loop (multi : bool) : Graph :=
  graph_of false multi
           [("A", at_xy 0 0)]
           [(mkEdge "A" "A" 0,
             [("geometry", VLine [(0, 0); (4, 0); (4, 4); (0, 4); (0, 0)]%Q)])].




(** * Vocabulary of the properties *)

(** The messages of the three [ValueError]s that [spatial_graph_merge]
    raises itself (lines 132, 134 and 136). *)
Definition directed_message : string :=
  "Merging a directed graph and an undirected graph is ambiguous".
Definition multigraph_message : string :=
  "Merging a multigraph and a graph is ambiguous".
Definition lists_message : string :=
  "Cannot provide `unmerged_nodes` and `merging_nodes`".

Definition is_configuration_message (msg : string) : bool :=
  String.eqb msg directed_message || String.eqb msg multigraph_message
  || String.eqb msg lists_message.

(** The exception class of the three checks. *)
Definition is_value_error {A} (r : Res A) : bool :=
  match r with Raise (ValueError _) => true | _ => false end.

(** A configuration error is one of these three [ValueError]s; a
    [ValueError] with another message comes from elsewhere. *)
Definition is_configuration_error {A} (r : Res A) : bool :=
  match r with Raise (ValueError msg) => is_configuration_message msg | _ => false end.

Definition never_config {S A} (m : SE S A) : Prop :=
  forall s, is_configuration_error (snd (m s)) = false.

(** The coordinates a node carries, when both are floats. *)
Definition located (g : Graph) (n : Name) : option Point :=
  match node_get g n with
  | Some a =>
      match attr_get a (x_key g), attr_get a (y_key g) with
      | Some (VFloat x), Some (VFloat y) => Some (x, y)
      | _, _ => None
      end
  | None => None
  end.

(** Every edge joins two nodes of the graph, as in every networkx graph. *)
Definition edges_closed (g : Graph) : bool :=
  forallb (fun x => has_node g (e0 (fst x)) && has_node g (e1 (fst x))) (edges g).

(** No edge runs between [a] and [b]. *)
Definition no_edge_between (g : Graph) (a b : Name) : bool :=
  negb (existsb (fun x => same_pair (is_directed g) (e0 (fst x)) (e1 (fst x)) a b) (edges g)).

(** An edge from [a] to [b] whose only attribute is the line [l]. *)
Definition line_edge (g : Graph) (a b : Name) (key : nat) (l : LineString) : EdgeKey * Attrs :=
  (mkEdge a b key, [(edges_geometry_key g, VLine l)]).

(** The attributes of a node created at a position. *)
Definition position_info (g : Graph) (cells : Attrs) (pt : Point) : Attrs :=
  attr_set (attr_set cells (x_key g) (VFloat (fst pt))) (y_key g) (VFloat (snd pt)).

(** The edge picked for the [p]-th point and the line it carries. *)
Definition closest_edge (edges_as_lines : list (EdgeKey * Value)) (lines_indexes : list nat)
           (p : nat) : option (EdgeKey * LineString) :=
  match nth_error lines_indexes p with
  | Some i =>
      match nth_error edges_as_lines i with
      | Some (e, _) =>
          match dict_get edge_key_eqb edges_as_lines e with
          | Some (VLine l) => Some (e, l)
          | _ => None
          end
      | None => None
      end
  | None => None
  end.

(** [edges_to_split[e][n]], when the table has both keys. *)
Definition requested (t : SplitTable) (e : EdgeKey) (n : Name) : option Q :=
  match dict_get edge_key_eqb t e with
  | Some m => dict_get String.eqb m n
  | None => None
  end.

Section Vocabulary.
Context {C : Collaborators}.

(** The errors of the nearest-line search are its own: none carries the
    message of a configuration error. *)
Definition search_errors_apart : Prop :=
  forall points lines msg,
    get_closest_line_from_points points lines = SearchError msg ->
    is_configuration_message msg = false.

(** The projection falls strictly inside the line. *)
Definition interior (l : LineString) (pt : Point) : bool :=
  Qltb 0 (project l pt) && Qltb (project l pt) (line_length l).

(** The name generator never returns a name in use. *)
Definition names_are_new : Prop :=
  forall g n, has_node g (get_new_node_unique_name g n) = false.
End Vocabulary.

(** The edges joining a new node [p] (at [pp]) and its intersection node [i]
    (at [pi]), in the order they are added. *)
Definition links (g : Graph) (merge_direction : string) (p i : Name) (pp pi : Point)
  : list (EdgeKey * Attrs) :=
  if is_directed g then
    if String.eqb merge_direction "both" then
      [line_edge g p i 0 [pp; pi]; line_edge g i p 0 [pi; pp]]
    else if String.eqb merge_direction "in" then [line_edge g p i 0 [pp; pi]]
    else [line_edge g i p 0 [pi; pp]]
  else [line_edge g p i 0 [pp; pi]].

(** The edge [k] joins [a] and [b], in one direction or the other. *)
Definition joins (a b : Name) (k : EdgeKey) : Prop :=
  (e0 k = a /\ e1 k = b) \/ (e0 k = b /\ e1 k = a).

(** No name occurs twice, as with the keys of a dictionary. *)
Fixpoint unique (l : list Name) : bool :=
  match l with
  | [] => true
  | x :: t => negb (existsb (String.eqb x) t) && unique t
  end.

(** An edge to add: its two nodes and its line. *)
Definition Triple := (Name * Name * LineString)%type.

Definition add_triple (g : Graph) (t : Triple) : Graph :=
  add_edge g (fst (fst t)) (snd (fst t)) [(edges_geometry_key g, VLine (snd t))].

(** The edges between consecutive names, each with the line of its rank. *)
Fixpoint mids (names : list Name) (lines : list LineString) : list Triple :=
  match names, lines with
  | a :: ((b :: _) as t), l :: ls => (a, b, l) :: mids t ls
  | _, _ => []
  end.

(** The chain [a -> n1 -> ... -> nk -> v], the i-th edge with the i-th line. *)
Fixpoint chain_triples (a : Name) (names : list Name) (v : Name) (lines : list LineString)
  : list Triple :=
  match names, lines with
  | [], l :: _ => [(a, v, l)]
  | n :: ns, l :: ls => (a, n, l) :: chain_triples n ns v ls
  | _, [] => []
  end.

(** The same edges in the order the splicer adds them: the first one, the
    last one, then those in between. *)
Definition code_triples (u : Name) (names : list Name) (v : Name) (lines : list LineString)
  : list Triple :=
  match names, lines with
  | n1 :: _, l0 :: ls => (u, n1, l0) :: (last names n1, v, last lines l0) :: mids names ls
  | _, _ => []
  end.

(** An edge without its key. *)
Definition strip (x : EdgeKey * Attrs) : Name * Name * Attrs :=
  (e0 (fst x), e1 (fst x), snd x).

Definition triple_attrs (g : Graph) (t : Triple) : Name * Name * Attrs :=
  (fst (fst t), snd (fst t), [(edges_geometry_key g, VLine (snd t))]).

Definition mem (n : Name) (l : list Name) : bool := existsb (String.eqb n) l.

(** No edge runs between one of the [names] and a node of [chain]. *)
Definition isolated (g : Graph) (names chain : list Name) : bool :=
  forallb (fun x => negb ((mem (e0 (fst x)) names && mem (e1 (fst x)) chain)
                          || (mem (e1 (fst x)) names && mem (e0 (fst x)) chain)))
          (edges g).

(** The edges to add are not in the graph and no two of them are the same
    edge. *)
Fixpoint fresh_pairs (g : Graph) (ts : list Triple) : bool :=
  match ts with
  | [] => true
  | t :: rest =>
      no_edge_between g (fst (fst t)) (snd (fst t))
      && forallb (fun s => negb (same_pair (is_directed g) (fst (fst t)) (snd (fst t))
                                           (fst (fst s)) (snd (fst s)))) rest
      && fresh_pairs g rest
  end.

Section Segments.
Context {C : Collaborators}.

(** The pieces of a line cut at increasing distances from its start. *)
Definition sub_segments (line : LineString) (distances : list Q) : list LineString :=
  match distances with
  | [] => []
  | d0 :: ds => fst (split_line line d0) :: cut_rest (snd (split_line line d0)) d0 ds
  end.
End Segments.

(** Both nodes of the edge to add are nodes of the graph. *)
Definition ends_in (g : Graph) (t : Triple) : Prop :=
  has_node g (fst (fst t)) = true /\ has_node g (snd (fst t)) = true.

(** Ascending distance on the line. *)
Definition by_distance (a b : Name * Q) : Prop := (snd a <= snd b)%Q.

Definition is_located (g : Graph) (n : Name) : bool :=
  match located g n with Some _ => true | None => false end.

Definition is_line (v : Value) : bool :=
  match v with VLine _ => true | _ => false end.

(** Every edge geometry is a line and the nodes of its edge have
    coordinates. *)
Definition lines_ready (g : Graph) : bool :=
  forallb (fun kv => is_line (snd kv) && is_located g (e0 (fst kv)) && is_located g (e1 (fst kv)))
          (get_edge_attributes (edges g) (edges_geometry_key g)).

(** Two graph states with the same kind and the same attribute keys. *)
Definition same_keys (g g' : Graph) : Prop :=
  is_directed g' = is_directed g /\ is_multigraph g' = is_multigraph g
  /\ x_key g' = x_key g /\ y_key g' = y_key g
  /\ edges_geometry_key g' = edges_geometry_key g.

(** A recorded request can be replayed on the graph: the edge has a line,
    and its nodes and the intersection nodes are nodes of the graph. *)
Definition request_ok (eal : list (EdgeKey * Value)) (g : Graph)
           (er : EdgeKey * list (Name * Q)) : Prop :=
  (exists l, dict_get edge_key_eqb eal (fst er) = Some (VLine l))
  /\ has_node g (e0 (fst er)) = true /\ has_node g (e1 (fst er)) = true
  /\ Forall (fun nd => has_node g (fst nd) = true) (snd er).

(** What one point adds to the nodes: its own node, with the cells of its
    row and its coordinates, then at most one intersection node. *)
Definition point_chunk (g : Graph) (row : Row) (chunk : list (Name * Attrs)) : Prop :=
  exists name,
    chunk = [(name, position_info g (row_cells row) (row_geometry row))]
    \/ exists i a,
        chunk = [(name, position_info g (row_cells row) (row_geometry row)); (i, a)].

(** The distances go up from [previous] to [len]. *)
Fixpoint ascending (previous : Q) (distances : list Q) (len : Q) : Prop :=
  match distances with
  | [] => (previous <= len)%Q
  | d :: ds => (previous <= d)%Q /\ ascending d ds len
  end.

(** The lengths between consecutive cuts of a line of length [len]: each
    distance less the previous one, then what is left of the line. *)
Fixpoint gaps (previous : Q) (distances : list Q) (len : Q) : list Q :=
  match distances with
  | [] => [(len - previous)%Q]
  | d :: ds => (d - previous)%Q :: gaps d ds len
  end.

Section Readiness.
Context {C : Collaborators}.

(** The nearest-line search returns, and for each point the index of an
    edge. *)
Definition indexes_ready (g : Graph) (points_gdf : GeoDataFrame) : bool :=
  let eal := get_edge_attributes (edges g) (edges_geometry_key g) in
  match get_closest_line_from_points (map row_geometry points_gdf) (map snd eal) with
  | Indexes li =>
      forallb (fun p => match nth_error li p with
                        | Some i => i <? List.length eal
                        | None => false
                        end)
              (seq 0 (List.length points_gdf))
  | SearchError _ => false
  end.

(** The point of the turn projects strictly inside the line of its closest
    edge. *)
Definition interior_turn (eal : list (EdgeKey * Value)) (li : list nat) (it : nat * Row)
  : bool :=
  match closest_edge eal li (fst it) with
  | Some (_, l) => interior l (row_geometry (snd it))
  | None => false
  end.

(** What the turn of a point adds to the nodes of the graph [g] the merge
    started from: the node of the point, under a name that [g] does not
    use, with the cells of its row and its coordinates, followed by an
    intersection node at the projection of the point, under another name
    that [g] does not use and with its two coordinates only, exactly when
    the point projects strictly inside the line of its closest edge. *)
Definition turn_chunk (g : Graph) (eal : list (EdgeKey * Value)) (li : list nat)
           (it : nat * Row) (chunk : list (Name * Attrs)) : Prop :=
  exists e l name,
    closest_edge eal li (fst it) = Some (e, l)
    /\ has_node g name = false
    /\ let pt := row_geometry (snd it) in
       let info := position_info g (row_cells (snd it)) pt in
       if interior l pt
       then exists i,
           has_node g i = false /\ i <> name
           /\ chunk = [(name, info);
                       (i, position_info g [] (interpolate l (project l pt)))]
       else chunk = [(name, info)].

(** Section 4.3 of the design, step 3: the line splitter invoked on the
    shrinking remainder, at each distance relative to the previous cut; the
    pieces cut off, in order, then the last remainder. *)
Inductive cut_after : LineString -> Q -> list Q -> list LineString -> Prop :=
| cut_done remainder previous : cut_after remainder previous [] [remainder]
| cut_next remainder previous d ds piece rest pieces :
    split_line remainder (d - previous) = (piece, rest) ->
    cut_after rest d ds pieces ->
    cut_after remainder previous (d :: ds) (piece :: pieces).

(** Section 4.4 of the design, the contract of the line splitter: cut at a
    distance within the line, the part before has that length and the part
    after has the rest. *)
Definition splitter_exact : Prop :=
  forall line d,
    (0 <= d)%Q -> (d <= line_length line)%Q ->
    (line_length (fst (split_line line d)) == d)%Q
    /\ (line_length (snd (split_line line d)) == line_length line - d)%Q.

(** The pieces of [line] cut at the ascending distances [distances] from its
    start. *)
Inductive cut_in_order (line : LineString) : list Q -> list LineString -> Prop :=
| cut_first d ds piece rest pieces :
    split_line line d = (piece, rest) ->
    cut_after rest d ds pieces ->
    cut_in_order line (d :: ds) (piece :: pieces).
End Readiness.

(** The intersection nodes an entry of the split table asks for. *)
Definition request_names (er : EdgeKey * list (Name * Q)) : list Name := map fst (snd er).

(** How the loop over the points leaves the graph and the split table: [P]
    are the nodes created for the points and [I] the intersection nodes
    created so far, all of them new to the graph [g0] the loop started from;
    an intersection node is joined to nodes of points only; every request is
    for an edge of [g0] and for intersection nodes, none requested twice. *)
Definition placed (g0 g : Graph) (ets : SplitTable) (P I : list Name) : Prop :=
  (forall n, In n P \/ In n I -> has_node g n = true /\ has_node g0 n = false)
  /\ (forall n, In n P -> ~ In n I)
  /\ (forall x, In x (edges g) ->
        (In (e0 (fst x)) I -> In (e1 (fst x)) P) /\ (In (e1 (fst x)) I -> In (e0 (fst x)) P))
  /\ Forall (fun er => snd er <> []
                       /\ (forall n, In n (request_names er) -> In n I)
                       /\ has_node g0 (e0 (fst er)) = true
                       /\ has_node g0 (e1 (fst er)) = true) ets
  /\ NoDup (List.concat (map request_names ets)).

(** The entry of the split table asks for an edge of [x]'s pair and key. *)
Definition is_split (g : Graph) (ets : SplitTable) (x : EdgeKey * Attrs) : bool :=
  existsb (fun er => same_edge (is_directed g) (fst x) (fst er)) ets.

(** A closed edge with a single request, on a graph that cannot hold two
    edges between the same two nodes. *)
Definition cut_once_loop (g : Graph) (er : EdgeKey * list (Name * Q)) : Prop :=
  is_directed g = false /\ is_multigraph g = false
  /\ e0 (fst er) = e1 (fst er) /\ List.length (snd er) = 1.

(** What the splicer relies on, for the entries still to replay: [P] and [I]
    are the nodes of points and the intersection nodes; the entries are for
    edges between other nodes, each for its own intersection nodes, and an
    intersection node still to be spliced in is joined to nodes of points
    only. *)
Definition replayable (eal : list (EdgeKey * Value)) (g : Graph) (rest : SplitTable)
           (P I : list Name) : Prop :=
  Forall (request_ok eal g) rest
  /\ Forall (fun er => snd er <> []
                       /\ (forall n, In n (request_names er) -> In n I)
                       /\ ~ In (e0 (fst er)) I /\ ~ In (e1 (fst er)) I
                       /\ ~ In (e0 (fst er)) P /\ ~ In (e1 (fst er)) P) rest
  /\ NoDup (List.concat (map request_names rest))
  /\ (forall n, In n P -> ~ In n I)
  /\ (forall x, In x (edges g) ->
        (In (e0 (fst x)) (List.concat (map request_names rest)) -> In (e1 (fst x)) P)
        /\ (In (e1 (fst x)) (List.concat (map request_names rest)) -> In (e0 (fst x)) P)).

Section Chains.
Context {C : Collaborators}.

(** The chain an entry of the split table stands for, edge by edge. *)
Definition chain_of (g : Graph) (eal : list (EdgeKey * Value))
           (er : EdgeKey * list (Name * Q)) : list (Name * Name * Attrs) :=
  match dict_get edge_key_eqb eal (fst er) with
  | Some (VLine l) =>
      let items := sorted_by_distance (snd er) in
      map (triple_attrs g)
          (chain_triples (e0 (fst er)) (map fst items) (e1 (fst er))
                         (sub_segments l (map snd items)))
  | _ => []
  end.
End Chains.

(** ** Vocabulary of the properties of whole runs *)

(** A body that leaves the kind of the graph and its attribute keys as they
    are, however it ends. *)
Definition keeps_keys {A} (m : GM A) : Prop :=
  forall g, same_keys g (fst (m g)).

(** ** More sample graphs *)

(** A graph without edges: the node [A] at (0,0) alone. *)
Definition Lone : Graph := graph_of false false [("A", at_xy 0 0)] [].

(** The scenario graph with a node [A] that carries no coordinates. *)
Definition ABbare : Graph :=
  graph_of false false
           [("A", []); ("B", at_xy 10 0)]
           [(mkEdge "A" "B" 0, [("geometry", VLine [(0, 0); (10, 0)]%Q)])].

(** ** A graph ready for a merge, edge by edge *)

(** The edge joins nodes of the graph and, when it carries a geometry, the
    geometry is a line and both nodes have coordinates. *)
Definition ready_edge (g : Graph) (x : EdgeKey * Attrs) : Prop :=
  has_node g (e0 (fst x)) = true /\ has_node g (e1 (fst x)) = true
  /\ forall v, attr_get (snd x) (edges_geometry_key g) = Some v ->
               is_line v = true
               /\ is_located g (e0 (fst x)) = true /\ is_located g (e1 (fst x)) = true.

(** A recorded request whose edge has a line and whose nodes, the
    intersection nodes among them, have coordinates. *)
Definition request_located (eal : list (EdgeKey * Value)) (g : Graph)
           (er : EdgeKey * list (Name * Q)) : Prop :=
  (exists l, dict_get edge_key_eqb eal (fst er) = Some (VLine l))
  /\ is_located g (e0 (fst er)) = true /\ is_located g (e1 (fst er)) = true
  /\ Forall (fun nd => is_located g (fst nd) = true) (snd er).

Section Batch.
Context {C : Collaborators}.

(** Some point of the batch has the edge [x] as its closest edge and
    projects strictly inside its line. *)
Definition split_by_batch (g : Graph) (points_gdf : GeoDataFrame) (x : EdgeKey) : Prop :=
  let eal := get_edge_attributes (edges g) (edges_geometry_key g) in
  exists li p row e l,
    get_closest_line_from_points (map row_geometry points_gdf) (map snd eal) = Indexes li
    /\ nth_error points_gdf p = Some row
    /\ closest_edge eal li p = Some (e, l)
    /\ interior l (row_geometry row) = true
    /\ same_edge (is_directed g) x e = true.
End Batch.

(** ** The batch a graph merge stages *)

(** Lines 137-142 as a value: the rows of the nodes of [other_graph] that are
    merged as points, or the exception raised while they are staged. *)
Definition staged_rows (o : Graph) (unmerged_nodes merging_nodes : list Name)
  : Res GeoDataFrame :=
  if 0 <? List.length merging_nodes then
    rows_of_nodes (x_key o) (y_key o) (nodes (subgraph o merging_nodes))
  else
    match rows_of_nodes (x_key o) (y_key o) (nodes o) with
    | Ok rs =>
        if forallb (fun l => existsb (fun r => String.eqb (row_index r) l) rs) unmerged_nodes
        then Ok (filter (fun r => negb (existsb (String.eqb (row_index r)) unmerged_nodes)) rs)
        else Raise KeyError
    | Raise e => Raise e
    end.

(** ** The exceptions a body can end with *)

(** Whenever the body raises, the exception is one that [ok] accepts. *)
Definition raises_only {S A} (ok : Exn -> bool) (m : SE S A) : Prop :=
  forall s, match snd (m s) with Raise e => ok e = true | Ok _ => True end.

(** Everything but the error of [nx.compose] on graphs of two kinds. *)
Definition not_networkx_error (e : Exn) : bool :=
  match e with NetworkXError _ => false | _ => true end.

(** ** Counting *)

(** The edges a point is joined to its intersection node with: two on a
    directed graph merged in both directions, one otherwise. *)
Definition links_per_point (directed : bool) (merge_direction : string) : nat :=
  if directed && String.eqb merge_direction "both" then 2 else 1.

(** No two entries of the edge dictionary are for the same pair and key, as
    in every networkx graph. *)
Fixpoint distinct_edges (directed : bool) (es : list (EdgeKey * Attrs)) : bool :=
  match es with
  | [] => true
  | x :: t =>
      negb (existsb (fun y => same_edge directed (fst y) (fst x)) t)
      && distinct_edges directed t
  end.

(** A graph on which a closed edge cut once keeps the two edges of its
    chain apart: it is directed, or a multigraph, or it has no closed edge. *)
Definition chains_kept_apart (g : Graph) : bool :=
  is_directed g || is_multigraph g
  || forallb (fun x => negb (String.eqb (e0 (fst x)) (e1 (fst x)))) (edges g).

(** No two requests of an entry of the split table are at the same distance
    along the line. *)
Fixpoint distinct_distances (l : list (Name * Q)) : bool :=
  match l with
  | [] => true
  | x :: t => forallb (fun y => negb (Qeq_bool (snd x) (snd y))) t && distinct_distances t
  end.
(** * Properties *)

(** ** Comparisons on floats *)

Lemma Qltb_lt a b : Qltb a b = true <-> (a < b)%Q.
Proof.
  unfold Qltb. rewrite negb_true_iff. split; intro H.
  - apply Qnot_le_lt. intro L. apply Qle_bool_iff in L. congruence.
  - destruct (Qle_bool b a) eqn:E; trivial.
    apply Qle_bool_iff in E. exfalso. exact (Qlt_not_le _ _ H E).
Qed.

Lemma Qltb_irrefl a : Qltb a a = false.
Proof.
  unfold Qltb. rewrite negb_false_iff. apply Qle_bool_iff. apply Qle_refl.
Qed.

Lemma Qltb_eq_false a b : (a == b)%Q -> Qltb a b = false.
Proof.
  intro E. destruct (Qltb a b) eqn:L; trivial.
  apply Qltb_lt in L. rewrite E in L. exfalso. exact (Qlt_irrefl _ L).
Qed.

(** ** Which exceptions a body can raise *)

Lemma nc_ret {S A} (a : A) : never_config (@ret S A a).
Proof. intro s. reflexivity. Qed.

Lemma nc_self {S} : never_config (@self S).
Proof. intro s. reflexivity. Qed.

Lemma nc_mutate {S} (f : S -> S) : never_config (mutate f).
Proof. intro s. reflexivity. Qed.

Lemma nc_bind {S A B} (m : SE S A) (f : A -> SE S B) :
  never_config m -> (forall a, never_config (f a)) -> never_config (bind m f).
Proof.
  intros Hm Hf s. unfold bind. specialize (Hm s).
  destruct (m s) as [s' [a | e]]; simpl in *.
  - apply Hf.
  - exact Hm.
Qed.

Lemma nc_lookup {S A} (o : option A) (e : Exn) :
  is_configuration_error (@Raise A e) = false -> never_config (@lookup S A o e).
Proof. intros He s. destruct o; simpl; trivial. Qed.

Lemma nc_for_each {St A S} (xs : list A) (body : S -> A -> SE St S) :
  (forall acc x, never_config (body acc x)) -> forall acc, never_config (for_each xs body acc).
Proof.
  intro Hb. induction xs as [| x t IH]; intro acc; simpl.
  - apply nc_ret.
  - apply nc_bind; [apply Hb | intro; apply IH].
Qed.

Lemma nc_on {A} (r : Ref) (m : GM A) : never_config m -> never_config (on r m).
Proof.
  intros Hm h. unfold on. specialize (Hm (objs h r)).
  destruct (m (objs h r)) as [g' res]. exact Hm.
Qed.

Lemma nc_alloc (g : Graph) : never_config (alloc g).
Proof. intro h. reflexivity. Qed.

Lemma nc_as_float v : never_config (as_float v).
Proof. intro s. destruct v; reflexivity. Qed.

Lemma nc_as_line v : never_config (as_line v).
Proof. intro s. destruct v; reflexivity. Qed.

Create HintDb ncdb.

Ltac nc_step :=
  first
    [ solve [auto 1 with ncdb nocore]
    | apply nc_ret | apply nc_self | apply nc_mutate | apply nc_alloc
    | apply nc_as_float | apply nc_as_line
    | apply nc_lookup; reflexivity
    | apply nc_on
    | apply nc_bind; [| intro]
    | apply nc_for_each; intros ].

Ltac nc := repeat (nc_step || match goal with
                               | |- never_config (if ?b then _ else _) => destruct b
                               | |- never_config (match ?b with _ => _ end) => destruct b
                               end).

Lemma nc_node_attr n k : never_config (node_attr n k).
Proof. unfold node_attr. nc. Qed.
#[local] Hint Resolve nc_node_attr : ncdb.

Lemma nc_node_point n : never_config (node_point n).
Proof. unfold node_point. nc. Qed.
#[local] Hint Resolve nc_node_point : ncdb.

Lemma nc_edge_data a b : never_config (edge_data a b).
Proof. unfold edge_data, get_node_coordinates, segment. nc. Qed.
#[local] Hint Resolve nc_edge_data : ncdb.

Lemma nc_graph_nodes_to_gdf {S} G : never_config (@graph_nodes_to_gdf S G).
Proof.
  unfold graph_nodes_to_gdf.
  assert (H : forall xk yk ns, is_configuration_error (rows_of_nodes xk yk ns) = false).
  { intros xk yk ns. induction ns as [| [n a] t IH]; simpl; trivial.
    destruct (attr_get a xk) as [[] |]; destruct (attr_get a yk) as [[] |]; trivial.
    destruct (rows_of_nodes xk yk t); trivial. }
  specialize (H (x_key G) (y_key G) (nodes G)).
  destruct (rows_of_nodes (x_key G) (y_key G) (nodes G)); intro s; simpl; trivial.
Qed.

Lemma nc_drop_index {S} gdf labels : never_config (@drop_index S gdf labels).
Proof. unfold drop_index. nc. Qed.

Lemma nc_compose G H : never_config (compose G H).
Proof. unfold compose. nc. Qed.
#[local] Hint Resolve nc_graph_nodes_to_gdf nc_drop_index nc_compose : ncdb.

Lemma configuration_error_value {A} (r : Res A) :
  is_configuration_error r = true ->
  r = Raise (ValueError directed_message) \/ r = Raise (ValueError multigraph_message)
  \/ r = Raise (ValueError lists_message).
Proof.
  destruct r as [a | []]; try discriminate.
  unfold is_configuration_error, is_configuration_message.
  intro H. apply orb_true_iff in H. destruct H as [H | H].
  - apply orb_true_iff in H. destruct H as [H | H]; apply String.eqb_eq in H; subst; auto.
  - apply String.eqb_eq in H. subst. auto.
Qed.

Section NeverConfig.
Context {C : Collaborators}.
Hypothesis Hapart : search_errors_apart.

Lemma nc_searched {S} points lines :
  never_config (@searched S (get_closest_line_from_points points lines)).
Proof.
  intro s. destruct (get_closest_line_from_points points lines) as [li | msg] eqn:E.
  - reflexivity.
  - exact (Hapart _ _ _ E).
Qed.
#[local] Hint Resolve nc_searched : ncdb.

Lemma nc_merge_point eal li dir ets it : never_config (merge_point eal li dir ets it).
Proof.
  unfold merge_point, place_intersection, closest_extremity, connect. nc.
Qed.
#[local] Hint Resolve nc_merge_point : ncdb.

Lemma nc_splice_edge eal u it : never_config (splice_edge eal u it).
Proof.
  unfold splice_edge, cut_initial_line, add_intermediary, add_line_edge. nc.
Qed.
#[local] Hint Resolve nc_splice_edge : ncdb.

Lemma nc_points_merge_body gdf dir : never_config (points_merge_body gdf dir).
Proof.
  unfold points_merge_body. nc.
Qed.
#[local] Hint Resolve nc_points_merge_body : ncdb.

Lemma nc_spatial_points_merge graph gdf inplace dir :
  never_config (spatial_points_merge graph gdf inplace dir).
Proof.
  unfold spatial_points_merge, copy. nc.
Qed.
End NeverConfig.

(** ** Reading an object leaves the heap as it was *)

Lemma objs_store_same h r r' : objs (store h r (objs h r)) r' = objs h r'.
Proof.
  simpl. destruct (Nat.eqb_spec r' r) as [-> |]; reflexivity.
Qed.

Lemma objs_store_other h r g r' : r' <> r -> objs (store h r g) r' = objs h r'.
Proof.
  intro N. simpl. destruct (Nat.eqb_spec r' r); [contradiction | reflexivity].
Qed.

Lemma objs_store_eq h r g : objs (store h r g) r = g.
Proof. simpl. rewrite Nat.eqb_refl. reflexivity. Qed.

Lemma bind_on_self {A} (r : Ref) (f : Graph -> M A) (h : Heap) :
  bind (on r self) f h = f (objs h r) (store h r (objs h r)).
Proof. reflexivity. Qed.

Lemma length_pos_nonempty {A} (l : list A) : (0 <? List.length l) = true <-> l <> [].
Proof.
  destruct l; simpl; split; intro H; try congruence; try discriminate.
  reflexivity.
Qed.

Section ConfigurationErrors.
Context {C : Collaborators}.

End ConfigurationErrors.

(** ** In-place and copy mode of [spatial_points_merge] *)

Section Ownership.
Context {C : Collaborators}.

(** C7: in copy mode [spatial_points_merge] clones the graph into a new
    object before anything is mutated, runs on the clone and returns it,
    and every object that existed before the call, the caller's graph among
    them, is unchanged; in in-place mode the same body runs on the caller's
    graph itself and [None] is returned. *)
Theorem points_merge_ownership
        (h : Heap) (graph : Ref) (points_gdf : GeoDataFrame) (merge_direction : string) :
  graph < next h ->
  let body := points_merge_body points_gdf merge_direction (objs h graph) in
  let copy_run := spatial_points_merge graph points_gdf false merge_direction h in
  let inplace_run := spatial_points_merge graph points_gdf true merge_direction h in
  (objs (fst copy_run) graph = objs h graph
   /\ (forall r, r < next h -> objs (fst copy_run) r = objs h r)
   /\ objs (fst copy_run) (next h) = fst body
   /\ snd copy_run = match snd body with
                     | Ok _ => Ok (Some (next h))
                     | Raise e => Raise e
                     end)
  /\ (objs (fst inplace_run) graph = fst body
      /\ (forall r, r <> graph -> objs (fst inplace_run) r = objs h r)
      /\ snd inplace_run = match snd body with
                           | Ok _ => Ok None
                           | Raise e => Raise e
                           end).
Proof.
  intros Hv body copy_run inplace_run.
  assert (E1 : (graph =? next h) = false) by (apply Nat.eqb_neq; lia).
  subst copy_run inplace_run body.
  unfold spatial_points_merge, copy, bind, on, self, alloc, ret, store.
  cbn [negb next objs]. rewrite !Nat.eqb_refl.
  destruct (points_merge_body points_gdf merge_direction (objs h graph)) as [g' [[] | e]];
    cbn [fst snd objs next]; rewrite ?Nat.eqb_refl, ?E1.
  all: repeat split; trivial.
  all: intros r Hr.
  all: try (assert (E2 : (r =? next h) = false) by (apply Nat.eqb_neq; lia); rewrite E2).
  all: destruct (Nat.eqb_spec r graph) as [-> |]; try reflexivity; contradiction.
Qed.
End Ownership.

(** ** Dictionaries and the graph container *)

Lemma dict_get_app {K V} (eqb : K -> K -> bool) (d d' : list (K * V)) k :
  dict_get eqb (d ++ d') k =
  match dict_get eqb d k with Some v => Some v | None => dict_get eqb d' k end.
Proof.
  induction d as [| [k' v'] t IH]; simpl; trivial.
  destruct (eqb k' k); trivial.
Qed.

Lemma attr_get_set_same a k v : attr_get (attr_set a k v) k = Some v.
Proof.
  unfold attr_get, attr_set. induction a as [| [k' v'] t IH]; simpl.
  - rewrite String.eqb_refl. reflexivity.
  - destruct (String.eqb k' k) eqn:E; simpl; rewrite E; trivial.
Qed.

Lemma attr_get_set_other a k v k' : k <> k' -> attr_get (attr_set a k v) k' = attr_get a k'.
Proof.
  intro N. unfold attr_get, attr_set. induction a as [| [k0 v0] t IH]; simpl.
  - apply String.eqb_neq in N. rewrite N. reflexivity.
  - destruct (String.eqb k0 k) eqn:E; simpl.
    + apply String.eqb_eq in E. subst k0.
      apply String.eqb_neq in N. rewrite N. reflexivity.
    + destruct (String.eqb k0 k'); trivial.
Qed.

Lemma position_info_located g cells pt :
  exists x y, attr_get (position_info g cells pt) (x_key g) = Some (VFloat x)
              /\ attr_get (position_info g cells pt) (y_key g) = Some (VFloat y)
              /\ (x_key g <> y_key g -> (x, y) = pt).
Proof.
  unfold position_info. destruct (String.eqb_spec (y_key g) (x_key g)) as [E | N].
  - rewrite E. exists (snd pt), (snd pt). rewrite attr_get_set_same.
    repeat split; trivial. intro H. contradiction.
  - exists (fst pt), (snd pt). rewrite attr_get_set_other by assumption.
    rewrite !attr_get_set_same. repeat split; trivial.
    intros _. destruct pt; reflexivity.
Qed.

Lemma has_node_get g n : has_node g n = false <-> node_get g n = None.
Proof.
  unfold has_node, dict_mem, node_get. destruct (dict_get String.eqb (nodes g) n); split; congruence.
Qed.

Lemma has_node_get_some g n : has_node g n = true <-> exists a, node_get g n = Some a.
Proof.
  unfold has_node, dict_mem, node_get. destruct (dict_get String.eqb (nodes g) n); split;
    try congruence; eauto. intros [a H]. discriminate.
Qed.

Lemma add_node_new g n a :
  has_node g n = false -> add_node g n a = set_nodes g (nodes g ++ [(n, a)]).
Proof.
  intro H. apply has_node_get in H. unfold add_node. rewrite H. reflexivity.
Qed.

Lemma node_get_grow g l n :
  node_get (set_nodes g (nodes g ++ l)) n =
  match node_get g n with Some a => Some a | None => dict_get String.eqb l n end.
Proof. unfold node_get. simpl. apply dict_get_app. Qed.

Lemma has_node_grow g l n :
  has_node g n = true -> has_node (set_nodes g (nodes g ++ l)) n = true.
Proof.
  intro H. apply has_node_get_some in H. destruct H as [a H].
  apply has_node_get_some. exists a. rewrite node_get_grow, H. reflexivity.
Qed.

Lemma has_node_last g n a : has_node (set_nodes g (nodes g ++ [(n, a)])) n = true.
Proof.
  apply has_node_get_some. rewrite node_get_grow. destruct (node_get g n); eauto.
  simpl. rewrite String.eqb_refl. eauto.
Qed.

Lemma located_grow g l n pt :
  located g n = Some pt -> located (set_nodes g (nodes g ++ l)) n = Some pt.
Proof.
  unfold located. rewrite node_get_grow. simpl.
  destruct (node_get g n); [trivial | discriminate].
Qed.

Lemma located_last g n cells pt :
  has_node g n = false ->
  exists q, located (set_nodes g (nodes g ++ [(n, position_info g cells pt)])) n = Some q
            /\ (x_key g <> y_key g -> q = pt).
Proof.
  intro H. apply has_node_get in H. unfold located. rewrite node_get_grow, H. simpl.
  rewrite String.eqb_refl.
  destruct (position_info_located g cells pt) as (x & y & Hx & Hy & Hxy).
  rewrite Hx, Hy. exists (x, y). split; trivial.
Qed.

Lemma located_has_node g n pt : located g n = Some pt -> has_node g n = true.
Proof.
  unfold located. intro H. apply has_node_get_some.
  destruct (node_get g n); [eauto | discriminate].
Qed.

Lemma ensure_node_present g n : has_node g n = true -> ensure_node g n = g.
Proof. intro H. unfold ensure_node. rewrite H. reflexivity. Qed.

Lemma same_pair_sym d a b c e : same_pair d a b c e = same_pair d c e a b.
Proof.
  unfold same_pair. rewrite (String.eqb_sym a c), (String.eqb_sym b e),
    (String.eqb_sym a e), (String.eqb_sym b c).
  destruct (String.eqb c a), (String.eqb e b), (String.eqb e a), (String.eqb c b), d; reflexivity.
Qed.

Lemma no_edge_dict_get g a b key :
  no_edge_between g a b = true ->
  dict_get (same_edge (is_directed g)) (edges g) (mkEdge a b key) = None.
Proof.
  unfold no_edge_between. rewrite negb_true_iff.
  induction (edges g) as [| [k v] t IH]; simpl; trivial.
  intro H. apply orb_false_iff in H. destruct H as [H1 H2].
  unfold same_edge at 1. simpl. rewrite H1. simpl. auto.
Qed.

Lemma no_edge_keydict g a b : no_edge_between g a b = true -> keydict g a b = [].
Proof.
  unfold no_edge_between, keydict. rewrite negb_true_iff.
  induction (edges g) as [| [k v] t IH]; simpl; trivial.
  intro H. apply orb_false_iff in H. destruct H as [H1 H2].
  rewrite H1. auto.
Qed.

(** Adding an edge between two nodes with no edge between them appends it,
    with key [0], whatever the kind of graph. *)
Lemma add_edge_new g a b attr :
  has_node g a = true -> has_node g b = true -> no_edge_between g a b = true ->
  add_edge g a b attr = set_edges g (edges g ++ [(mkEdge a b 0, attr)]).
Proof.
  intros Ha Hb Hn. unfold add_edge.
  rewrite (ensure_node_present g a Ha), (ensure_node_present g b Hb).
  assert (K : (if is_multigraph g then new_edge_key g a b else 0) = 0).
  { destruct (is_multigraph g); trivial.
    unfold new_edge_key. rewrite (no_edge_keydict g a b Hn). reflexivity. }
  rewrite K. unfold put_edge. rewrite (no_edge_dict_get g a b 0 Hn). reflexivity.
Qed.

Lemma edges_closed_no_edge_l g p b :
  edges_closed g = true -> has_node g p = false -> no_edge_between g p b = true.
Proof.
  unfold edges_closed, no_edge_between. intros Hc Hp. rewrite negb_true_iff.
  induction (edges g) as [| [k v] t IH]; simpl in *; trivial.
  apply andb_true_iff in Hc. destruct Hc as [Hk Ht].
  apply andb_true_iff in Hk. destruct Hk as [H0 H1].
  rewrite (IH Ht), orb_false_r. unfold same_pair.
  destruct (String.eqb_spec (e0 k) p) as [E |]; [rewrite E in H0; congruence |].
  destruct (String.eqb_spec (e1 k) p) as [E |]; [rewrite E in H1; congruence |].
  simpl. rewrite !andb_false_r. reflexivity.
Qed.

Lemma edges_closed_no_edge_r g p b :
  edges_closed g = true -> has_node g p = false -> no_edge_between g b p = true.
Proof.
  unfold edges_closed, no_edge_between. intros Hc Hp. rewrite negb_true_iff.
  induction (edges g) as [| [k v] t IH]; simpl in *; trivial.
  apply andb_true_iff in Hc. destruct Hc as [Hk Ht].
  apply andb_true_iff in Hk. destruct Hk as [H0 H1].
  rewrite (IH Ht), orb_false_r. unfold same_pair.
  destruct (String.eqb_spec (e0 k) p) as [E |]; [rewrite E in H0; congruence |].
  destruct (String.eqb_spec (e1 k) p) as [E |]; [rewrite E in H1; congruence |].
  simpl. rewrite !andb_false_r. reflexivity.
Qed.

(** ** Running the blocks of the loop over the points *)

Lemma bind_ok {S A B} (m : SE S A) (f : A -> SE S B) s s' a :
  m s = (s', Ok a) -> bind m f s = f a s'.
Proof. intro H. unfold bind. rewrite H. reflexivity. Qed.

Lemma node_attr_run g n k a v :
  node_get g n = Some a -> attr_get a k = Some v -> node_attr n k g = (g, Ok v).
Proof.
  intros Hn Ha. unfold node_attr, bind, self, lookup. rewrite Hn. simpl. rewrite Ha.
  reflexivity.
Qed.

Lemma located_inv g n pt :
  located g n = Some pt ->
  exists a, node_get g n = Some a
            /\ attr_get a (x_key g) = Some (VFloat (fst pt))
            /\ attr_get a (y_key g) = Some (VFloat (snd pt)).
Proof.
  unfold located. destruct (node_get g n) as [a |]; [| discriminate].
  destruct (attr_get a (x_key g)) as [[x | | |] |] eqn:Ex; try discriminate;
    destruct (attr_get a (y_key g)) as [[y | | |] |] eqn:Ey; try discriminate.
  intro H. inversion H. subst. simpl. exists a. repeat split; trivial.
Qed.

Lemma node_point_run g n pt : located g n = Some pt -> node_point n g = (g, Ok pt).
Proof.
  intro H. destruct (located_inv g n pt H) as (a & Hn & Hx & Hy).
  unfold node_point. unfold bind at 1. unfold self at 1.
  rewrite (bind_ok _ _ _ _ _ (node_attr_run g n _ a _ Hn Hx)).
  rewrite (bind_ok _ _ _ _ _ (node_attr_run g n _ a _ Hn Hy)).
  destruct pt. reflexivity.
Qed.

Lemma edge_data_run g a b pa pb :
  located g a = Some pa -> located g b = Some pb ->
  edge_data a b g = (g, Ok [(edges_geometry_key g, VLine [pa; pb])]).
Proof.
  intros Ha Hb.
  destruct (located_inv g a pa Ha) as (aa & Hna & Hxa & Hya).
  destruct (located_inv g b pb Hb) as (ab & Hnb & Hxb & Hyb).
  unfold edge_data, get_node_coordinates. unfold bind at 1. unfold self at 1.
  unfold bind at 1. unfold bind at 1. unfold self at 1.
  rewrite (bind_ok _ _ _ _ _ (node_attr_run g a _ aa _ Hna Hxa)).
  rewrite (bind_ok _ _ _ _ _ (node_attr_run g a _ aa _ Hna Hya)).
  unfold ret at 1. unfold bind at 1. unfold bind at 1. unfold self at 1.
  rewrite (bind_ok _ _ _ _ _ (node_attr_run g b _ ab _ Hnb Hxb)).
  rewrite (bind_ok _ _ _ _ _ (node_attr_run g b _ ab _ Hnb Hyb)).
  destruct pa, pb. reflexivity.
Qed.

Lemma no_edge_between_snoc g a b c d key attr :
  no_edge_between (set_edges g (edges g ++ [(mkEdge a b key, attr)])) c d =
  no_edge_between g c d && negb (same_pair (is_directed g) a b c d).
Proof.
  unfold no_edge_between. simpl. rewrite existsb_app. simpl.
  rewrite orb_false_r, negb_orb. reflexivity.
Qed.

Lemma located_set_edges g es n : located (set_edges g es) n = located g n.
Proof. reflexivity. Qed.

Lemma connect_run g dir p i pp pi :
  located g p = Some pp -> located g i = Some pi -> p <> i ->
  no_edge_between g p i = true -> no_edge_between g i p = true ->
  connect dir p i g = (set_edges g (edges g ++ links g dir p i pp pi), Ok tt).
Proof.
  intros Hp Hi Hne N1 N2.
  pose proof (located_has_node _ _ _ Hp) as Np.
  pose proof (located_has_node _ _ _ Hi) as Ni.
  unfold connect, links.
  rewrite (bind_ok _ _ _ _ _ (edge_data_run g p i pp pi Hp Hi)).
  unfold bind at 1. unfold self at 1.
  destruct (is_directed g) eqn:D.
  - rewrite (bind_ok _ _ _ _ _ (edge_data_run g i p pi pp Hi Hp)).
    destruct (String.eqb dir "both").
    + unfold bind, mutate. rewrite (add_edge_new g p i _ Np Ni N1).
      rewrite add_edge_new.
      * unfold set_edges, line_edge. simpl. rewrite <- app_assoc. reflexivity.
      * exact Ni.
      * exact Np.
      * rewrite no_edge_between_snoc, N2, D. unfold same_pair. simpl.
        apply String.eqb_neq in Hne. rewrite Hne. reflexivity.
    + destruct (String.eqb dir "in"); unfold mutate.
      * rewrite (add_edge_new g p i _ Np Ni N1). reflexivity.
      * rewrite (add_edge_new g i p _ Ni Np N2). reflexivity.
  - unfold mutate. rewrite (add_edge_new g p i _ Np Ni N1). reflexivity.
Qed.

Section PointBlocks.
Context {C : Collaborators}.

Lemma closest_extremity_run g e pt p1 p2 :
  located g (e0 e) = Some p1 -> located g (e1 e) = Some p2 ->
  closest_extremity e pt g =
  (g, Ok (if Qltb (euclidian_distance pt p1) (euclidian_distance pt p2)
          then e0 e else e1 e)).
Proof.
  intros H1 H2. unfold closest_extremity.
  rewrite (bind_ok _ _ _ _ _ (node_point_run g _ _ H1)).
  rewrite (bind_ok _ _ _ _ _ (node_point_run g _ _ H2)).
  destruct (Qltb (euclidian_distance pt p1) (euclidian_distance pt p2)); reflexivity.
Qed.

Lemma place_intersection_interior g ets e l idx pt :
  interior l pt = true ->
  place_intersection ets e l idx pt g =
  (let i := get_new_node_unique_name g (String.append INTERSECTION_PREFIX idx) in
   (add_node g i (position_info g [] (interpolate l (project l pt))),
    Ok (i, record_split ets e i (project l pt)))).
Proof.
  intro H. unfold place_intersection. unfold interior in H. rewrite H. reflexivity.
Qed.

Lemma place_intersection_snap g ets e l idx pt p1 p2 :
  interior l pt = false ->
  located g (e0 e) = Some p1 -> located g (e1 e) = Some p2 ->
  place_intersection ets e l idx pt g =
  (g, Ok (if Qltb (euclidian_distance pt p1) (euclidian_distance pt p2)
          then e0 e else e1 e, ets)).
Proof.
  intros H H1 H2. unfold place_intersection. unfold interior in H. rewrite H.
  rewrite (bind_ok _ _ _ _ _ (closest_extremity_run g e pt p1 p2 H1 H2)). reflexivity.
Qed.

Lemma merge_point_prefix g eal li dir ets p row e l :
  closest_edge eal li p = Some (e, l) ->
  merge_point eal li dir ets (p, row) g =
  (let name := get_new_node_unique_name g (row_index row) in
   let g1 := add_node g name (position_info g (row_cells row) (row_geometry row)) in
   bind (place_intersection ets e l (row_index row) (row_geometry row))
        (fun r => bind (connect dir name (fst r)) (fun _ => ret (snd r))) g1).
Proof.
  intro H. unfold closest_edge in H. unfold merge_point. cbn [fst snd].
  unfold bind at 1. unfold self at 1. unfold bind at 1. unfold mutate at 1.
  destruct (nth_error li p) as [i |]; [| discriminate].
  unfold bind at 1. unfold lookup at 1. unfold ret at 1.
  destruct (nth_error eal i) as [[e' v'] |]; [| discriminate].
  unfold bind at 1. cbn [option_map fst lookup]. unfold ret at 1.
  destruct (dict_get edge_key_eqb eal e') as [[| | | l'] |]; try discriminate.
  inversion H. subst. reflexivity.
Qed.
End PointBlocks.

(** ** One turn of the loop over the points *)

Lemma no_edge_between_set_nodes g ns a b :
  no_edge_between (set_nodes g ns) a b = no_edge_between g a b.
Proof. reflexivity. Qed.

Lemma has_node_differ g a b : has_node g a = true -> has_node g b = false -> a <> b.
Proof. intros Ha Hb E. subst. congruence. Qed.

Section PointTurn.
Context {C : Collaborators}.

(** A point whose projection is interior: both nodes are appended, the
    split is recorded, the links are appended. *)
Lemma merge_point_interior g eal li dir ets p row e l :
  let name := get_new_node_unique_name g (row_index row) in
  let g1 := set_nodes g (nodes g ++ [(name, position_info g (row_cells row) (row_geometry row))]) in
  let i := get_new_node_unique_name g1 (String.append INTERSECTION_PREFIX (row_index row)) in
  let d := project l (row_geometry row) in
  has_node g name = false ->
  has_node g1 i = false ->
  edges_closed g = true ->
  closest_edge eal li p = Some (e, l) ->
  interior l (row_geometry row) = true ->
  exists pp pi,
    let g' := set_edges
                (set_nodes g (nodes g ++ [(name, position_info g (row_cells row) (row_geometry row));
                                          (i, position_info g [] (interpolate l d))]))
                (edges g ++ links g dir name i pp pi) in
    merge_point eal li dir ets (p, row) g = (g', Ok (record_split ets e i d))
    /\ located g' name = Some pp /\ located g' i = Some pi
    /\ (x_key g <> y_key g -> pp = row_geometry row /\ pi = interpolate l d).
Proof.
  intros name g1 i d Hn Hi Hc He Hin.
  rewrite (merge_point_prefix g eal li dir ets p row e l He). cbv zeta.
  fold name. rewrite (add_node_new g name _ Hn). fold g1.
  unfold bind at 1. rewrite (place_intersection_interior g1 ets e l _ _ Hin). cbv zeta.
  fold i. fold d. rewrite (add_node_new g1 i _ Hi). cbn [fst snd].
  set (g2 := set_nodes g1 (nodes g1 ++ [(i, position_info g1 [] (interpolate l d))])).
  destruct (located_last g name (row_cells row) (row_geometry row) Hn) as (pp & Hpp & Epp).
  fold g1 in Hpp.
  destruct (located_last g1 i [] (interpolate l d) Hi) as (pi & Hpi & Epi).
  fold g2 in Hpi.
  assert (Hpp2 : located g2 name = Some pp) by (apply located_grow; exact Hpp).
  assert (Hne : name <> i).
  { apply (has_node_differ g1); [apply has_node_last | exact Hi]. }
  exists pp, pi.
  rewrite (bind_ok _ _ _ _ _ (connect_run g2 dir name i pp pi Hpp2 Hpi Hne
                                          (edges_closed_no_edge_l g name i Hc Hn)
                                          (edges_closed_no_edge_r g name i Hc Hn))).
  cbv zeta.
  set (g' := set_edges (set_nodes g _) _).
  assert (Eg : set_edges g2 (edges g2 ++ links g2 dir name i pp pi) = g').
  { unfold g', g2, g1, set_nodes, set_edges, links, line_edge. simpl.
    rewrite <- app_assoc. reflexivity. }
  assert (L : forall n, located g' n = located g2 n).
  { intro n. unfold located, node_get, g', g2, g1. simpl.
    rewrite <- app_assoc. reflexivity. }
  rewrite Eg, !L. repeat split; auto.
Qed.

(** A point that snaps to an extremity: only its own node is appended, the
    split table is untouched, the links go to the extremity. *)
Lemma merge_point_snap g eal li dir ets p row e l p1 p2 :
  let name := get_new_node_unique_name g (row_index row) in
  let t := if Qltb (euclidian_distance (row_geometry row) p1)
                   (euclidian_distance (row_geometry row) p2)
           then e0 e else e1 e in
  has_node g name = false ->
  edges_closed g = true ->
  closest_edge eal li p = Some (e, l) ->
  interior l (row_geometry row) = false ->
  located g (e0 e) = Some p1 -> located g (e1 e) = Some p2 ->
  exists pp pt,
    let g' := set_edges
                (set_nodes g (nodes g ++ [(name, position_info g (row_cells row) (row_geometry row))]))
                (edges g ++ links g dir name t pp pt) in
    merge_point eal li dir ets (p, row) g = (g', Ok ets)
    /\ located g' name = Some pp /\ located g' t = Some pt
    /\ (x_key g <> y_key g -> pp = row_geometry row).
Proof.
  intros name t Hn Hc He Hin H1 H2.
  rewrite (merge_point_prefix g eal li dir ets p row e l He). cbv zeta.
  fold name. rewrite (add_node_new g name _ Hn).
  set (g1 := set_nodes g (nodes g ++ [(name, position_info g (row_cells row) (row_geometry row))])).
  assert (H1' : located g1 (e0 e) = Some p1) by (apply located_grow; exact H1).
  assert (H2' : located g1 (e1 e) = Some p2) by (apply located_grow; exact H2).
  unfold bind at 1.
  rewrite (place_intersection_snap g1 ets e l _ _ p1 p2 Hin H1' H2'). cbn [fst snd].
  fold t.
  destruct (located_last g name (row_cells row) (row_geometry row) Hn) as (pp & Hpp & Epp).
  fold g1 in Hpp.
  assert (Ht : exists pt, located g t = Some pt).
  { unfold t. destruct (Qltb _ _); eauto. }
  destruct Ht as [pt Ht].
  assert (Ht1 : located g1 t = Some pt) by (apply located_grow; exact Ht).
  assert (Hne : name <> t).
  { intro E. apply (has_node_differ g t name); auto.
    apply (located_has_node _ _ _ Ht). }
  exists pp, pt.
  rewrite (bind_ok _ _ _ _ _ (connect_run g1 dir name t pp pt Hpp Ht1 Hne
                                          (edges_closed_no_edge_l g name t Hc Hn)
                                          (edges_closed_no_edge_r g name t Hc Hn))).
  cbv zeta. repeat split; auto.
Qed.
End PointTurn.

(** ** The split table *)

Lemma edge_key_eqb_eq a b : edge_key_eqb a b = true -> a = b.
Proof.
  unfold edge_key_eqb. intro H. apply andb_true_iff in H. destruct H as [H H2].
  apply andb_true_iff in H. destruct H as [H0 H1].
  apply String.eqb_eq in H0. apply String.eqb_eq in H1. apply Nat.eqb_eq in H2.
  destruct a, b. simpl in *. congruence.
Qed.

Lemma edge_key_eqb_refl a : edge_key_eqb a a = true.
Proof.
  unfold edge_key_eqb. rewrite !String.eqb_refl, Nat.eqb_refl. reflexivity.
Qed.

Lemma dict_get_set_same {V} (d : list (Name * V)) k v :
  dict_get String.eqb (dict_set String.eqb d k v) k = Some v.
Proof.
  induction d as [| [k' v'] t IH]; simpl.
  - rewrite String.eqb_refl. reflexivity.
  - destruct (String.eqb k' k) eqn:E; simpl; rewrite E; trivial.
Qed.

Lemma dict_get_set_other {V} (d : list (Name * V)) k v k' :
  k <> k' -> dict_get String.eqb (dict_set String.eqb d k v) k' = dict_get String.eqb d k'.
Proof.
  intro N. induction d as [| [k0 v0] t IH]; simpl.
  - apply String.eqb_neq in N. rewrite N. reflexivity.
  - destruct (String.eqb k0 k) eqn:E; simpl.
    + apply String.eqb_eq in E. subst k0.
      apply String.eqb_neq in N. rewrite N. reflexivity.
    + destruct (String.eqb k0 k'); trivial.
Qed.

Lemma record_split_cons k m t e i d :
  record_split ((k, m) :: t) e i d =
  if edge_key_eqb k e then (k, dict_set String.eqb m i d) :: t
  else (k, m) :: record_split t e i d.
Proof.
  unfold record_split. simpl. destruct (edge_key_eqb k e); reflexivity.
Qed.

(** After [edges_to_split[e][n] = d] the table has [d] at [e], [n]. *)
Lemma record_split_requested ets e i d :
  requested (record_split ets e i d) e i = Some d.
Proof.
  induction ets as [| [k m] t IH].
  - unfold requested, record_split. cbn [dict_get dict_set].
    rewrite edge_key_eqb_refl. cbn [dict_get]. rewrite String.eqb_refl. reflexivity.
  - rewrite record_split_cons. destruct (edge_key_eqb k e) eqn:E.
    + unfold requested. cbn [dict_get]. rewrite E. apply dict_get_set_same.
    + unfold requested in *. cbn [dict_get]. rewrite E. exact IH.
Qed.

(** ... and what it had everywhere else. *)
Lemma record_split_requested_other ets e i d e' n :
  e' <> e \/ n <> i ->
  requested (record_split ets e i d) e' n = requested ets e' n.
Proof.
  intro Hne. induction ets as [| [k m] t IH].
  - unfold requested, record_split. cbn [dict_get dict_set].
    destruct (edge_key_eqb e e') eqn:E; [| reflexivity].
    apply edge_key_eqb_eq in E. subst e'. cbn [dict_get].
    destruct (String.eqb_spec i n) as [-> | N]; [| reflexivity].
    destruct Hne as [H | H]; contradiction H; reflexivity.
  - rewrite record_split_cons. destruct (edge_key_eqb k e) eqn:E.
    + apply edge_key_eqb_eq in E. subst k. unfold requested. cbn [dict_get].
      destruct (edge_key_eqb e e') eqn:E'; [| reflexivity].
      apply edge_key_eqb_eq in E'. subst e'. apply dict_get_set_other.
      intro X. subst n. destruct Hne as [H | H]; contradiction H; reflexivity.
    + unfold requested in *. cbn [dict_get].
      destruct (edge_key_eqb k e'); [reflexivity | exact IH].
Qed.

Section PointClaims.
Context {C : Collaborators}.

Lemma interior_lt l pt :
  interior l pt = true <-> (0 < project l pt)%Q /\ (project l pt < line_length l)%Q.
Proof.
  unfold interior. rewrite andb_true_iff, !Qltb_lt. reflexivity.
Qed.

(** Both cases of a turn of the loop at once: [t] is the intersection node
    of the point and [extra] the node created for it, if any. *)
Lemma merge_point_run g eal li dir ets p row e l p1 p2 :
  let pt := row_geometry row in
  let name := get_new_node_unique_name g (row_index row) in
  let info := position_info g (row_cells row) pt in
  let g1 := set_nodes g (nodes g ++ [(name, info)]) in
  let i := get_new_node_unique_name g1 (String.append INTERSECTION_PREFIX (row_index row)) in
  let d := project l pt in
  has_node g name = false ->
  has_node g1 i = false ->
  edges_closed g = true ->
  closest_edge eal li p = Some (e, l) ->
  located g (e0 e) = Some p1 -> located g (e1 e) = Some p2 ->
  exists g' ets' t extra pp pc,
    merge_point eal li dir ets (p, row) g = (g', Ok ets')
    /\ g' = set_edges (set_nodes g (nodes g ++ (name, info) :: extra))
                     (edges g ++ links g dir name t pp pc)
    /\ nodes g' = nodes g ++ (name, info) :: extra
    /\ edges g' = edges g ++ links g dir name t pp pc
    /\ is_directed g' = is_directed g
    /\ located g' name = Some pp /\ located g' t = Some pc
    /\ (interior l pt = true ->
        t = i /\ extra = [(i, position_info g [] (interpolate l d))]
        /\ ets' = record_split ets e i d)
    /\ (interior l pt = false ->
        t = (if Qltb (euclidian_distance pt p1) (euclidian_distance pt p2)
             then e0 e else e1 e)
        /\ extra = [] /\ ets' = ets).
Proof.
  intros pt name info g1 i d Hn Hi Hc He H1 H2.
  destruct (interior l pt) eqn:Hin.
  - destruct (merge_point_interior g eal li dir ets p row e l Hn Hi Hc He Hin)
      as (pp & pc & Hrun & Lp & Lc & _).
    cbv zeta in Hrun, Lp, Lc.
    eexists _, _, i, _, pp, pc. split; [exact Hrun |].
    repeat split; try reflexivity; try assumption; discriminate.
  - destruct (merge_point_snap g eal li dir ets p row e l p1 p2 Hn Hc He Hin H1 H2)
      as (pp & pc & Hrun & Lp & Lc & _).
    cbv zeta in Hrun, Lp, Lc.
    eexists _, _, _, [], pp, pc. split; [exact Hrun |].
    repeat split; try reflexivity; try assumption; discriminate.
Qed.

(** C4: a turn of the loop creates an intersection node and records a split
    request exactly when the projection distance [d] of the point on the
    line of its closest edge satisfies [0 < d < length].  The request is
    recorded in the split table under the closest edge and the name [i] of
    the intersection node: afterwards the table has [d] there, and at every
    other edge or name it has what it had.  Otherwise no node but the
    point's own is created, the split table is left as it was, the edges of
    the graph are all kept as they were, and the point is joined to the
    extremity of the edge that is closer to it. *)
Theorem intersection_or_snap g eal li dir ets p row e l p1 p2 :
  let pt := row_geometry row in
  let name := get_new_node_unique_name g (row_index row) in
  let info := position_info g (row_cells row) pt in
  let g1 := set_nodes g (nodes g ++ [(name, info)]) in
  let i := get_new_node_unique_name g1 (String.append INTERSECTION_PREFIX (row_index row)) in
  let d := project l pt in
  has_node g name = false ->
  has_node g1 i = false ->
  edges_closed g = true ->
  closest_edge eal li p = Some (e, l) ->
  located g (e0 e) = Some p1 -> located g (e1 e) = Some p2 ->
  exists g' ets',
    merge_point eal li dir ets (p, row) g = (g', Ok ets')
    /\ ((0 < d)%Q /\ (d < line_length l)%Q ->
        nodes g' = nodes g ++ [(name, info); (i, position_info g [] (interpolate l d))]
        /\ ets' = record_split ets e i d
        /\ requested ets' e i = Some d
        /\ (forall e' n, e' <> e \/ n <> i -> requested ets' e' n = requested ets e' n))
    /\ (~ ((0 < d)%Q /\ (d < line_length l)%Q) ->
        nodes g' = nodes g ++ [(name, info)]
        /\ ets' = ets
        /\ exists t new,
            edges g' = edges g ++ new
            /\ new <> []
            /\ (forall x, In x new -> joins name t (fst x))
            /\ (t = e0 e \/ t = e1 e)
            /\ ((euclidian_distance pt p1 < euclidian_distance pt p2)%Q -> t = e0 e)
            /\ ((euclidian_distance pt p2 < euclidian_distance pt p1)%Q -> t = e1 e)).
Proof.
  intros pt name info g1 i d Hn Hi Hc He H1 H2.
  destruct (merge_point_run g eal li dir ets p row e l p1 p2 Hn Hi Hc He H1 H2)
    as (g' & ets' & t & extra & pp & pc & Hrun & _ & Hnodes & Hedges & _ & _ & _ & Hint & Hsnap).
  exists g', ets'. split; [exact Hrun |]. split.
  - intro Hd. apply interior_lt in Hd. destruct (Hint Hd) as (_ & -> & ->).
    split; [exact Hnodes |]. split; [reflexivity |].
    split; [apply record_split_requested |].
    intros e' n Hne. apply record_split_requested_other. exact Hne.
  - intro Hd.
    assert (Hin : interior l pt = false).
    { destruct (interior l pt) eqn:E; trivial. apply interior_lt in E. contradiction. }
    destruct (Hsnap Hin) as (Ht & -> & ->).
    split; [exact Hnodes |]. split; [reflexivity |].
    exists t, (links g dir name t pp pc). split; [exact Hedges |].
    split; [| split; [| split; [| split]]].
    + unfold links. destruct (is_directed g); [| discriminate].
      destruct (String.eqb dir "both"); [discriminate |].
      destruct (String.eqb dir "in"); discriminate.
    + intros x Hx. unfold links, line_edge in Hx. unfold joins.
      destruct (is_directed g); [destruct (String.eqb dir "both");
                                 [| destruct (String.eqb dir "in")] |];
        simpl in Hx; intuition (subst; simpl; auto).
    + rewrite Ht. destruct (Qltb _ _); auto.
    + intro L. apply Qltb_lt in L. subst pt. rewrite Ht, L. reflexivity.
    + intro L. subst pt. rewrite Ht.
      destruct (Qltb (euclidian_distance (row_geometry row) p1)
                     (euclidian_distance (row_geometry row) p2)) eqn:E; trivial.
      apply Qltb_lt in E. exfalso. exact (Qlt_irrefl _ (Qlt_trans _ _ _ E L)).
Qed.

(** C5: the edges a turn of the loop adds between the new node and its
    intersection node [t], which is the intersection node [i] created in
    this turn when the point projects strictly inside the line of its
    closest edge, and otherwise the extremity of that edge that is closer
    to the point (the second one when they are as close): one edge from
    the node to [t] on an undirected graph whatever [merge_direction] is; on
    a directed graph both directions for ["both"], node to [t] only for
    ["in"], [t] to node only for ["out"]; the geometry of each is the
    segment from the coordinates of its first node to those of its
    second. *)
Theorem link_edges g eal li dir ets p row e l p1 p2 :
  let pt := row_geometry row in
  let name := get_new_node_unique_name g (row_index row) in
  let info := position_info g (row_cells row) pt in
  let g1 := set_nodes g (nodes g ++ [(name, info)]) in
  let i := get_new_node_unique_name g1 (String.append INTERSECTION_PREFIX (row_index row)) in
  let t := if interior l pt then i
           else if Qltb (euclidian_distance pt p1) (euclidian_distance pt p2)
                then e0 e else e1 e in
  has_node g name = false ->
  has_node g1 i = false ->
  edges_closed g = true ->
  closest_edge eal li p = Some (e, l) ->
  located g (e0 e) = Some p1 -> located g (e1 e) = Some p2 ->
  exists g' ets' pp pc,
    merge_point eal li dir ets (p, row) g = (g', Ok ets')
    /\ located g' name = Some pp /\ located g' t = Some pc
    /\ (is_directed g = false ->
        edges g' = edges g ++ [line_edge g name t 0 [pp; pc]])
    /\ (is_directed g = true -> dir = "both" ->
        edges g' = edges g ++ [line_edge g name t 0 [pp; pc]; line_edge g t name 0 [pc; pp]])
    /\ (is_directed g = true -> dir = "in" ->
        edges g' = edges g ++ [line_edge g name t 0 [pp; pc]])
    /\ (is_directed g = true -> dir = "out" ->
        edges g' = edges g ++ [line_edge g t name 0 [pc; pp]]).
Proof.
  intros pt name info g1 i t Hn Hi Hc He H1 H2.
  destruct (merge_point_run g eal li dir ets p row e l p1 p2 Hn Hi Hc He H1 H2)
    as (g' & ets' & t' & extra & pp & pc & Hrun & _ & _ & Hedges & _ & Lp & Lc & Hint & Hsnap).
  assert (Et : t' = t).
  { unfold t. destruct (interior l pt) eqn:Ei.
    - destruct (Hint Ei) as (E & _). exact E.
    - destruct (Hsnap Ei) as (E & _). exact E. }
  subst t'.
  exists g', ets', pp, pc. split; [exact Hrun |].
  split; [exact Lp |]. split; [exact Lc |].
  unfold links in Hedges.
  repeat split; intros D; try intros ->; rewrite D in Hedges; exact Hedges.
Qed.

(** C9: a point that snaps to an extremity and is at the same distance from
    both extremities of its closest edge gets the second one as its
    intersection node; nothing is created or recorded. *)
Theorem equidistant_snaps_to_second g ets e l idx pt p1 p2 :
  interior l pt = false ->
  located g (e0 e) = Some p1 -> located g (e1 e) = Some p2 ->
  (euclidian_distance pt p1 == euclidian_distance pt p2)%Q ->
  place_intersection ets e l idx pt g = (g, Ok (e1 e, ets)).
Proof.
  intros Hin H1 H2 Heq.
  rewrite (place_intersection_snap g ets e l idx pt p1 p2 Hin H1 H2).
  rewrite (Qltb_eq_false _ _ Heq). reflexivity.
Qed.

Lemma connect_other_is_out dir p i g :
  dir <> "both" -> dir <> "in" -> connect dir p i g = connect "out" p i g.
Proof.
  intros Nb Ni. unfold connect.
  apply String.eqb_neq in Nb. apply String.eqb_neq in Ni. rewrite Nb, Ni.
  reflexivity.
Qed.

Lemma bind_ext {S A B} (m : SE S A) (f f' : A -> SE S B) s :
  (forall a s', f a s' = f' a s') -> bind m f s = bind m f' s.
Proof.
  intro H. unfold bind. destruct (m s) as [s' [a | e]]; auto.
Qed.

Lemma merge_point_other_is_out eal li dir ets it g :
  dir <> "both" -> dir <> "in" ->
  merge_point eal li dir ets it g = merge_point eal li "out" ets it g.
Proof.
  intros Nb Ni. unfold merge_point.
  repeat (apply bind_ext; intros).
  unfold bind. rewrite (connect_other_is_out dir _ _ _ Nb Ni). reflexivity.
Qed.

(** C10: on a directed graph a [merge_direction] that is neither ["both"]
    nor ["in"] behaves as ["out"]: the turn of the loop ends without an
    exception, exactly as it does for ["out"], and adds the one edge from
    the intersection node [t] to the new node, where [t] is the
    intersection node [i] created in this turn when the point projects
    strictly inside the line of its closest edge, and otherwise the
    extremity of that edge that is closer to the point. *)
Theorem other_direction_is_out g eal li dir ets p row e l p1 p2 :
  let pt := row_geometry row in
  let name := get_new_node_unique_name g (row_index row) in
  let info := position_info g (row_cells row) pt in
  let g1 := set_nodes g (nodes g ++ [(name, info)]) in
  let i := get_new_node_unique_name g1 (String.append INTERSECTION_PREFIX (row_index row)) in
  let t := if interior l pt then i
           else if Qltb (euclidian_distance pt p1) (euclidian_distance pt p2)
                then e0 e else e1 e in
  has_node g name = false ->
  has_node g1 i = false ->
  edges_closed g = true ->
  closest_edge eal li p = Some (e, l) ->
  located g (e0 e) = Some p1 -> located g (e1 e) = Some p2 ->
  is_directed g = true -> dir <> "both" -> dir <> "in" ->
  exists g' ets' pp pc,
    merge_point eal li dir ets (p, row) g = (g', Ok ets')
    /\ merge_point eal li "out" ets (p, row) g = (g', Ok ets')
    /\ located g' name = Some pp /\ located g' t = Some pc
    /\ edges g' = edges g ++ [line_edge g t name 0 [pc; pp]].
Proof.
  intros pt name info g1 i t Hn Hi Hc He H1 H2 D Nb Ni.
  destruct (merge_point_run g eal li dir ets p row e l p1 p2 Hn Hi Hc He H1 H2)
    as (g' & ets' & t' & extra & pp & pc & Hrun & _ & _ & Hedges & _ & Lp & Lc & Hint & Hsnap).
  assert (Et : t' = t).
  { unfold t. destruct (interior l pt) eqn:Ei.
    - destruct (Hint Ei) as (E & _). exact E.
    - destruct (Hsnap Ei) as (E & _). exact E. }
  subst t'.
  exists g', ets', pp, pc. split; [exact Hrun |]. split.
  - rewrite <- Hrun. symmetry. apply merge_point_other_is_out; assumption.
  - split; [exact Lp |]. split; [exact Lc |].
    unfold links in Hedges. rewrite D in Hedges.
    apply String.eqb_neq in Nb. apply String.eqb_neq in Ni.
    rewrite Nb, Ni in Hedges. exact Hedges.
Qed.
End PointClaims.

(** ** The union step *)

Lemma node_get_add_node_same R n c :
  node_get (add_node R n c) n =
  Some (match node_get R n with Some old => attr_update old c | None => c end).
Proof.
  unfold add_node. destruct (node_get R n) as [old |] eqn:E.
  - unfold node_get. simpl. apply dict_get_set_same.
  - rewrite node_get_grow, E. simpl. rewrite String.eqb_refl. reflexivity.
Qed.

Lemma node_get_add_node_other R m c n :
  m <> n -> node_get (add_node R m c) n = node_get R n.
Proof.
  intro N. unfold add_node. destruct (node_get R m) as [old |] eqn:E.
  - unfold node_get. simpl. apply dict_get_set_other. exact N.
  - rewrite node_get_grow. destruct (node_get R n); trivial.
    simpl. apply String.eqb_neq in N. rewrite N. reflexivity.
Qed.

Lemma dict_get_absent {V} (ns : list (Name * V)) n :
  existsb (String.eqb n) (map fst ns) = false -> dict_get String.eqb ns n = None.
Proof.
  induction ns as [| [m c] t IH]; simpl; trivial.
  intro H. apply orb_false_iff in H. destruct H as [H1 H2].
  rewrite String.eqb_sym, H1. auto.
Qed.

Lemma add_nodes_from_absent ns : forall R n,
  dict_get String.eqb ns n = None ->
  node_get (add_nodes_from R ns) n = node_get R n.
Proof.
  induction ns as [| [m c] t IH]; intros R n H; simpl in *; trivial.
  destruct (String.eqb_spec m n) as [E | N]; [discriminate |].
  unfold add_nodes_from in *. simpl. rewrite (IH _ _ H).
  apply node_get_add_node_other. exact N.
Qed.

(** The attributes of a node after [add_nodes_from]: those it had, updated
    with those listed for it. *)
Lemma add_nodes_from_present ns : forall R n b,
  unique (map fst ns) = true ->
  dict_get String.eqb ns n = Some b ->
  node_get (add_nodes_from R ns) n =
  Some (match node_get R n with Some old => attr_update old b | None => b end).
Proof.
  induction ns as [| [m c] t IH]; intros R n b U H; simpl in *; [discriminate |].
  apply andb_true_iff in U. destruct U as [U1 U2]. apply negb_true_iff in U1.
  unfold add_nodes_from in *. simpl.
  destruct (String.eqb_spec m n) as [E | N].
  - inversion H. subst. 
    change (node_get (add_nodes_from (add_node R n b) t) n = 
            Some match node_get R n with Some old => attr_update old b | None => b end).
    rewrite add_nodes_from_absent by (apply dict_get_absent; exact U1).
    apply node_get_add_node_same.
  - rewrite (IH _ _ _ U2 H). rewrite node_get_add_node_other by exact N. reflexivity.
Qed.

Lemma node_get_ensure_node R m n a :
  node_get R n = Some a -> node_get (ensure_node R m) n = Some a.
Proof.
  intro H. unfold ensure_node. destruct (has_node R m); trivial.
  rewrite node_get_grow, H. reflexivity.
Qed.

Lemma node_get_put_edge R u v key attr n : node_get (put_edge R u v key attr) n = node_get R n.
Proof.
  unfold put_edge. destruct (dict_get _ _ _); reflexivity.
Qed.

Lemma add_edges_from_keeps_node es : forall R n a,
  node_get R n = Some a -> node_get (add_edges_from R es) n = Some a.
Proof.
  induction es as [| [k c] t IH]; intros R n a H; simpl; trivial.
  unfold add_edges_from in *. simpl. apply IH.
  unfold add_edge_keyed. rewrite node_get_put_edge.
  apply node_get_ensure_node, node_get_ensure_node. exact H.
Qed.

Lemma attr_update_absent b : forall a k,
  attr_get b k = None -> attr_get (attr_update a b) k = attr_get a k.
Proof.
  unfold attr_update, dict_update, attr_get.
  induction b as [| [k' v'] t IH]; intros a k Hk; simpl in *; trivial.
  destruct (String.eqb_spec k' k) as [E | N]; [discriminate |].
  rewrite (IH _ _ Hk). apply dict_get_set_other. exact N.
Qed.

Lemma attr_update_present b : forall a k v,
  unique (map fst b) = true ->
  attr_get b k = Some v -> attr_get (attr_update a b) k = Some v.
Proof.
  induction b as [| [k' v'] t IH]; intros a k v U Hk; [discriminate |].
  simpl in U. apply andb_true_iff in U. destruct U as [U1 U2]. apply negb_true_iff in U1.
  unfold attr_get in Hk. simpl in Hk.
  change (attr_update a ((k', v') :: t)) with (attr_update (dict_set String.eqb a k' v') t).
  destruct (String.eqb_spec k' k) as [E | N].
  - inversion Hk. subst.
    rewrite attr_update_absent by (apply dict_get_absent; exact U1).
    apply dict_get_set_same.
  - apply IH; assumption.
Qed.

(** C1, as the code has it: a node present in both graphs carries, after the
    union step, the attributes it has in the first graph updated with those
    it has in the second: an attribute the second graph defines takes its
    value there, the others keep the value of the first. *)
Theorem compose_node_attributes (G H : Graph) (n : Name) (a b : Attrs) :
  unique (map fst (nodes G)) = true ->
  unique (map fst (nodes H)) = true ->
  unique (map fst b) = true ->
  node_get G n = Some a ->
  node_get H n = Some b ->
  node_get (compose_graphs G H) n = Some (attr_update a b)
  /\ (forall k v, attr_get b k = Some v -> attr_get (attr_update a b) k = Some v)
  /\ (forall k, attr_get b k = None -> attr_get (attr_update a b) k = attr_get a k).
Proof.
  intros UG UH Ub Ha Hb. split; [| split].
  - unfold compose_graphs.
    apply add_edges_from_keeps_node, add_edges_from_keeps_node.
    rewrite (add_nodes_from_present (nodes H) _ n b UH Hb).
    rewrite (add_nodes_from_present (nodes G) _ n a UG Ha). reflexivity.
  - intros k v Hk. apply attr_update_present; assumption.
  - intros k Hk. apply attr_update_absent. exact Hk.
Qed.

(** ** The splicer *)

Lemma nth_error_last {A} (l : list A) (d : A) :
  l <> [] -> nth_error l (List.length l - 1) = Some (last l d).
Proof.
  induction l as [| a t IH]; intro H; [contradiction |].
  destruct t as [| b t']; [reflexivity |].
  replace (List.length (a :: b :: t') - 1) with (S (List.length (b :: t') - 1)) by (simpl; lia).
  cbn [nth_error]. rewrite IH by discriminate. reflexivity.
Qed.

Lemma add_triple_keys g t :
  is_directed (add_triple g t) = is_directed g
  /\ is_multigraph (add_triple g t) = is_multigraph g
  /\ edges_geometry_key (add_triple g t) = edges_geometry_key g
  /\ x_key (add_triple g t) = x_key g /\ y_key (add_triple g t) = y_key g.
Proof.
  unfold add_triple, add_edge, put_edge, ensure_node.
  destruct (has_node g (fst (fst t))); simpl;
    match goal with |- context [has_node ?G ?N] => destruct (has_node G N) end; simpl;
    match goal with |- context [dict_get ?a ?b ?c] => destruct (dict_get a b c) end;
    repeat split.
Qed.

Section SplicerRun.
Context {C : Collaborators}.

Lemma for_each_mids : forall names lines pre_n pre_l g,
  List.length pre_l = S (List.length pre_n) ->
  List.length names - 1 <= List.length lines ->
  for_each (seq (List.length pre_n) (List.length names - 1))
           (add_intermediary (pre_n ++ names) (pre_l ++ lines)) tt g
  = (fold_left add_triple (mids names lines) g, Ok tt).
Proof.
  induction names as [| a names' IH]; intros lines pre_n pre_l g Hl Hle; [reflexivity |].
  destruct names' as [| b rest]; [reflexivity |].
  destruct lines as [| l ls]; [simpl in Hle; lia |].
  replace (List.length (a :: b :: rest) - 1) with (S (List.length (b :: rest) - 1))
    by (simpl; lia).
  cbn [seq for_each mids fold_left].
  unfold bind at 1. unfold add_intermediary at 1.
  assert (E1 : nth_error (pre_l ++ l :: ls) (List.length pre_n + 1) = Some l).
  { rewrite nth_error_app2 by lia. replace (List.length pre_n + 1 - List.length pre_l) with 0 by lia.
    reflexivity. }
  assert (E2 : nth_error (pre_n ++ a :: b :: rest) (List.length pre_n) = Some a).
  { rewrite nth_error_app2 by lia. rewrite Nat.sub_diag. reflexivity. }
  assert (E3 : nth_error (pre_n ++ a :: b :: rest) (List.length pre_n + 1) = Some b).
  { rewrite nth_error_app2 by lia.
    replace (List.length pre_n + 1 - List.length pre_n) with 1 by lia. reflexivity. }
  rewrite E1, E2, E3. unfold lookup, ret, bind, add_line_edge, mutate.
  specialize (IH ls (pre_n ++ [a]) (pre_l ++ [l])
                 (add_edge g a b [(edges_geometry_key g, VLine l)])).
  rewrite !length_app in IH. simpl in IH. rewrite <- !app_assoc in IH. simpl in IH.
  replace (List.length pre_n + 1) with (S (List.length pre_n)) in IH by lia.
  rewrite Nat.sub_0_r in IH.
  replace (List.length (b :: rest) - 1) with (List.length rest) by (simpl; lia).
  rewrite IH; [reflexivity | lia | simpl in Hle; lia].
Qed.

Lemma cut_rest_length : forall ds r prev, List.length (cut_rest r prev ds) = S (List.length ds).
Proof.
  induction ds as [| d ds IH]; intros r prev; simpl; [reflexivity |].
  rewrite IH. reflexivity.
Qed.

Lemma sub_segments_length l ds : ds <> [] -> List.length (sub_segments l ds) = S (List.length ds).
Proof.
  destruct ds as [| d ds]; [contradiction |]. intros _. simpl.
  rewrite cut_rest_length. reflexivity.
Qed.

(** What the body of the loop over the edges to split does: the edge is
    removed when present, then the edges of [code_triples] are added in
    order. *)
Lemma splice_edge_run g eal e reqs l :
  dict_get edge_key_eqb eal e = Some (VLine l) ->
  reqs <> [] ->
  let items := sorted_by_distance reqs in
  let g0 := if has_edge g e then remove_edge g e else g in
  splice_edge eal tt (e, reqs) g =
  (fold_left add_triple
             (code_triples (e0 e) (map fst items) (e1 e)
                           (sub_segments l (map snd items))) g0,
   Ok tt).
Proof.
  intros Hl Hr items g0. unfold splice_edge. cbn [fst snd].
  assert (Hpos : (0 <? List.length reqs) = true) by (apply length_pos_nonempty; exact Hr).
  rewrite Hpos. rewrite Hl. unfold lookup at 1. unfold bind at 1. unfold ret at 1.
  unfold bind at 1. unfold as_line at 1. unfold ret at 1.
  unfold bind at 1. unfold self at 1. unfold bind at 1.
  assert (E0 : (if has_edge g e then mutate (fun g1 => remove_edge g1 e) else ret tt) g
               = (g0, Ok tt)).
  { unfold g0. destruct (has_edge g e); reflexivity. }
  rewrite E0. fold items.
  destruct items as [| it1 its] eqn:Ei.
  { exfalso. unfold items in Ei. destruct reqs as [| r rs]; [contradiction |].
    simpl in Ei. destruct (sorted_by_distance rs) as [| y t]; simpl in Ei;
      [discriminate | destruct (Qltb (snd y) (snd r)); discriminate]. }
  cbn [map]. unfold cut_initial_line. cbn [nth_error lookup tl]. unfold bind at 1.
  unfold ret at 1. unfold bind at 1. unfold ret at 1.
  cbn [nth_error lookup]. unfold bind at 1. unfold ret at 1.
  unfold bind at 1. unfold ret at 1.
  unfold bind at 1. unfold add_line_edge at 1. unfold mutate at 1.
  match goal with
  | |- context [nth_error (?a :: ?b) (List.length _ - 1)] => set (l0 := a); set (ltl := b)
  end.
  rewrite (nth_error_last (l0 :: ltl) l0) by discriminate.
  unfold lookup at 1. unfold bind at 1. unfold ret at 1.
  rewrite (nth_error_last (fst it1 :: map fst its) (fst it1)) by discriminate.
  unfold lookup at 1. unfold bind at 1. unfold ret at 1.
  unfold bind at 1. unfold add_line_edge at 1. unfold mutate at 1.
  pose proof (for_each_mids (fst it1 :: map fst its) ltl [] [l0]) as F.
  cbn [List.length app] in F. rewrite F.
  - reflexivity.
  - reflexivity.
  - unfold ltl. rewrite cut_rest_length. simpl. rewrite !length_map. lia.
Qed.
End SplicerRun.

(** ** Adding a list of edges *)

Lemma nodes_add_edge g a b attr :
  has_node g a = true -> has_node g b = true -> nodes (add_edge g a b attr) = nodes g.
Proof.
  intros Ha Hb. unfold add_edge.
  rewrite (ensure_node_present g a Ha), (ensure_node_present g b Hb).
  unfold put_edge. destruct (dict_get _ _ _); reflexivity.
Qed.

Lemma has_node_same_nodes g g' n : nodes g' = nodes g -> has_node g' n = has_node g n.
Proof. intro H. unfold has_node. rewrite H. reflexivity. Qed.

Lemma fold_add_nodes : forall ts g,
  Forall (ends_in g) ts -> nodes (fold_left add_triple ts g) = nodes g.
Proof.
  induction ts as [| t rest IH]; intros g H; [reflexivity |].
  inversion H as [| t' rest' [Ha Hb] Hrest]; subst. simpl.
  assert (E : nodes (add_triple g t) = nodes g) by (apply nodes_add_edge; assumption).
  rewrite IH; [exact E |].
  eapply Forall_impl; [| exact Hrest]. intros s [H1 H2].
  split; rewrite (has_node_same_nodes g _ _ E); assumption.
Qed.

Lemma fresh_pairs_snoc g a b key attr : forall rest,
  fresh_pairs g rest = true ->
  forallb (fun s => negb (same_pair (is_directed g) a b (fst (fst s)) (snd (fst s)))) rest = true ->
  fresh_pairs (set_edges g (edges g ++ [(mkEdge a b key, attr)])) rest = true.
Proof.
  induction rest as [| s rest IH]; intros Hf Hd; [reflexivity |].
  simpl in Hf, Hd. apply andb_true_iff in Hf. destruct Hf as [Hf Hf3].
  apply andb_true_iff in Hf. destruct Hf as [Hf1 Hf2].
  apply andb_true_iff in Hd. destruct Hd as [Hd1 Hd2].
  cbn [fresh_pairs]. rewrite no_edge_between_snoc, Hf1, Hd1. cbn [andb].
  change (is_directed (set_edges g (edges g ++ [(mkEdge a b key, attr)]))) with (is_directed g).
  rewrite Hf2. cbn [andb]. apply IH; assumption.
Qed.

(** Edges that are new to the graph and distinct from one another are
    appended in order, each with key [0]. *)
Lemma fold_add_new : forall ts g,
  Forall (ends_in g) ts ->
  fresh_pairs g ts = true ->
  fold_left add_triple ts g =
  set_edges g (edges g ++ map (fun t => line_edge g (fst (fst t)) (snd (fst t)) 0 (snd t)) ts).
Proof.
  induction ts as [| t rest IH]; intros g He Hf.
  - simpl. rewrite app_nil_r. destruct g; reflexivity.
  - inversion He as [| t' rest' [Ha Hb] Hrest]; subst.
    simpl in Hf. apply andb_true_iff in Hf. destruct Hf as [Hf Hf3].
    apply andb_true_iff in Hf. destruct Hf as [Hf1 Hf2].
    cbn [fold_left]. unfold add_triple at 2.
    rewrite (add_edge_new g _ _ _ Ha Hb Hf1).
    rewrite IH.
    + unfold set_edges, line_edge. cbn. rewrite <- app_assoc. reflexivity.
    + eapply Forall_impl; [| exact Hrest]. intros s Hs. exact Hs.
    + apply fresh_pairs_snoc; assumption.
Qed.

(** ** The chain, and the order the edges are added in *)

Lemma last_default {A} (l : list A) (d d' : A) : l <> [] -> last l d = last l d'.
Proof.
  induction l as [| a t IH]; intro H; [contradiction |].
  destruct t as [| b t']; [reflexivity |].
  change (last (a :: b :: t') d) with (last (b :: t') d).
  change (last (a :: b :: t') d') with (last (b :: t') d').
  apply IH. discriminate.
Qed.

Lemma chain_as_mids : forall ns n1 l0 ls v,
  List.length ls = S (List.length ns) ->
  chain_triples n1 ns v ls =
  mids (n1 :: ns) ls ++ [(last (n1 :: ns) n1, v, last (l0 :: ls) l0)].
Proof.
  induction ns as [| n2 ns' IH]; intros n1 l0 ls v Hl.
  - destruct ls as [| l1 [| l2 ls']]; try discriminate. reflexivity.
  - destruct ls as [| l1 ls']; [discriminate |].
    cbn [chain_triples mids]. rewrite (IH n2 l1 ls' v) by (simpl in Hl; lia).
    cbn [app].
    change (last (n1 :: n2 :: ns') n1) with (last (n2 :: ns') n1).
    change (last (l0 :: l1 :: ls') l0) with (last (l1 :: ls') l0).
    rewrite (last_default (n2 :: ns') n1 n2) by discriminate.
    rewrite (last_default (l1 :: ls') l0 l1) by discriminate.
    reflexivity.
Qed.

(** The edges the splicer adds are those of the chain. *)
Lemma code_triples_chain u names v lines :
  names <> [] ->
  List.length lines = S (List.length names) ->
  Permutation (code_triples u names v lines) (chain_triples u names v lines)
  /\ List.length (chain_triples u names v lines) = S (List.length names).
Proof.
  intros Hn Hl. destruct names as [| n1 ns]; [contradiction |].
  destruct lines as [| l0 ls]; [discriminate |].
  cbn [code_triples chain_triples].
  rewrite (chain_as_mids ns n1 l0 ls v) by (simpl in Hl; lia).
  split.
  - apply perm_skip. apply Permutation_cons_append.
  - cbn [List.length]. rewrite length_app. cbn [List.length].
    assert (M : forall (names : list Name) (lines : list LineString),
               List.length names - 1 <= List.length lines ->
               List.length (mids names lines) = List.length names - 1).
    { induction names as [| a t IHn]; intros lines H; [reflexivity |].
      destruct t as [| b t']; [destruct lines; reflexivity |].
      destruct lines as [| l lines']; [simpl in H; lia |].
      change (mids (a :: b :: t') (l :: lines')) with ((a, b, l) :: mids (b :: t') lines').
      change (List.length ((a, b, l) :: mids (b :: t') lines'))
        with (S (List.length (mids (b :: t') lines'))).
      rewrite IHn by (simpl in *; lia). simpl. lia. }
    rewrite M by (simpl in *; lia). simpl. lia.
Qed.

(** ** Sorting by distance *)

Section Sorting.
Context {C : Collaborators}.

Lemma insert_by_distance_perm x l : Permutation (insert_by_distance x l) (x :: l).
Proof.
  induction l as [| y t IH]; simpl; [reflexivity |].
  destruct (Qltb (snd y) (snd x)); [| reflexivity].
  rewrite IH. apply perm_swap.
Qed.

Lemma sorted_by_distance_perm l : Permutation (sorted_by_distance l) l.
Proof.
  induction l as [| x t IH]; simpl; [reflexivity |].
  rewrite insert_by_distance_perm. apply perm_skip. exact IH.
Qed.

Lemma insert_by_distance_sorted x l :
  Sorted by_distance l -> Sorted by_distance (insert_by_distance x l).
Proof.
  induction l as [| y t IH]; intro H; simpl.
  - repeat constructor.
  - inversion H as [| y' t' Ht Hy]; subst.
    destruct (Qltb (snd y) (snd x)) eqn:E.
    + apply Qltb_lt in E. constructor; [apply IH; exact Ht |].
      destruct t as [| z t'']; simpl.
      * constructor. unfold by_distance. apply Qlt_le_weak. exact E.
      * destruct (Qltb (snd z) (snd x)).
        -- constructor. inversion Hy; subst. assumption.
        -- constructor. unfold by_distance. apply Qlt_le_weak. exact E.
    + constructor; [exact H |]. constructor. unfold by_distance.
      destruct (Qlt_le_dec (snd y) (snd x)) as [L | L]; [| exact L].
      apply Qltb_lt in L. congruence.
Qed.

Lemma sorted_by_distance_sorted l : Sorted by_distance (sorted_by_distance l).
Proof.
  induction l as [| x t IH]; simpl; [constructor |].
  apply insert_by_distance_sorted. exact IH.
Qed.
End Sorting.

(** ** The edges of the chain are new to the graph *)

Lemma same_pair_inv d s t a b :
  same_pair d s t a b = true -> (s = a /\ t = b) \/ (d = false /\ s = b /\ t = a).
Proof.
  unfold same_pair. intro H. apply orb_true_iff in H. destruct H as [H | H].
  - apply andb_true_iff in H. destruct H as [H1 H2].
    apply String.eqb_eq in H1. apply String.eqb_eq in H2. auto.
  - apply andb_true_iff in H. destruct H as [H H2].
    apply andb_true_iff in H. destruct H as [H0 H1].
    apply String.eqb_eq in H1. apply String.eqb_eq in H2.
    destruct d; [discriminate |]. auto.
Qed.

Lemma mem_In n l : mem n l = true <-> In n l.
Proof.
  unfold mem. rewrite existsb_exists. split.
  - intros [x [Hx E]]. apply String.eqb_eq in E. subst. exact Hx.
  - intro H. exists n. split; [exact H | apply String.eqb_refl].
Qed.

Lemma mem_not_In n l : mem n l = false <-> ~ In n l.
Proof.
  rewrite <- mem_In. destruct (mem n l); split; congruence.
Qed.

Lemma isolated_no_edge g names chain a b :
  isolated g names chain = true ->
  (In a names /\ In b chain) \/ (In b names /\ In a chain) ->
  no_edge_between g a b = true.
Proof.
  unfold isolated, no_edge_between. intros Hi Hab. rewrite negb_true_iff.
  induction (edges g) as [| x t IH]; [reflexivity |].
  simpl in Hi. apply andb_true_iff in Hi. destruct Hi as [Hx Ht].
  simpl. rewrite (IH Ht), orb_false_r.
  destruct (same_pair (is_directed g) (e0 (fst x)) (e1 (fst x)) a b) eqn:E; [| reflexivity].
  exfalso. apply negb_true_iff in Hx. apply orb_false_iff in Hx. destruct Hx as [X1 X2].
  apply same_pair_inv in E.
  assert (M : forall n l, In n l -> mem n l = true) by (intros; apply mem_In; assumption).
  destruct E as [[E0 E1] | [_ [E0 E1]]]; rewrite E0, E1 in X1, X2;
    destruct Hab as [[Ha Hb] | [Hb Ha]];
    try (rewrite (M _ _ Ha), (M _ _ Hb) in X1; discriminate);
    try (rewrite (M _ _ Ha), (M _ _ Hb) in X2; discriminate).
Qed.

Lemma isolated_remove g e names chain :
  isolated g names chain = true -> isolated (remove_edge g e) names chain = true.
Proof.
  unfold isolated, remove_edge. simpl. intro H.
  induction (edges g) as [| x t IH]; [reflexivity |].
  simpl in H. apply andb_true_iff in H. destruct H as [Hx Ht].
  simpl. destruct (negb (same_edge (is_directed g) (fst x) e)); simpl; auto.
  rewrite Hx. auto.
Qed.

Lemma isolated_sub g names chain chain' :
  isolated g names chain = true ->
  (forall n, In n chain' -> In n chain) ->
  isolated g names chain' = true.
Proof.
  unfold isolated. rewrite !forallb_forall. intros Hi Hsub x Hx.
  specialize (Hi x Hx). apply negb_true_iff in Hi. apply negb_true_iff.
  apply orb_false_iff in Hi. destruct Hi as [I1 I2].
  assert (M : forall n, mem n chain' = true -> mem n chain = true).
  { intros n Hn. apply mem_In. apply Hsub. apply mem_In. exact Hn. }
  apply orb_false_iff. split.
  - destruct (mem (e0 (fst x)) names); [| reflexivity]. simpl in *.
    destruct (mem (e1 (fst x)) chain') eqn:E; [| reflexivity].
    rewrite (M _ E) in I1. discriminate.
  - destruct (mem (e1 (fst x)) names); [| reflexivity]. simpl in *.
    destruct (mem (e0 (fst x)) chain') eqn:E; [| reflexivity].
    rewrite (M _ E) in I2. discriminate.
Qed.

Lemma filter_none {A} (p : A -> bool) (l : list A) :
  existsb p l = false -> filter (fun x => negb (p x)) l = l.
Proof.
  induction l as [| x t IH]; intro H; [reflexivity |].
  simpl in H. apply orb_false_iff in H. destruct H as [H1 H2].
  simpl. rewrite H1. simpl. rewrite IH; trivial.
Qed.

Lemma mids_components : forall ns ls t,
  In t (mids ns ls) -> In (fst (fst t)) ns /\ In (snd (fst t)) ns.
Proof.
  induction ns as [| a ns' IH]; intros ls t H; [contradiction |].
  destruct ns' as [| b rest]; [destruct ls; contradiction |].
  destruct ls as [| l ls']; [contradiction |].
  change (mids (a :: b :: rest) (l :: ls')) with ((a, b, l) :: mids (b :: rest) ls') in H.
  destruct H as [<- | H].
  - simpl. auto.
  - destruct (IH ls' t H) as [H1 H2]. split; right; assumption.
Qed.

(** A pair with a node foreign to a list of edges is none of them. *)
Lemma foreign_pair d a b (ts : list Triple) :
  (forall t, In t ts -> fst (fst t) <> a /\ snd (fst t) <> a)
  \/ (forall t, In t ts -> fst (fst t) <> b /\ snd (fst t) <> b) ->
  forallb (fun s => negb (same_pair d a b (fst (fst s)) (snd (fst s)))) ts = true.
Proof.
  intro H. apply forallb_forall. intros s Hs. apply negb_true_iff.
  destruct (same_pair d a b (fst (fst s)) (snd (fst s))) eqn:E; [| reflexivity].
  exfalso. apply same_pair_inv in E.
  destruct H as [H | H]; destruct (H s Hs) as [N1 N2];
    destruct E as [[E0 E1] | [_ [E0 E1]]]; congruence.
Qed.

Lemma unique_NoDup l : unique l = true -> NoDup l.
Proof.
  induction l as [| x t IH]; intro H; [constructor |].
  simpl in H. apply andb_true_iff in H. destruct H as [H1 H2].
  constructor; [| auto]. apply negb_true_iff in H1. apply mem_not_In. exact H1.
Qed.

Lemma fresh_pairs_mids g names : forall ns ls,
  isolated g names names = true ->
  NoDup ns -> (forall n, In n ns -> In n names) ->
  fresh_pairs g (mids ns ls) = true.
Proof.
  intros ns ls Hi. revert ls.
  induction ns as [| a ns' IH]; intros ls Hu Hsub; [reflexivity |].
  destruct ns' as [| b rest]; [destruct ls; reflexivity |].
  destruct ls as [| l ls']; [reflexivity |].
  change (mids (a :: b :: rest) (l :: ls')) with ((a, b, l) :: mids (b :: rest) ls').
  inversion Hu as [| a' t' Ha Hu']; subst.
  cbn [fresh_pairs fst snd].
  rewrite (isolated_no_edge g names names a b Hi)
    by (left; split; apply Hsub; simpl; auto).
  rewrite foreign_pair.
  - apply IH; [exact Hu' |]. intros n Hn. apply Hsub. right. exact Hn.
  - left. intros t Ht. destruct (mids_components _ _ _ Ht) as [H1 H2].
    split; intro E; rewrite E in *; contradiction.
Qed.

Lemma last_In {A} (l : list A) (d : A) : l <> [] -> In (last l d) l.
Proof.
  induction l as [| a t IH]; intro H; [contradiction |].
  destruct t as [| b t']; [left; reflexivity |].
  right. apply IH. discriminate.
Qed.

Lemma last_is_head (n1 : Name) (ns : list Name) :
  NoDup (n1 :: ns) -> last (n1 :: ns) n1 = n1 -> ns = [].
Proof.
  intros Hu E. destruct ns as [| n2 ns']; [reflexivity |].
  exfalso. inversion Hu as [| a t Hn _]; subst. apply Hn.
  change (last (n1 :: n2 :: ns') n1) with (last (n2 :: ns') n1) in E.
  rewrite <- E. apply last_In. discriminate.
Qed.

(** The edges the splicer adds are new and distinct, unless the edge is a
    self-loop with one intersection node on an undirected graph. *)
Lemma fresh_pairs_code g u v names lines :
  NoDup names -> ~ In u names -> ~ In v names ->
  isolated g names (u :: v :: names) = true ->
  ~ (is_directed g = false /\ u = v /\ List.length names = 1) ->
  fresh_pairs g (code_triples u names v lines) = true.
Proof.
  intros Hu Hnu Hnv Hi Hx.
  destruct names as [| n1 ns]; [reflexivity |].
  destruct lines as [| l0 ls]; [reflexivity |].
  assert (Hin : isolated g (n1 :: ns) (n1 :: ns) = true).
  { apply (isolated_sub g (n1 :: ns) (u :: v :: n1 :: ns)); [exact Hi |].
    intros n Hn. right. right. exact Hn. }
  assert (Hlast : In (last (n1 :: ns) n1) (n1 :: ns)) by (apply last_In; discriminate).
  cbn [code_triples fresh_pairs fst snd forallb].
  rewrite (isolated_no_edge g _ _ u n1 Hi) by (right; split; simpl; auto).
  rewrite (isolated_no_edge g _ _ (last (n1 :: ns) n1) v Hi)
    by (left; split; [exact Hlast | simpl; auto]).
  rewrite (fresh_pairs_mids g (n1 :: ns) (n1 :: ns) ls Hin Hu) by auto.
  rewrite (foreign_pair (is_directed g) u n1 (mids (n1 :: ns) ls)).
  2:{ left. intros t Ht. destruct (mids_components _ _ _ Ht) as [H1 H2].
      split; intro E; rewrite E in *; contradiction. }
  rewrite (foreign_pair (is_directed g) (last (n1 :: ns) n1) v (mids (n1 :: ns) ls)).
  2:{ right. intros t Ht. destruct (mids_components _ _ _ Ht) as [H1 H2].
      split; intro E; rewrite E in *; contradiction. }
  cbn [andb]. rewrite !andb_true_r. apply negb_true_iff.
  destruct (same_pair (is_directed g) u n1 (last (n1 :: ns) n1) v) eqn:E; [| reflexivity].
  exfalso. apply same_pair_inv in E. destruct E as [[E0 E1] | [D [E0 E1]]].
  - apply Hnu. rewrite E0. exact Hlast.
  - apply Hx. split; [exact D |]. split; [exact E0 |].
    symmetry in E1. rewrite (last_is_head n1 ns Hu E1). reflexivity.
Qed.

Lemma keydict_snoc g k attr a b :
  keydict (set_edges g (edges g ++ [(k, attr)])) a b =
  keydict g a b ++ (if same_pair (is_directed g) (e0 k) (e1 k) a b then [ekey k] else []).
Proof.
  unfold keydict. simpl. rewrite filter_app, map_app. simpl.
  destruct (same_pair (is_directed g) (e0 k) (e1 k) a b); reflexivity.
Qed.

Lemma code_components u names v lines t :
  In t (code_triples u names v lines) ->
  In (fst (fst t)) (u :: v :: names) /\ In (snd (fst t)) (u :: v :: names).
Proof.
  destruct names as [| n1 ns]; [contradiction |].
  destruct lines as [| l0 ls]; [contradiction |].
  assert (Hlast : In (last (n1 :: ns) n1) (n1 :: ns)) by (apply last_In; discriminate).
  cbn [code_triples]. intros [<- | [<- | H]]; cbn [fst snd].
  - split; simpl; auto.
  - split; [right; right; exact Hlast | simpl; auto].
  - destruct (mids_components _ _ _ H) as [H1 H2]. split; right; right; assumption.
Qed.

(** The edges added for one split edge, whatever the kind of graph: none is
    merged into an edge already there. *)
Lemma fold_code_edges g u v names lines :
  NoDup names -> ~ In u names -> ~ In v names ->
  (forall n, In n (u :: v :: names) -> has_node g n = true) ->
  isolated g names (u :: v :: names) = true ->
  ~ (is_directed g = false /\ is_multigraph g = false /\ u = v /\ List.length names = 1) ->
  List.length lines = S (List.length names) ->
  exists new,
    fold_left add_triple (code_triples u names v lines) g = set_edges g (edges g ++ new)
    /\ map strip new = map (triple_attrs g) (code_triples u names v lines).
Proof.
  intros Hu Hnu Hnv Hnodes Hi Hx Hl.
  assert (Hends : Forall (ends_in g) (code_triples u names v lines)).
  { apply Forall_forall. intros t Ht. destruct (code_components _ _ _ _ _ Ht) as [H1 H2].
    split; apply Hnodes; assumption. }
  destruct (is_directed g) eqn:D.
  - (* directed *)
    eexists. split.
    + apply fold_add_new; [exact Hends |]. apply fresh_pairs_code; try assumption.
      rewrite D. intros [X _]. discriminate.
    + rewrite map_map. reflexivity.
  - destruct (String.eqb_spec u v) as [Euv | Nuv].
    2:{ eexists. split.
        + apply fold_add_new; [exact Hends |]. apply fresh_pairs_code; try assumption.
          intros [_ [X _]]. contradiction.
        + rewrite map_map. reflexivity. }
    destruct (Nat.eq_dec (List.length names) 1) as [E1 | N1].
    2:{ eexists. split.
        + apply fold_add_new; [exact Hends |]. apply fresh_pairs_code; try assumption.
          intros [_ [_ X]]. contradiction.
        + rewrite map_map. reflexivity. }
    (* a self-loop cut once on an undirected graph: a multigraph *)
    destruct (is_multigraph g) eqn:Mg.
    2:{ exfalso. apply Hx. auto. }
    destruct names as [| n1 [| n2 ns]]; try discriminate.
    destruct lines as [| l0 [| l1 [| l2 ls]]]; try discriminate.
    subst v. cbn [code_triples mids last fold_left].
    assert (Hn1 : has_node g n1 = true) by (apply Hnodes; simpl; auto).
    assert (Hnu' : has_node g u = true) by (apply Hnodes; simpl; auto).
    assert (N0 : no_edge_between g u n1 = true).
    { apply (isolated_no_edge g [n1] [u; u; n1]); [exact Hi |]. right. simpl. auto. }
    assert (N0' : no_edge_between g n1 u = true).
    { apply (isolated_no_edge g [n1] [u; u; n1]); [exact Hi |]. left. simpl. auto. }
    unfold add_triple. cbn [fst snd]. rewrite (add_edge_new g u n1 _ Hnu' Hn1 N0).
    unfold add_edge.
    set (a0 := [(edges_geometry_key g, VLine l0)]).
    match goal with
    | |- context [ensure_node (ensure_node ?G _) _] => set (g1 := G)
    end.
    assert (H1 : has_node g1 n1 = true) by exact Hn1.
    assert (H2 : has_node g1 u = true) by exact Hnu'.
    rewrite (ensure_node_present g1 n1 H1), (ensure_node_present g1 u H2).
    change (is_multigraph g1) with (is_multigraph g). rewrite Mg.
    assert (K : new_edge_key g1 n1 u = 1).
    { unfold new_edge_key, g1. rewrite keydict_snoc, (no_edge_keydict g n1 u N0'), D.
      cbn [e0 e1 ekey app]. unfold same_pair. rewrite !String.eqb_refl.
      cbn [negb andb]. rewrite orb_true_r. reflexivity. }
    rewrite K. unfold put_edge.
    change (is_directed g1) with (is_directed g). rewrite D.
    assert (G : dict_get (same_edge false) (edges g1) (mkEdge n1 u 1) = None).
    { unfold g1. cbn [edges set_edges]. rewrite dict_get_app.
      rewrite <- D. rewrite (no_edge_dict_get g n1 u 1 N0'). cbn [dict_get].
      unfold same_edge. cbn [e0 e1 ekey]. rewrite andb_false_r. reflexivity. }
    rewrite G.
    exists [(mkEdge u n1 0, a0); (mkEdge n1 u 1, [(edges_geometry_key g, VLine l1)])].
    split.
    + unfold g1, set_edges. cbn. rewrite <- app_assoc. reflexivity.
    + reflexivity.
Qed.

(** ** One turn of the loop over the edges to split *)

Lemma isolated_ext g names chain names' chain' :
  isolated g names chain = true ->
  (forall n, In n names' -> In n names) ->
  (forall n, In n chain' -> In n chain) ->
  isolated g names' chain' = true.
Proof.
  unfold isolated. rewrite !forallb_forall. intros Hi Hn Hc x Hx.
  specialize (Hi x Hx). apply negb_true_iff in Hi. apply negb_true_iff.
  apply orb_false_iff in Hi. destruct Hi as [I1 I2].
  assert (Mn : forall n, mem n names' = true -> mem n names = true).
  { intros n H. apply mem_In. apply Hn. apply mem_In. exact H. }
  assert (Mc : forall n, mem n chain' = true -> mem n chain = true).
  { intros n H. apply mem_In. apply Hc. apply mem_In. exact H. }
  apply orb_false_iff. split.
  - destruct (mem (e0 (fst x)) names') eqn:E0; [| reflexivity].
    destruct (mem (e1 (fst x)) chain') eqn:E1; [| reflexivity].
    rewrite (Mn _ E0), (Mc _ E1) in I1. discriminate.
  - destruct (mem (e1 (fst x)) names') eqn:E1; [| reflexivity].
    destruct (mem (e0 (fst x)) chain') eqn:E0; [| reflexivity].
    rewrite (Mn _ E1), (Mc _ E0) in I2. discriminate.
Qed.

Lemma ascending_le : forall ds previous len, ascending previous ds len -> (previous <= len)%Q.
Proof.
  induction ds as [| d ds IH]; intros previous len H; cbn [ascending] in H; [exact H |].
  destruct H as [H1 H2]. apply (Qle_trans _ d); [exact H1 | apply IH; exact H2].
Qed.

Lemma sorted_ascending len : forall items previous,
  Sorted by_distance items ->
  match items with [] => True | y :: _ => (previous <= snd y)%Q end ->
  (previous <= len)%Q ->
  Forall (fun r => (snd r <= len)%Q) items ->
  ascending previous (map snd items) len.
Proof.
  induction items as [| x t IH]; intros previous Hs Hhd Hp Hr; cbn [map ascending].
  - exact Hp.
  - inversion Hs as [| x' t' Hst Hrel]; subst. inversion Hr as [| x' t' Hx Ht]; subst.
    split; [exact Hhd |]. apply IH; trivial.
    destruct t as [| y t]; [trivial |]. inversion Hrel; subst. assumption.
Qed.

Section SplicerClaim.
Context {C : Collaborators}.

Section Lengths.
Hypothesis Hexact : splitter_exact.

Lemma cut_after_lengths : forall ds remainder previous pieces len,
  cut_after remainder previous ds pieces ->
  ascending previous ds len ->
  (line_length remainder == len - previous)%Q ->
  Forall2 (fun piece x => (line_length piece == x)%Q) pieces (gaps previous ds len).
Proof.
  induction ds as [| d ds IH]; intros remainder previous pieces len Hcut Ha Hl;
    inversion Hcut; subst; cbn [gaps].
  - constructor; [exact Hl | constructor].
  - destruct Ha as [Hpd Ha]. pose proof (ascending_le _ _ _ Ha) as Hd.
    destruct (Hexact remainder (d - previous)%Q) as [E1 E2]; [lra | lra |].
    match goal with H : split_line _ _ = _ |- _ => rewrite H in E1, E2 end.
    cbn [fst snd] in E1, E2.
    constructor; [exact E1 |].
    eapply IH; [eassumption | exact Ha | lra].
Qed.

Lemma cut_in_order_lengths l ds pieces :
  cut_in_order l ds pieces ->
  ascending 0 ds (line_length l) ->
  Forall2 (fun piece x => (line_length piece == x)%Q) pieces (gaps 0 ds (line_length l)).
Proof.
  intros Hcut Ha. inversion Hcut; subst. cbn [gaps]. destruct Ha as [Hpd Ha].
  pose proof (ascending_le _ _ _ Ha) as Hd.
  destruct (Hexact l d) as [E1 E2]; [lra | lra |].
  match goal with H : split_line _ _ = _ |- _ => rewrite H in E1, E2 end.
  cbn [fst snd] in E1, E2.
  constructor; [lra |].
  eapply cut_after_lengths; [eassumption | exact Ha | exact E2].
Qed.
End Lengths.

Lemma cut_rest_cut : forall ds remainder previous,
  cut_after remainder previous ds (cut_rest remainder previous ds).
Proof.
  induction ds as [| d ds IH]; intros remainder previous; cbn [cut_rest].
  - constructor.
  - cbv zeta. apply (cut_next _ _ _ _ _ (snd (split_line remainder (d - previous)))).
    + apply surjective_pairing.
    + apply IH.
Qed.

(** The pieces are determined by the line and the distances. *)
Lemma cut_after_unique : forall ds remainder previous pieces pieces',
  cut_after remainder previous ds pieces -> cut_after remainder previous ds pieces' ->
  pieces = pieces'.
Proof.
  induction ds as [| d ds IH]; intros remainder previous pieces pieces' H H';
    inversion H; inversion H'; subst; [reflexivity |].
  match goal with
  | A : split_line _ _ = _, B : split_line _ _ = _ |- _ =>
      rewrite A in B; injection B as <- <-
  end.
  f_equal. eapply IH; eassumption.
Qed.

Lemma cut_in_order_unique l ds pieces pieces' :
  cut_in_order l ds pieces -> cut_in_order l ds pieces' -> pieces = pieces'.
Proof.
  intros H H'. inversion H; inversion H'; subst.
  match goal with
  | A : split_line _ _ = _, B : split_line _ _ = _, E : _ :: _ = _ :: _ |- _ =>
      injection E as <- <-; rewrite A in B; injection B as <- <-
  end.
  f_equal. eapply cut_after_unique; eassumption.
Qed.

Lemma sub_segments_cut l ds : ds <> [] -> cut_in_order l ds (sub_segments l ds).
Proof.
  destruct ds as [| d ds]; [contradiction |]. intros _. cbn [sub_segments].
  apply (cut_first _ _ _ _ (snd (split_line l d))).
  - apply surjective_pairing.
  - apply cut_rest_cut.
Qed.

End SplicerClaim.

(** ** The loop over the points, as a whole *)

Lemma same_keys_refl g : same_keys g g.
Proof. repeat split. Qed.

Lemma located_same g0 g added n pt :
  same_keys g0 g -> nodes g = nodes g0 ++ added ->
  located g0 n = Some pt -> located g n = Some pt.
Proof.
  intros (_ & _ & Kx & Ky & _) Hn H. unfold located, node_get in *.
  rewrite Hn, Kx, Ky, dict_get_app.
  destruct (dict_get String.eqb (nodes g0) n); [exact H | discriminate].
Qed.

Lemma position_info_same g0 g cells pt :
  same_keys g0 g -> position_info g cells pt = position_info g0 cells pt.
Proof.
  intros (_ & _ & Kx & Ky & _). unfold position_info. rewrite Kx, Ky. reflexivity.
Qed.

Lemma has_node_app g g' extra n :
  nodes g' = nodes g ++ extra -> has_node g n = true -> has_node g' n = true.
Proof.
  intros Hn H. apply has_node_get_some in H. destruct H as [a H].
  apply has_node_get_some. exists a. unfold node_get in *.
  rewrite Hn, dict_get_app, H. reflexivity.
Qed.

Lemma links_ends g dir p t pp pc x :
  In x (links g dir p t pp pc) ->
  (e0 (fst x) = p \/ e0 (fst x) = t) /\ (e1 (fst x) = p \/ e1 (fst x) = t).
Proof.
  unfold links, line_edge.
  destruct (is_directed g); [destruct (String.eqb dir "both");
                             [| destruct (String.eqb dir "in")] |];
    simpl; intuition (subst; simpl; auto).
Qed.

Lemma edges_closed_step g g' extra new :
  edges_closed g = true ->
  nodes g' = nodes g ++ extra ->
  edges g' = edges g ++ new ->
  (forall x, In x new -> has_node g' (e0 (fst x)) = true /\ has_node g' (e1 (fst x)) = true) ->
  edges_closed g' = true.
Proof.
  unfold edges_closed. intros Hc Hn He Hnew. rewrite He, forallb_app.
  apply andb_true_iff. split.
  - rewrite forallb_forall in *. intros x Hx. specialize (Hc x Hx).
    apply andb_true_iff in Hc. destruct Hc as [H0 H1].
    rewrite (has_node_app g g' extra _ Hn H0), (has_node_app g g' extra _ Hn H1).
    reflexivity.
  - rewrite forallb_forall. intros x Hx. destruct (Hnew x Hx) as [H0 H1].
    rewrite H0, H1. reflexivity.
Qed.

Lemma dict_get_In {K V} (eqb : K -> K -> bool) (d : list (K * V)) k v :
  dict_get eqb d k = Some v -> exists k', In (k', v) d /\ eqb k' k = true.
Proof.
  induction d as [| [k0 v0] t IH]; simpl; [discriminate |].
  destruct (eqb k0 k) eqn:E.
  - intro H. inversion H. subst. exists k0. auto.
  - intro H. destruct (IH H) as (k' & Hin & Hk). exists k'. auto.
Qed.

Lemma dict_set_Forall {K V} (eqb : K -> K -> bool) (P : K * V -> Prop) (d : list (K * V)) k v :
  Forall P d -> (forall k', eqb k' k = true -> P (k', v)) -> P (k, v) ->
  Forall P (dict_set eqb d k v).
Proof.
  intros Hd Hk Hnew. induction d as [| [k0 v0] t IH]; simpl.
  - constructor; [exact Hnew | constructor].
  - inversion Hd as [| x l Hx Ht]; subst.
    destruct (eqb k0 k) eqn:E.
    + constructor; [apply Hk; exact E | exact Ht].
    + constructor; [exact Hx | apply IH; exact Ht].
Qed.

Lemma request_ok_grow eal g g' extra er :
  nodes g' = nodes g ++ extra -> request_ok eal g er -> request_ok eal g' er.
Proof.
  intros Hn (Hl & H0 & H1 & Hr). repeat split.
  - exact Hl.
  - apply (has_node_app g g' extra _ Hn H0).
  - apply (has_node_app g g' extra _ Hn H1).
  - eapply Forall_impl; [| exact Hr]. intros nd H. apply (has_node_app g g' extra _ Hn H).
Qed.

Lemma record_split_ok eal g ets e l i d :
  Forall (request_ok eal g) ets ->
  dict_get edge_key_eqb eal e = Some (VLine l) ->
  has_node g (e0 e) = true -> has_node g (e1 e) = true -> has_node g i = true ->
  Forall (request_ok eal g) (record_split ets e i d).
Proof.
  intros Hets Hl H0 H1 Hi. unfold record_split.
  assert (Hold : Forall (fun nd : Name * Q => has_node g (fst nd) = true)
                        (match dict_get edge_key_eqb ets e with Some m => m | None => [] end)).
  { destruct (dict_get edge_key_eqb ets e) as [m |] eqn:E; [| constructor].
    destruct (dict_get_In _ _ _ _ E) as (k' & Hin & _).
    rewrite Forall_forall in Hets. destruct (Hets _ Hin) as (_ & _ & _ & Hr). exact Hr. }
  assert (Hnew : request_ok eal g
                   (e, dict_set String.eqb
                         (match dict_get edge_key_eqb ets e with Some m => m | None => [] end)
                         i d)).
  { repeat split; eauto.
    apply dict_set_Forall; [exact Hold | | exact Hi].
    intros k' Hk. apply String.eqb_eq in Hk. subst. exact Hi. }
  apply dict_set_Forall; [exact Hets | | exact Hnew].
  intros k' Hk. apply edge_key_eqb_eq in Hk. subst. exact Hnew.
Qed.

(** ** What the loop over the points leaves for the splicer *)

Lemma dict_set_absent {V} (d : list (Name * V)) k v :
  ~ In k (map fst d) -> dict_set String.eqb d k v = d ++ [(k, v)].
Proof.
  induction d as [| [k0 v0] t IH]; intro H; [reflexivity |].
  simpl in *. destruct (String.eqb_spec k0 k) as [E | N].
  - exfalso. apply H. left. exact E.
  - rewrite IH; [reflexivity |]. intro X. apply H. right. exact X.
Qed.

Lemma record_split_names ets e i d :
  ~ In i (List.concat (map request_names ets)) ->
  Permutation (List.concat (map request_names (record_split ets e i d)))
              (i :: List.concat (map request_names ets)).
Proof.
  induction ets as [| [k m] t IH]; intro H.
  - reflexivity.
  - rewrite record_split_cons. simpl in H. rewrite in_app_iff in H.
    destruct (edge_key_eqb k e).
    + cbn [map List.concat]. unfold request_names at 1 3. cbn [snd].
      rewrite dict_set_absent by (intro X; apply H; left; exact X).
      rewrite map_app. cbn [map fst]. rewrite <- app_assoc. cbn [app].
      symmetry. apply Permutation_middle.
    + cbn [map List.concat]. rewrite IH by (intro X; apply H; right; exact X).
      symmetry. apply Permutation_middle.
Qed.

Lemma record_split_entries (Q0 : EdgeKey * list (Name * Q) -> Prop) ets e i d :
  Forall Q0 ets ->
  (forall m, (m = [] \/ exists k, In (k, m) ets /\ edge_key_eqb k e = true) ->
             Q0 (e, dict_set String.eqb m i d)) ->
  Forall Q0 (record_split ets e i d).
Proof.
  intros Hets Hnew. induction ets as [| [k m] t IH].
  - unfold record_split. simpl. constructor; [| constructor]. apply (Hnew []). left. reflexivity.
  - rewrite record_split_cons. inversion Hets as [| x l Hx Ht]; subst.
    destruct (edge_key_eqb k e) eqn:E.
    + constructor; [| exact Ht]. rewrite (edge_key_eqb_eq _ _ E).
      apply Hnew. right. exists k. split; [left; reflexivity | exact E].
    + constructor; [exact Hx |]. apply IH; [exact Ht |].
      intros m' [-> | (k' & Hin & Hk)]; apply Hnew; [left; reflexivity |].
      right. exists k'. split; [right; exact Hin | exact Hk].
Qed.

Lemma dict_set_nonempty {K V} (eqb : K -> K -> bool) (d : list (K * V)) k v :
  dict_set eqb d k v <> [].
Proof.
  destruct d as [| [k0 v0] t]; simpl; [discriminate |].
  destruct (eqb k0 k); discriminate.
Qed.

Lemma dict_set_keys {V} (d : list (Name * V)) k v n :
  In n (map fst (dict_set String.eqb d k v)) -> n = k \/ In n (map fst d).
Proof.
  induction d as [| [k0 v0] t IH]; simpl.
  - intros [H | []]. auto.
  - destruct (String.eqb k0 k); simpl; intros [H | H]; auto.
    destruct (IH H); auto.
Qed.

Lemma has_node_false_app g g' extra n :
  nodes g' = nodes g ++ extra -> has_node g' n = false -> has_node g n = false.
Proof.
  intros Hn H. destruct (has_node g n) eqn:E; [| reflexivity].
  rewrite (has_node_app g g' extra n Hn E) in H. discriminate.
Qed.

(** A turn of the loop keeps [placed]: the node of the point joins [P], the
    intersection node created, if any, joins [I]. *)
Lemma placed_step g0 g g' ets ets' P I p t extra new added :
  placed g0 g ets P I ->
  nodes g = nodes g0 ++ added ->
  edges_closed g = true ->
  has_node g p = false ->
  nodes g' = nodes g ++ extra ->
  has_node g' p = true -> has_node g' t = true -> p <> t ->
  edges g' = edges g ++ new ->
  (forall x, In x new -> joins p t (fst x)) ->
  ((has_node g0 t = true /\ ets' = ets)
   \/ (exists e d, has_node g t = false /\ ets' = record_split ets e t d
                   /\ has_node g0 (e0 e) = true /\ has_node g0 (e1 e) = true)) ->
  exists I', placed g0 g' ets' (p :: P) I'
             /\ (forall n, In n I -> In n I') /\ (forall n, In n I' -> n = t \/ In n I).
Proof.
  intros (J1 & J2 & J3 & J4 & J5) Hn0 Hc Hp Hn Hp' Ht' Hpt He Hnew Hcase.
  assert (Hp0 : has_node g0 p = false).
  { apply (has_node_false_app g0 g added p Hn0 Hp). }
  assert (Hclosed : forall x, In x (edges g) ->
                              has_node g (e0 (fst x)) = true /\ has_node g (e1 (fst x)) = true).
  { intros x Hx. unfold edges_closed in Hc. rewrite forallb_forall in Hc.
    specialize (Hc x Hx). apply andb_true_iff in Hc. exact Hc. }
  assert (HpI : ~ In p I).
  { intro X. destruct (J1 p (or_intror X)) as [Y _]. congruence. }
  assert (HpP : forall n, In n P -> n <> p).
  { intros n X E. subst. destruct (J1 p (or_introl X)) as [Y _]. congruence. }
  assert (Hold : forall x, In x (edges g) -> e0 (fst x) <> t /\ e1 (fst x) <> t ->
                           forall I', (forall n, In n I' -> n = t \/ In n I) ->
                           (In (e0 (fst x)) I' -> In (e1 (fst x)) (p :: P))
                           /\ (In (e1 (fst x)) I' -> In (e0 (fst x)) (p :: P))).
  { intros x Hx [N0 N1] I' HI'. split; intro X; apply HI' in X;
      destruct X as [X | X]; try contradiction; right; apply (J3 x Hx); exact X. }
  assert (Hlink : forall x, In x new -> forall I', ~ In p I' ->
                            (In (e0 (fst x)) I' -> In (e1 (fst x)) (p :: P))
                            /\ (In (e1 (fst x)) I' -> In (e0 (fst x)) (p :: P))).
  { intros x Hx I' HpI'. destruct (Hnew x Hx) as [[E0 E1] | [E0 E1]]; rewrite E0, E1;
      split; intro X; try contradiction; left; reflexivity. }
  destruct Hcase as [(Ht0 & ->) | (e & d & Htg & -> & Hu & Hv)].
  - (* the point snapped to a node of the graph *)
    assert (HtI : ~ In t I).
    { intro X. destruct (J1 t (or_intror X)) as [_ Y]. congruence. }
    exists I. split; [| split; auto].
    split; [| split; [| split; [| split]]].
    + intros n [[<- | H] | H]; auto; split;
        try (apply (has_node_app g g' extra _ Hn)); apply J1; auto.
    + intros n [<- | H]; auto.
    + intros x Hx. rewrite He in Hx. apply in_app_iff in Hx. destruct Hx as [Hx | Hx].
      * split; intro X; right; apply (J3 x Hx); exact X.
      * apply Hlink; assumption.
    + exact J4.
    + exact J5.
  - (* an intersection node was created *)
    assert (HtI : ~ In t I).
    { intro X. destruct (J1 t (or_intror X)) as [Y _]. congruence. }
    assert (HtP : ~ In t P).
    { intro X. destruct (J1 t (or_introl X)) as [Y _]. congruence. }
    assert (Ht0 : has_node g0 t = false).
    { apply (has_node_false_app g0 g added t Hn0 Htg). }
    assert (Hfresh : ~ In t (List.concat (map request_names ets))).
    { intro X. apply in_concat in X. destruct X as (l & Hl & Hin).
      apply in_map_iff in Hl. destruct Hl as (er & <- & Her).
      rewrite Forall_forall in J4. destruct (J4 er Her) as (_ & Hsub & _).
      apply HtI. apply Hsub. exact Hin. }
    exists (t :: I). split; [| split; [intros n H; right; exact H |
                                       intros n [<- | H]; auto]].
    split; [| split; [| split; [| split]]].
    + intros n [[<- | H] | [<- | H]]; auto; split;
        try (apply (has_node_app g g' extra _ Hn)); apply J1; auto.
    + intros n [<- | H] [E | X].
      * apply Hpt. symmetry. exact E.
      * contradiction.
      * subst. contradiction.
      * apply (J2 n H X).
    + intros x Hx. rewrite He in Hx. apply in_app_iff in Hx. destruct Hx as [Hx | Hx].
      * apply (Hold x Hx); [| intros n [<- | X]; auto].
        destruct (Hclosed x Hx) as [Y0 Y1]. split; intro E; rewrite E in *; congruence.
      * apply Hlink; [exact Hx |]. intros [E | X]; [apply Hpt; symmetry; exact E | contradiction].
    + apply record_split_entries.
      * eapply Forall_impl; [| exact J4]. intros er (A & B & C0 & D0).
        repeat split; trivial. intros n X. right. apply B. exact X.
      * intros m Hm. cbn [fst snd]. repeat split; trivial.
        -- apply dict_set_nonempty.
        -- unfold request_names. cbn [snd]. intros n X.
           apply dict_set_keys in X. destruct X as [-> | X]; [left; reflexivity |].
           right. destruct Hm as [-> | (k & Hin & _)]; [contradiction |].
           rewrite Forall_forall in J4. destruct (J4 _ Hin) as (_ & Hsub & _).
           apply Hsub. exact X.
    + apply (Permutation_NoDup (Permutation_sym (record_split_names ets e t d Hfresh))).
      constructor; assumption.
Qed.

Lemma links_joins g dir p t pp pc x : In x (links g dir p t pp pc) -> joins p t (fst x).
Proof.
  unfold links, line_edge, joins.
  destruct (is_directed g); [destruct (String.eqb dir "both");
                             [| destruct (String.eqb dir "in")] |];
    simpl; intuition (subst; simpl; auto).
Qed.

Lemma closest_edge_line eal li p e l :
  closest_edge eal li p = Some (e, l) -> dict_get edge_key_eqb eal e = Some (VLine l).
Proof.
  unfold closest_edge. destruct (nth_error li p) as [i |]; [| discriminate].
  destruct (nth_error eal i) as [[e' v'] |]; [| discriminate].
  destruct (dict_get edge_key_eqb eal e') as [[| | | l'] |] eqn:E; try discriminate.
  intro H. inversion H. subst. exact E.
Qed.

Section Loops.
Context {C : Collaborators}.

(** The loop over the points keeps the graph ready for the next point and
    for the splicer, and appends one chunk of nodes per point. *)
Lemma points_loop_run (g0 : Graph) eal li dir :
  names_are_new ->
  forall its g ets added P I,
    same_keys g0 g -> nodes g = nodes g0 ++ added ->
    edges_closed g = true ->
    Forall (request_ok eal g) ets ->
    placed g0 g ets P I ->
    Forall (fun it => exists e l p1 p2,
                closest_edge eal li (fst it) = Some (e, l)
                /\ located g0 (e0 e) = Some p1 /\ located g0 (e1 e) = Some p2) its ->
    exists g' ets' chunks P' I',
      for_each its (merge_point eal li dir) ets g = (g', Ok ets')
      /\ same_keys g0 g'
      /\ nodes g' = nodes g ++ List.concat chunks
      /\ edges_closed g' = true
      /\ Forall (request_ok eal g') ets'
      /\ Forall2 (turn_chunk g0 eal li) its chunks
      /\ placed g0 g' ets' P' I'.
Proof.
  intros Hnew its. induction its as [| [p row] rest IH];
    intros g ets added P I Hk Hn Hc Hets Hpl Hits.
  - exists g, ets, [], P, I. simpl. rewrite app_nil_r.
    split; [reflexivity |]. split; [exact Hk |]. split; [reflexivity |].
    split; [exact Hc |]. split; [exact Hets |]. split; [constructor | exact Hpl].
  - inversion Hits as [| it its' (e & l & p1 & p2 & He & L1 & L2) Hrest]; subst.
    cbn [fst] in He.
    pose proof (located_same g0 g added _ _ Hk Hn L1) as L1'.
    pose proof (located_same g0 g added _ _ Hk Hn L2) as L2'.
    destruct (merge_point_run g eal li dir ets p row e l p1 p2
                (Hnew g _) (Hnew _ _) Hc He L1' L2')
      as (g1 & ets1 & t & extra & pp & pc & Hrun & Eg & Hnodes & Hedges & _ & Lp & Lc
          & Hint & Hsnap).
    set (name := get_new_node_unique_name g (row_index row)) in *.
    set (info := position_info g (row_cells row) (row_geometry row)) in *.
    assert (Hk1 : same_keys g0 g1).
    { rewrite Eg. exact Hk. }
    assert (Hc1 : edges_closed g1 = true).
    { apply (edges_closed_step g g1 _ _ Hc Hnodes Hedges).
      intros x Hx. destruct (links_ends _ _ _ _ _ _ _ Hx) as [[E0 | E0] [E1 | E1]];
        rewrite E0, E1; split;
        first [apply (located_has_node _ _ _ Lp) | apply (located_has_node _ _ _ Lc)]. }
    assert (Hets1 : Forall (request_ok eal g1) ets1).
    { assert (Hgrow : Forall (request_ok eal g1) ets).
      { eapply Forall_impl; [| exact Hets]. intros er. apply (request_ok_grow _ _ _ _ _ Hnodes). }
      destruct (interior l (row_geometry row)) eqn:Ei.
      - destruct (Hint eq_refl) as (Et & _ & ->).
        apply (record_split_ok eal g1 ets e l); trivial.
        + apply (closest_edge_line eal li p). exact He.
        + apply (has_node_app g g1 _ _ Hnodes). apply (located_has_node _ _ _ L1').
        + apply (has_node_app g g1 _ _ Hnodes). apply (located_has_node _ _ _ L2').
        + rewrite <- Et. apply (located_has_node _ _ _ Lc).
      - destruct (Hsnap eq_refl) as (_ & _ & ->). exact Hgrow. }
    assert (Hpl1 : exists I1, placed g0 g1 ets1 (name :: P) I1).
    { assert (Hside : (has_node g0 t = true /\ ets1 = ets)
                      \/ (exists e' d, has_node g t = false /\ ets1 = record_split ets e' t d
                                       /\ has_node g0 (e0 e') = true
                                       /\ has_node g0 (e1 e') = true)).
      { destruct (interior l (row_geometry row)) eqn:Ei.
        - right. destruct (Hint eq_refl) as (Et & _ & Es).
          exists e, (project l (row_geometry row)). rewrite Et at 1 2.
          split; [| split; [exact Es | split; eapply located_has_node; eassumption]].
          apply (has_node_false_app g (set_nodes g (nodes g ++ [(name, info)])) [(name, info)]);
            [reflexivity | apply Hnew].
        - left. destruct (Hsnap eq_refl) as (Et & _ & Es). split; [| exact Es].
          rewrite Et. destruct (Qltb _ _); eapply located_has_node; eassumption. }
      assert (Hne : name <> t).
      { destruct Hside as [(Ht0 & _) | (e' & d & Htg & _)].
        - intro E. pose proof (Hnew g (row_index row)) as F. fold name in F.
          rewrite E in F. rewrite (has_node_app g0 g added t Hn Ht0) in F. discriminate.
        - destruct (interior l (row_geometry row)) eqn:Ei.
          + destruct (Hint eq_refl) as (Et & _ & _). rewrite Et.
            apply (has_node_differ (set_nodes g (nodes g ++ [(name, info)])));
              [apply has_node_last | apply Hnew].
          + destruct (Hsnap eq_refl) as (Et & _ & _). intro E.
            assert (X : has_node g t = true).
            { rewrite Et. destruct (Qltb _ _); eapply located_has_node; eassumption. }
            congruence. }
      destruct (placed_step g0 g g1 ets ets1 P I name t ((name, info) :: extra)
                            (links g dir name t pp pc) added
                            Hpl Hn Hc (Hnew g _) Hnodes
                            (located_has_node _ _ _ Lp) (located_has_node _ _ _ Lc) Hne Hedges
                            (links_joins g dir name t pp pc) Hside)
        as (I1 & Hp1 & _). exists I1. exact Hp1. }
    destruct Hpl1 as [I1 Hpl1].
    assert (Hn1 : nodes g1 = nodes g0 ++ (added ++ (name, info) :: extra)).
    { rewrite Hnodes, Hn, <- app_assoc. reflexivity. }
    destruct (IH g1 ets1 _ _ _ Hk1 Hn1 Hc1 Hets1 Hpl1 Hrest)
      as (g2 & ets2 & chunks & P2 & I2 & Hrun2 & Hk2 & Hn2 & Hc2 & Hets2 & Hch & Hpl2).
    exists g2, ets2, (((name, info) :: extra) :: chunks), P2, I2.
    split; [| split; [| split; [| split; [| split; [| split]]]]]; trivial.
    + cbn [for_each]. rewrite (bind_ok _ _ _ _ _ Hrun). exact Hrun2.
    + rewrite Hn2, Hnodes. cbn [List.concat]. rewrite <- app_assoc. reflexivity.
    + constructor; [| exact Hch].
      exists e, l, name. cbn [fst snd]. split; [exact He |].
      split; [apply (has_node_false_app g0 g added name Hn); apply Hnew |].
      cbv zeta. unfold info.
      rewrite (position_info_same g0 g _ _ Hk).
      destruct (interior l (row_geometry row)) eqn:Ei.
      * destruct (Hint eq_refl) as (_ & -> & _). eexists.
        rewrite (position_info_same g0 g _ _ Hk).
        split; [| split; [| reflexivity]].
        -- apply (has_node_false_app g0 (set_nodes g (nodes g ++ [(name, info)]))
                                     (added ++ [(name, info)])).
           ++ cbn [nodes set_nodes]. rewrite Hn, <- app_assoc. reflexivity.
           ++ apply Hnew.
        -- apply not_eq_sym.
           apply (has_node_differ (set_nodes g (nodes g ++ [(name, info)])));
             [apply has_node_last | apply Hnew].
      * destruct (Hsnap eq_refl) as (_ & -> & _). reflexivity.
Qed.

(** The loop over the edges to split ends without an exception and leaves
    the nodes as they are. *)
Lemma splice_loop_run eal : forall ets g,
  Forall (request_ok eal g) ets ->
  exists g', for_each ets (splice_edge eal) tt g = (g', Ok tt) /\ nodes g' = nodes g.
Proof.
  induction ets as [| [e reqs] rest IH]; intros g Hets.
  - exists g. split; reflexivity.
  - inversion Hets as [| er ers ([l Hl] & H0 & H1 & Hr) Hrest]; subst. cbn [fst snd] in *.
    assert (Hstep : exists g1, splice_edge eal tt (e, reqs) g = (g1, Ok tt)
                               /\ nodes g1 = nodes g).
    { destruct reqs as [| r rs].
      - exists g. split; reflexivity.
      - rewrite (splice_edge_run g eal e (r :: rs) l Hl) by discriminate. cbv zeta.
        eexists. split; [reflexivity |].
        set (g0 := if has_edge g e then remove_edge g e else g).
        assert (Gn : nodes g0 = nodes g) by (unfold g0; destruct (has_edge g e); reflexivity).
        rewrite fold_add_nodes; [exact Gn |].
        apply Forall_forall. intros t Ht.
        destruct (code_components _ _ _ _ _ Ht) as [C1 C2].
        assert (Hin : forall n, In n (e0 e :: e1 e :: map fst (sorted_by_distance (r :: rs))) ->
                                has_node g0 n = true).
        { intros n Hn. rewrite (has_node_same_nodes g g0 n Gn).
          destruct Hn as [<- | [<- | Hn]]; trivial.
          apply (Permutation_in _ (Permutation_map fst (sorted_by_distance_perm (r :: rs)))) in Hn.
          apply in_map_iff in Hn. destruct Hn as (nd & <- & Hnd).
          rewrite Forall_forall in Hr. apply Hr. exact Hnd. }
        split; apply Hin; assumption. }
    destruct Hstep as (g1 & Hrun & Hn1).
    assert (Hrest1 : Forall (request_ok eal g1) rest).
    { eapply Forall_impl; [| exact Hrest]. intros er.
      apply (request_ok_grow eal g g1 []). rewrite app_nil_r. exact Hn1. }
    destruct (IH g1 Hrest1) as (g2 & Hrun2 & Hn2).
    exists g2. split.
    + cbn [for_each]. rewrite (bind_ok _ _ _ _ _ Hrun). exact Hrun2.
    + rewrite Hn2. exact Hn1.
Qed.
End Loops.

(** ** The node count of a merge *)

Lemma In_dict_get (d : list (EdgeKey * Value)) k v :
  In (k, v) d -> exists v', dict_get edge_key_eqb d k = Some v'.
Proof.
  induction d as [| [k0 v0] t IH]; intro H; [contradiction |].
  simpl. destruct (edge_key_eqb k0 k) eqn:E; [eauto |].
  destruct H as [H | H]; [| auto].
  inversion H. subst. rewrite edge_key_eqb_refl in E. discriminate.
Qed.

Lemma map_snd_combine_seq {A} (l : list A) : forall s,
  map snd (combine (seq s (List.length l)) l) = l.
Proof.
  induction l as [| a t IH]; intro s; [reflexivity |].
  simpl. rewrite IH. reflexivity.
Qed.

Lemma filter_length_le {A} (f : A -> bool) (l : list A) :
  List.length (filter f l) <= List.length l.
Proof.
  induction l as [| a t IH]; simpl; [lia |]. destruct (f a); simpl; lia.
Qed.

Lemma placed_start g : placed g g [] [] [].
Proof.
  unfold placed. split; [intros n [[] | []] |]. split; [intros n [] |].
  split; [intros x _; split; intros [] |]. split; constructor.
Qed.

Section NodeCount.
Context {C : Collaborators}.

Lemma closest_edge_ready g eal li p i :
  forallb (fun kv => is_line (snd kv) && is_located g (e0 (fst kv)) && is_located g (e1 (fst kv)))
          eal = true ->
  nth_error li p = Some i -> i < List.length eal ->
  exists e l p1 p2,
    closest_edge eal li p = Some (e, l)
    /\ located g (e0 e) = Some p1 /\ located g (e1 e) = Some p2.
Proof.
  intros Hr Hi Hlt. unfold closest_edge. rewrite Hi.
  destruct (nth_error eal i) as [[e v] |] eqn:En.
  2:{ apply nth_error_None in En. lia. }
  destruct (In_dict_get eal e v (nth_error_In _ _ En)) as [v' Hv]. rewrite Hv.
  destruct (dict_get_In _ _ _ _ Hv) as (k' & Hin & Hk).
  apply edge_key_eqb_eq in Hk. subst k'.
  rewrite forallb_forall in Hr. specialize (Hr _ Hin). cbn [fst snd] in Hr.
  apply andb_true_iff in Hr. destruct Hr as [Hr H1].
  apply andb_true_iff in Hr. destruct Hr as [Hl H0].
  unfold is_located in H0, H1.
  destruct (located g (e0 e)) as [p1 |] eqn:L1; [| discriminate].
  destruct (located g (e1 e)) as [p2 |] eqn:L2; [| discriminate].
  destruct v' as [| | | l]; try discriminate.
  exists e, l, p1, p2. repeat split; assumption.
Qed.

Lemma chunks_count g eal li : forall its chunks,
  Forall2 (turn_chunk g eal li) its chunks ->
  List.length (List.concat chunks)
  = List.length its + List.length (filter (interior_turn eal li) its).
Proof.
  intros its chunks H. induction H as [| it chunk its' chunks' Hc _ IH].
  - reflexivity.
  - destruct Hc as (e & l & name & He & _ & Hc). cbv zeta in Hc.
    cbn [List.concat filter]. unfold interior_turn at 1. rewrite He.
    rewrite length_app, IH.
    destruct (interior l (row_geometry (snd it))).
    + destruct Hc as (i & _ & _ & ->). cbn [List.length]. lia.
    + rewrite Hc. cbn [List.length]. lia.
Qed.

Lemma indexes_ready_found g points_gdf :
  indexes_ready g points_gdf = true ->
  let eal := get_edge_attributes (edges g) (edges_geometry_key g) in
  exists li,
    get_closest_line_from_points (map row_geometry points_gdf) (map snd eal) = Indexes li
    /\ forall p, In p (seq 0 (List.length points_gdf)) ->
                 exists i, nth_error li p = Some i /\ i < List.length eal.
Proof.
  unfold indexes_ready. cbv zeta.
  destruct (get_closest_line_from_points _ _) as [li | msg]; [| discriminate].
  intro H. exists li. split; [reflexivity |].
  intros p Hp. rewrite forallb_forall in H. specialize (H p Hp).
  destruct (nth_error li p) as [i |]; [| discriminate].
  exists i. split; [reflexivity | apply Nat.ltb_lt; exact H].
Qed.

(** The body once the nearest-line search has returned: the loop over the
    points, then the loop over the edges to split. *)
Lemma points_merge_body_found g points_gdf merge_direction li :
  let eal := get_edge_attributes (edges g) (edges_geometry_key g) in
  get_closest_line_from_points (map row_geometry points_gdf) (map snd eal) = Indexes li ->
  points_merge_body points_gdf merge_direction g
  = bind (for_each (combine (seq 0 (List.length points_gdf)) points_gdf)
                   (merge_point eal li merge_direction) [])
         (fun edges_to_split => for_each edges_to_split (splice_edge eal) tt) g.
Proof.
  intros eal E. unfold points_merge_body. unfold bind at 1. unfold self at 1.
  cbv beta iota zeta. fold eal. rewrite E. reflexivity.
Qed.

(** The body when the nearest-line search raises: the graph is untouched. *)
Lemma points_merge_body_search_error g points_gdf merge_direction msg :
  get_closest_line_from_points
    (map row_geometry points_gdf)
    (map snd (get_edge_attributes (edges g) (edges_geometry_key g))) = SearchError msg ->
  points_merge_body points_gdf merge_direction g = (g, Raise (ValueError msg)).
Proof.
  intro E. unfold points_merge_body. unfold bind at 1. unfold self at 1.
  cbv beta iota zeta. rewrite E. reflexivity.
Qed.

(** The points of a ready batch each have a closest edge between nodes with
    coordinates. *)
Lemma batch_closest_edges g points_gdf :
  lines_ready g = true ->
  indexes_ready g points_gdf = true ->
  let eal := get_edge_attributes (edges g) (edges_geometry_key g) in
  exists li,
    get_closest_line_from_points (map row_geometry points_gdf) (map snd eal) = Indexes li
    /\ Forall (fun it => exists e l p1 p2,
                   closest_edge eal li (fst it) = Some (e, l)
                   /\ located g (e0 e) = Some p1 /\ located g (e1 e) = Some p2)
              (combine (seq 0 (List.length points_gdf)) points_gdf).
Proof.
  intros Hl Hi eal.
  destruct (indexes_ready_found g points_gdf Hi) as (li & Eli & Hli). fold eal in Eli, Hli.
  exists li. split; [exact Eli |].
  apply Forall_forall. intros [p row] Hin. cbn [fst].
  apply in_combine_l in Hin. destruct (Hli p Hin) as (i & Ei & Hlt).
  apply (closest_edge_ready g eal li p i); assumption.
Qed.

(** C8: when the name generator returns only names that are not in use, the
    edges of the graph join nodes of the graph, the edge geometries are lines
    between nodes with coordinates and the nearest-line search returns the
    index of an edge for each point, [spatial_points_merge] ends without an
    exception and the nodes of the graph afterwards are those it had,
    followed by one chunk of nodes per point of the batch, in order.  The
    chunk of a point is the node of the point, under a name the graph did
    not use, with the cells of its row and its coordinates, followed by an
    intersection node at the projection of the point, under another name
    the graph did not use, exactly when the point projects strictly inside
    the line of its closest edge, and by nothing otherwise.  So a batch of [N] points
    adds [N] point nodes and [k] intersection nodes, where [k <= N] is the
    number of points of the batch that project strictly inside their
    line. *)
Theorem points_merge_node_count (g : Graph) (points_gdf : GeoDataFrame)
        (merge_direction : string) :
  names_are_new ->
  edges_closed g = true ->
  lines_ready g = true ->
  indexes_ready g points_gdf = true ->
  let eal := get_edge_attributes (edges g) (edges_geometry_key g) in
  let turns := combine (seq 0 (List.length points_gdf)) points_gdf in
  exists g' li chunks,
    get_closest_line_from_points (map row_geometry points_gdf) (map snd eal) = Indexes li
    /\ points_merge_body points_gdf merge_direction g = (g', Ok tt)
    /\ nodes g' = nodes g ++ List.concat chunks
    /\ Forall2 (turn_chunk g eal li) turns chunks
    /\ let k := List.length (filter (interior_turn eal li) turns) in
       List.length (nodes g') = List.length (nodes g) + List.length points_gdf + k
       /\ k <= List.length points_gdf.
Proof.
  intros Hnew Hc Hl Hi eal turns.
  destruct (batch_closest_edges g points_gdf Hl Hi) as (li & Eli & Hits).
  fold eal in Eli, Hits. fold turns in Hits.
  destruct (points_loop_run g eal li merge_direction Hnew _ g [] [] [] []
              (same_keys_refl g) (eq_sym (app_nil_r _)) Hc (Forall_nil _)
              (placed_start g) Hits)
    as (g1 & ets & chunks & P & I & Hrun & _ & Hn1 & _ & Hets & Hch & _).
  destruct (splice_loop_run eal ets g1 Hets) as (g2 & Hrun2 & Hn2).
  assert (Hlen : List.length turns = List.length points_gdf).
  { unfold turns. rewrite length_combine, length_seq. lia. }
  exists g2, li, chunks.
  split; [exact Eli |]. split; [| split; [| split; [| split]]].
  - rewrite (points_merge_body_found g points_gdf merge_direction li Eli).
    fold eal. fold turns. rewrite (bind_ok _ _ _ _ _ Hrun). exact Hrun2.
  - rewrite Hn2. exact Hn1.
  - exact Hch.
  - rewrite Hn2, Hn1, length_app, (chunks_count g eal li turns chunks Hch), Hlen. lia.
  - rewrite <- Hlen. apply filter_length_le.
Qed.
End NodeCount.

(** ** Replaying the whole split table *)

Lemma NoDup_unique l : NoDup l -> unique l = true.
Proof.
  induction 1 as [| x t Hx _ IH]; [reflexivity |].
  simpl. rewrite IH, andb_true_r. apply negb_true_iff. apply mem_not_In. exact Hx.
Qed.

Lemma placed_replayable eal g0 g ets P I :
  placed g0 g ets P I -> Forall (request_ok eal g) ets -> replayable eal g ets P I.
Proof.
  intros (J1 & J2 & J3 & J4 & J5) Hok.
  assert (Hsub : forall n, In n (List.concat (map request_names ets)) -> In n I).
  { intros n X. apply in_concat in X. destruct X as (l & Hl & Hin).
    apply in_map_iff in Hl. destruct Hl as (er & <- & Her).
    rewrite Forall_forall in J4. destruct (J4 er Her) as (_ & S0 & _). apply S0. exact Hin. }
  split; [exact Hok |]. split; [| split; [exact J5 | split; [exact J2 |]]].
  - eapply Forall_impl; [| exact J4]. intros er (A & B & U & V).
    repeat split; trivial; intro X.
    + destruct (J1 _ (or_intror X)). congruence.
    + destruct (J1 _ (or_intror X)). congruence.
    + destruct (J1 _ (or_introl X)). congruence.
    + destruct (J1 _ (or_introl X)). congruence.
  - intros x Hx. split; intro X; apply (J3 x Hx); apply Hsub; exact X.
Qed.

Lemma chain_components u names v lines t :
  names <> [] -> List.length lines = S (List.length names) ->
  In t (chain_triples u names v lines) ->
  (In (fst (fst t)) (u :: v :: names) /\ In (snd (fst t)) (u :: v :: names))
  /\ (In (fst (fst t)) names \/ In (snd (fst t)) names).
Proof.
  intros Hn Hl Ht.
  destruct (code_triples_chain u names v lines Hn Hl) as [Pc _].
  apply (Permutation_in _ (Permutation_sym Pc)) in Ht.
  split; [apply (code_components _ _ _ _ _ Ht) |].
  destruct names as [| n1 ns]; [contradiction |].
  destruct lines as [| l0 ls]; [discriminate |].
  cbn [code_triples] in Ht. destruct Ht as [<- | [<- | Ht]]; cbn [fst snd].
  - right. left. reflexivity.
  - left. apply last_In. discriminate.
  - left. apply (mids_components _ _ _ Ht).
Qed.

Lemma filter_twice {A} (f h : A -> bool) (l : list A) :
  filter f (filter h l) = filter (fun x => h x && f x) l.
Proof.
  induction l as [| x t IH]; [reflexivity |].
  simpl. destruct (h x); simpl; [destruct (f x) |]; rewrite IH; reflexivity.
Qed.

Lemma filter_all {A} (f : A -> bool) (l : list A) :
  (forall x, In x l -> f x = true) -> filter f l = l.
Proof.
  induction l as [| x t IH]; intro H; [reflexivity |].
  simpl. rewrite (H x (or_introl eq_refl)), IH; [reflexivity |].
  intros y Hy. apply H. right. exact Hy.
Qed.

Section Replay.
Context {C : Collaborators}.

(** The first entry to replay meets what the splicer asks for. *)
Lemma replayable_head eal g e reqs rest P I :
  replayable eal g ((e, reqs) :: rest) P I ->
  (exists l, dict_get edge_key_eqb eal e = Some (VLine l))
  /\ reqs <> []
  /\ unique (map fst reqs) = true
  /\ forallb (has_node g) (e0 e :: e1 e :: map fst reqs) = true
  /\ mem (e0 e) (map fst reqs) = false
  /\ mem (e1 e) (map fst reqs) = false
  /\ isolated g (map fst reqs) (e0 e :: e1 e :: map fst reqs) = true.
Proof.
  intros (K1 & K2 & K3 & K5 & K4).
  inversion K1 as [| er ers (Hl & H0 & H1 & Hr) _]; subst.
  inversion K2 as [| er ers (Hne & Hsub & Hu & Hv & HuP & HvP) _]; subst.
  cbn [fst snd request_names] in *. unfold request_names in Hsub. cbn [snd] in Hsub.
  cbn [map List.concat] in K3, K4. unfold request_names at 1 in K3. cbn [snd] in K3.
  split; [exact Hl |]. split; [exact Hne |]. split; [| split; [| split; [| split]]].
  - apply NoDup_unique. apply (NoDup_app_remove_r _ _ K3).
  - cbn [forallb]. rewrite H0, H1. cbn [andb]. apply forallb_forall. intros n Hn.
    apply in_map_iff in Hn. destruct Hn as (nd & <- & Hnd).
    rewrite Forall_forall in Hr. apply Hr. exact Hnd.
  - apply mem_not_In. intro X. apply Hu. apply Hsub. exact X.
  - apply mem_not_In. intro X. apply Hv. apply Hsub. exact X.
  - unfold isolated. apply forallb_forall. intros x Hx. apply negb_true_iff.
    destruct (K4 x Hx) as [A B]. unfold request_names at 1 in A. unfold request_names at 1 in B.
    cbn [snd] in A, B.
    assert (HP : forall n, In n P -> mem n (e0 e :: e1 e :: map fst reqs) = false).
    { intros n Hn. apply mem_not_In. intros [E | [E | X]]; subst; try contradiction.
      apply (K5 n Hn). apply Hsub. exact X. }
    apply orb_false_iff. split.
    + destruct (mem (e0 (fst x)) (map fst reqs)) eqn:M0; [| reflexivity].
      apply mem_In in M0. cbn [andb]. apply HP. apply A. apply in_or_app. left. exact M0.
    + destruct (mem (e1 (fst x)) (map fst reqs)) eqn:M1; [| reflexivity].
      apply mem_In in M1. cbn [andb]. apply HP. apply B. apply in_or_app. left. exact M1.
Qed.
End Replay.

Lemma same_keys_trans g1 g2 g3 : same_keys g1 g2 -> same_keys g2 g3 -> same_keys g1 g3.
Proof.
  unfold same_keys. intros (A1 & A2 & A3 & A4 & A5) (B1 & B2 & B3 & B4 & B5).
  repeat split; congruence.
Qed.

Lemma in_request_names (rest : SplitTable) er n :
  In er rest -> In n (request_names er) -> In n (List.concat (map request_names rest)).
Proof.
  intros Her Hn. apply in_concat. exists (request_names er). split; [| exact Hn].
  apply in_map. exact Her.
Qed.

Lemma NoDup_app_disjoint {A} (l l' : list A) x :
  NoDup (l ++ l') -> In x l -> ~ In x l'.
Proof.
  induction l as [| a t IH]; intros Hnd Hx; [contradiction |].
  simpl in Hnd. inversion Hnd as [| a' t' Ha Ht]; subst.
  destruct Hx as [<- | Hx].
  - intro X. apply Ha. apply in_or_app. right. exact X.
  - apply IH; assumption.
Qed.

Section ReplayLoop.
Context {C : Collaborators}.

(** One entry of the split table spliced in, in the form the loop over the
    entries uses it: the run, the nodes, the edges filtered and appended. *)
Lemma splice_edge_spliced (g : Graph) (eal : list (EdgeKey * Value)) (e : EdgeKey)
        (reqs : list (Name * Q)) (l : LineString) :
  let u := e0 e in
  let v := e1 e in
  let items := sorted_by_distance reqs in
  let pieces := sub_segments l (map snd items) in
  dict_get edge_key_eqb eal e = Some (VLine l) ->
  reqs <> [] ->
  unique (map fst reqs) = true ->
  forallb (has_node g) (u :: v :: map fst reqs) = true ->
  mem u (map fst reqs) = false ->
  mem v (map fst reqs) = false ->
  isolated g (map fst reqs) (u :: v :: map fst reqs) = true ->
  ~ (is_directed g = false /\ is_multigraph g = false /\ u = v /\ List.length reqs = 1) ->
  exists g' new,
    splice_edge eal tt (e, reqs) g = (g', Ok tt)
    /\ Sorted by_distance items
    /\ Permutation items reqs
    /\ nodes g' = nodes g
    /\ edges g' = filter (fun x => negb (same_edge (is_directed g) (fst x) e)) (edges g) ++ new
    /\ List.length new = S (List.length reqs)
    /\ Permutation (map strip new)
                   (map (triple_attrs g) (chain_triples u (map fst items) v pieces))
    /\ same_keys g g'.
Proof.
  intros u v items pieces Hl Hr Hu Hnodes Hmu Hmv Hi Hx.
  pose proof (sorted_by_distance_perm reqs) as P. fold items in P.
  assert (PN : Permutation (map fst items) (map fst reqs)) by (apply Permutation_map; exact P).
  assert (Hlen : List.length (map fst items) = List.length reqs).
  { rewrite length_map. apply Permutation_length. exact P. }
  assert (Hne : map fst items <> []).
  { intro E. rewrite E in Hlen. destruct reqs; [contradiction | discriminate]. }
  assert (Hnd : NoDup (map fst items)).
  { apply (Permutation_NoDup (Permutation_sym PN)). apply unique_NoDup. exact Hu. }
  assert (Hin : forall n, In n (map fst items) -> In n (map fst reqs)).
  { intros n H. apply (Permutation_in _ PN). exact H. }
  assert (Hnu : ~ In u (map fst items)).
  { intro H. apply Hin in H. apply mem_In in H. congruence. }
  assert (Hnv : ~ In v (map fst items)).
  { intro H. apply Hin in H. apply mem_In in H. congruence. }
  set (g0 := if has_edge g e then remove_edge g e else g).
  assert (G0 : nodes g0 = nodes g /\ is_directed g0 = is_directed g
               /\ is_multigraph g0 = is_multigraph g
               /\ edges_geometry_key g0 = edges_geometry_key g
               /\ edges g0 = filter (fun x => negb (same_edge (is_directed g) (fst x) e)) (edges g)).
  { unfold g0. destruct (has_edge g e) eqn:He; repeat split; trivial.
    symmetry. apply (filter_none (fun x => same_edge (is_directed g) (fst x) e)). exact He. }
  destruct G0 as (Gn & Gd & Gm & Gk & Ge).
  assert (Hi0 : isolated g0 (map fst items) (u :: v :: map fst items) = true).
  { apply (isolated_ext g0 (map fst reqs) (u :: v :: map fst reqs)).
    - unfold g0. destruct (has_edge g e); [apply isolated_remove |]; exact Hi.
    - exact Hin.
    - intros n [H | [H | H]]; [left | right; left | right; right; apply Hin]; exact H. }
  assert (Hn0 : forall n, In n (u :: v :: map fst items) -> has_node g0 n = true).
  { intros n H. rewrite (has_node_same_nodes g g0 n Gn).
    rewrite forallb_forall in Hnodes. apply Hnodes.
    destruct H as [H | [H | H]]; [left | right; left | right; right; apply Hin]; exact H. }
  assert (Hpl : List.length pieces = S (List.length (map fst items))).
  { unfold pieces. rewrite sub_segments_length; [rewrite !length_map; reflexivity |].
    intro E. apply Hne. destruct items; [reflexivity | discriminate]. }
  assert (Hx0 : ~ (is_directed g0 = false /\ is_multigraph g0 = false /\ u = v
                   /\ List.length (map fst items) = 1)).
  { rewrite Gd, Gm, Hlen. exact Hx. }
  destruct (fold_code_edges g0 u v (map fst items) pieces Hnd Hnu Hnv Hn0 Hi0 Hx0 Hpl)
    as (new & Hfold & Hstrip).
  destruct (code_triples_chain u (map fst items) v pieces Hne Hpl) as [Pc Lc].
  exists (set_edges g0 (edges g0 ++ new)), new.
  split; [| split; [| split; [| split; [| split; [| split; [| split]]]]]].
  8:{ unfold same_keys. cbn [set_edges is_directed is_multigraph x_key y_key edges_geometry_key].
      unfold g0. destruct (has_edge g e); repeat split. }
  - rewrite (splice_edge_run g eal e reqs l Hl Hr). cbv zeta.
    fold items. fold pieces. fold g0. fold u. fold v. rewrite Hfold. reflexivity.
  - apply sorted_by_distance_sorted.
  - exact P.
  - exact Gn.
  - cbn [edges set_edges]. rewrite Ge. reflexivity.
  - rewrite <- (length_map strip new), Hstrip, length_map.
    rewrite (Permutation_length Pc), Lc, Hlen. reflexivity.
  - rewrite Hstrip.
    assert (Et : forall t, triple_attrs g0 t = triple_attrs g t).
    { intro t. unfold triple_attrs. rewrite Gk. reflexivity. }
    rewrite (map_ext _ _ Et). apply Permutation_map. exact Pc.
Qed.

(** The edges appended for an entry join nodes of its chain, and each has an
    intersection node of the entry at one end. *)
Lemma new_edges_ends g (new : list (EdgeKey * Attrs)) e reqs l :
  reqs <> [] ->
  Permutation (map strip new)
              (map (triple_attrs g)
                   (chain_triples (e0 e) (map fst (sorted_by_distance reqs)) (e1 e)
                                  (sub_segments l (map snd (sorted_by_distance reqs))))) ->
  forall x, In x new ->
    (In (e0 (fst x)) (e0 e :: e1 e :: map fst reqs)
     /\ In (e1 (fst x)) (e0 e :: e1 e :: map fst reqs))
    /\ (In (e0 (fst x)) (map fst reqs) \/ In (e1 (fst x)) (map fst reqs)).
Proof.
  intros Hr Hp x Hx.
  pose proof (sorted_by_distance_perm reqs) as P0.
  assert (PN : Permutation (map fst (sorted_by_distance reqs)) (map fst reqs))
    by (apply Permutation_map; exact P0).
  assert (Hne : map fst (sorted_by_distance reqs) <> []).
  { intro E. apply Permutation_length in PN. rewrite E in PN.
    destruct reqs; [contradiction | discriminate]. }
  assert (Hlen : List.length (sub_segments l (map snd (sorted_by_distance reqs)))
                 = S (List.length (map fst (sorted_by_distance reqs)))).
  { rewrite sub_segments_length; [rewrite !length_map; reflexivity |].
    intro E. apply Hne. destruct (sorted_by_distance reqs); [reflexivity | discriminate]. }
  assert (Hs : In (strip x) (map strip new)) by (apply in_map; exact Hx).
  apply (Permutation_in _ Hp) in Hs. apply in_map_iff in Hs.
  destruct Hs as (t & Et & Ht). unfold strip, triple_attrs in Et.
  injection Et as E0 E1 _.
  destruct (chain_components _ _ _ _ t Hne Hlen Ht) as [[A B] D].
  assert (Hin : forall n, In n (map fst (sorted_by_distance reqs)) -> In n (map fst reqs)).
  { intros n H. apply (Permutation_in _ PN). exact H. }
  assert (Hch : forall n, In n (e0 e :: e1 e :: map fst (sorted_by_distance reqs)) ->
                          In n (e0 e :: e1 e :: map fst reqs)).
  { intros n [H | [H | H]]; [left | right; left | right; right; apply Hin]; exact H. }
  rewrite <- E0, <- E1.
  split; [split; apply Hch; assumption |].
  destruct D as [D | D]; [left | right]; apply Hin; exact D.
Qed.

(** Replaying the split table: every entry is spliced in, its edge filtered
    out and its chain appended; the nodes stay as they are. *)
Lemma splice_loop_edges eal P I : forall rest g,
  replayable eal g rest P I ->
  Forall (fun er => ~ cut_once_loop g er) rest ->
  exists g',
    for_each rest (splice_edge eal) tt g = (g', Ok tt)
    /\ nodes g' = nodes g
    /\ same_keys g g'
    /\ Permutation (map strip (edges g'))
                   (map strip (filter (fun x => negb (is_split g rest x)) (edges g))
                    ++ List.concat (map (chain_of g eal) rest)).
Proof.
  induction rest as [| [e reqs] rest IH]; intros g Hre Hno.
  - exists g. split; [reflexivity |]. split; [reflexivity |].
    split; [apply same_keys_refl |].
    cbn [map List.concat]. rewrite app_nil_r.
    rewrite filter_all by (intros; reflexivity). apply Permutation_refl.
  - destruct (replayable_head eal g e reqs rest P I Hre)
      as ([l Hl] & Hne & Hu & Hnodes & Hmu & Hmv & Hi).
    inversion Hno as [| er ers Hx Hno']; subst.
    destruct (splice_edge_spliced g eal e reqs l Hl Hne Hu Hnodes Hmu Hmv Hi Hx)
      as (g1 & new & Hrun & _ & _ & Hn1 & He1 & _ & Hperm & Hk1).
    pose proof (new_edges_ends g new e reqs l Hne Hperm) as Hends.
    destruct Hre as (K1 & K2 & K3 & K5 & K4).
    inversion K1 as [| er ers _ K1']; subst.
    inversion K2 as [| er ers (_ & Hsub & HuI & HvI & _ & _) K2']; subst.
    cbn [fst snd] in *. unfold request_names in Hsub. cbn [snd] in Hsub.
    cbn [map List.concat] in K3, K4.
    unfold request_names at 1 in K3. cbn [snd] in K3.
    assert (Hrest_I : forall n, In n (List.concat (map request_names rest)) -> In n I).
    { intros n X. apply in_concat in X. destruct X as (l0 & Hl0 & Hin).
      apply in_map_iff in Hl0. destruct Hl0 as (er & <- & Her).
      rewrite Forall_forall in K2'. destruct (K2' er Her) as (_ & S0 & _). apply S0. exact Hin. }
    assert (Hdisj : forall n, In n (e0 e :: e1 e :: map fst reqs) ->
                              ~ In n (List.concat (map request_names rest))).
    { intros n [<- | [<- | X]] Y.
      - apply HuI. apply Hrest_I. exact Y.
      - apply HvI. apply Hrest_I. exact Y.
      - exact (NoDup_app_disjoint _ _ n K3 X Y). }
    destruct Hk1 as (Kd & Km & Kx & Ky & Kg).
    assert (Hre1 : replayable eal g1 rest P I).
    { split; [| split; [exact K2' | split; [exact (NoDup_app_remove_l _ _ K3) |
                                           split; [exact K5 |]]]].
      - eapply Forall_impl; [| exact K1']. intros er.
        apply (request_ok_grow eal g g1 []). rewrite app_nil_r. exact Hn1.
      - intros x Hxin. rewrite He1 in Hxin. apply in_app_iff in Hxin.
        destruct Hxin as [Hxin | Hxin].
        + apply filter_In in Hxin. destruct Hxin as [Hxin _].
          destruct (K4 x Hxin) as [A B]. unfold request_names at 1 in A.
          unfold request_names at 1 in B. cbn [snd] in A, B.
          split; intro X; [apply A | apply B]; apply in_or_app; right; exact X.
        + destruct (Hends x Hxin) as [[A B] _].
          split; intro X; exfalso; [exact (Hdisj _ A X) | exact (Hdisj _ B X)]. }
    assert (Hno1 : Forall (fun er => ~ cut_once_loop g1 er) rest).
    { eapply Forall_impl; [| exact Hno']. intros er H X. apply H.
      unfold cut_once_loop in *. rewrite Kd, Km in X. exact X. }
    destruct (IH g1 Hre1 Hno1) as (g2 & Hrun2 & Hn2 & Hk2 & Hperm2).
    exists g2. split; [| split; [| split]].
    + cbn [for_each]. rewrite (bind_ok _ _ _ _ _ Hrun). exact Hrun2.
    + rewrite Hn2. exact Hn1.
    + apply (same_keys_trans g g1 g2); [repeat split; assumption | exact Hk2].
    + rewrite Hperm2.
      assert (Ef : filter (fun x => negb (is_split g1 rest x)) (edges g1)
                   = filter (fun x => negb (is_split g ((e, reqs) :: rest) x)) (edges g) ++ new).
      { rewrite He1, filter_app, filter_twice. f_equal.
        - apply filter_ext. intro x. unfold is_split. cbn [existsb fst].
          rewrite Kd, negb_orb. reflexivity.
        - apply filter_all. intros x Hxin. apply negb_true_iff.
          unfold is_split. rewrite Kd.
          destruct (existsb _ rest) eqn:Ex; [| reflexivity]. exfalso.
          apply existsb_exists in Ex. destruct Ex as (er & Her & Hs).
          unfold same_edge in Hs. apply andb_true_iff in Hs. destruct Hs as [Hs _].
          rewrite Forall_forall in K2'.
          destruct (K2' er Her) as (_ & _ & HuI' & HvI' & _).
          destruct (Hends x Hxin) as [_ [D | D]]; apply Hsub in D;
            apply same_pair_inv in Hs; destruct Hs as [[E0 E1] | [_ [E0 E1]]];
            congruence. }
      rewrite Ef, map_app.
      assert (Ec : map (chain_of g1 eal) rest = map (chain_of g eal) rest).
      { apply map_ext. intro er. unfold chain_of.
        destruct (dict_get edge_key_eqb eal (fst er)) as [[| | | l'] |]; trivial.
        apply map_ext. intro t. unfold triple_attrs. rewrite Kg. reflexivity. }
      rewrite Ec. cbn [map List.concat]. rewrite <- app_assoc.
      apply Permutation_app_head. apply Permutation_app_tail.
      unfold chain_of. cbn [fst snd]. rewrite Hl. exact Hperm.
Qed.
End ReplayLoop.

Section WholeMerge.
Context {C : Collaborators}.

(** X3: in a merge whose graph is ready for it, the loop over the points leaves
    a split table that the loop over the edges replays entry by entry: it
    always ends without an exception, and unless an entry is a closed edge
    cut once on a graph that is neither directed nor a multigraph, the edges
    afterwards are those the first loop left, less the split ones, with the
    chain of every entry. *)
Theorem split_table_replayed (g : Graph) (points_gdf : GeoDataFrame)
        (merge_direction : string) :
  names_are_new ->
  edges_closed g = true ->
  lines_ready g = true ->
  indexes_ready g points_gdf = true ->
  let eal := get_edge_attributes (edges g) (edges_geometry_key g) in
  exists li g1 ets g',
    get_closest_line_from_points (map row_geometry points_gdf) (map snd eal) = Indexes li
    /\ for_each (combine (seq 0 (List.length points_gdf)) points_gdf)
             (merge_point eal li merge_direction) [] g = (g1, Ok ets)
    /\ for_each ets (splice_edge eal) tt g1 = (g', Ok tt)
    /\ points_merge_body points_gdf merge_direction g = (g', Ok tt)
    /\ nodes g' = nodes g1
    /\ (Forall (fun er => ~ cut_once_loop g er) ets ->
        Permutation (map strip (edges g'))
                    (map strip (filter (fun x => negb (is_split g ets x)) (edges g1))
                     ++ List.concat (map (chain_of g eal) ets))).
Proof.
  intros Hnew Hc Hl Hi eal.
  destruct (batch_closest_edges g points_gdf Hl Hi) as (li & Eli & Hits).
  fold eal in Eli, Hits.
  destruct (points_loop_run g eal li merge_direction Hnew _ g [] [] [] []
              (same_keys_refl g) (eq_sym (app_nil_r _)) Hc (Forall_nil _)
              (placed_start g) Hits)
    as (g1 & ets & chunks & P & I & Hrun & Hk1 & _ & _ & Hets & _ & Hpl).
  destruct (splice_loop_run eal ets g1 Hets) as (g2 & Hrun2 & Hn2).
  exists li, g1, ets, g2. split; [exact Eli |].
  split; [exact Hrun |]. split; [exact Hrun2 |]. split; [| split; [exact Hn2 |]].
  - rewrite (points_merge_body_found g points_gdf merge_direction li Eli).
    fold eal. rewrite (bind_ok _ _ _ _ _ Hrun). exact Hrun2.
  - intro Hno. destruct Hk1 as (Kd & Km & Kx & Ky & Kg).
    assert (Hno1 : Forall (fun er => ~ cut_once_loop g1 er) ets).
    { eapply Forall_impl; [| exact Hno]. intros er H X. apply H.
      unfold cut_once_loop in *. rewrite Kd, Km in X. exact X. }
    destruct (splice_loop_edges eal P I ets g1 (placed_replayable eal g g1 ets P I Hpl Hets) Hno1)
      as (g3 & Hrun3 & _ & _ & Hperm).
    rewrite Hrun2 in Hrun3. injection Hrun3 as <-.
    rewrite Hperm. apply Permutation_app.
    + erewrite filter_ext; [apply Permutation_refl |].
      intro x. unfold is_split. rewrite Kd. reflexivity.
    + erewrite map_ext; [apply Permutation_refl |].
      intro er. unfold chain_of.
      destruct (dict_get edge_key_eqb eal (fst er)) as [[| | | l'] |]; trivial.
      apply map_ext. intro t. unfold triple_attrs. rewrite Kg. reflexivity.
Qed.
End WholeMerge.

(** ** The union step never reaches the caller's graph *)

Lemma graph_nodes_to_gdf_pure {S} G (s : S) : fst (graph_nodes_to_gdf G s) = s.
Proof. unfold graph_nodes_to_gdf. destruct (rows_of_nodes _ _ _); reflexivity. Qed.

Lemma drop_index_pure {S} gdf labels (s : S) : fst (drop_index gdf labels s) = s.
Proof.
  unfold drop_index.
  match goal with |- context [if ?c then _ else _] => destruct c end; reflexivity.
Qed.

Section InPlaceUnion.
Context {C : Collaborators}.

(** In place, whenever [spatial_graph_merge] returns, it returns [None], and
    the graph handed in is what [spatial_points_merge] alone leaves in it
    for the batch of points: the composition went into a new object. *)
Lemma inplace_graph_merge_is_points_merge
      (h : Heap) (base_graph other_graph : Ref) (merge_direction : string)
      (unmerged_nodes merging_nodes : list Name) (r : option Ref) :
  base_graph < next h ->
  let run := spatial_graph_merge base_graph other_graph true merge_direction
                                 unmerged_nodes merging_nodes h in
  snd run = Ok r ->
  r = None
  /\ next (fst run) = S (next h)
  /\ exists nodes_gdf,
      objs (fst run) base_graph
      = fst (points_merge_body nodes_gdf merge_direction (objs h base_graph)).
Proof.
  intros Hb run.
  destruct run as [hf res] eqn:Erun. subst run. cbn [fst snd]. intro Hres. subst res.
  unfold spatial_graph_merge in Erun.
  rewrite !bind_on_self in Erun. rewrite objs_store_same in Erun.
  set (b := objs h base_graph) in *. set (o := objs h other_graph) in *.
  set (h2 := store (store h base_graph b) other_graph o) in *.
  assert (Hh2 : next h2 = next h /\ forall r, objs h2 r = objs h r).
  { split; [reflexivity |]. intro r0. simpl.
    destruct (Nat.eqb_spec r0 other_graph) as [-> |]; [reflexivity |].
    destruct (Nat.eqb_spec r0 base_graph) as [-> |]; reflexivity. }
  destruct Hh2 as [Hnext Hobjs].
  destruct (negb (Bool.eqb (is_directed b) (is_directed o))); [discriminate |].
  destruct (negb (Bool.eqb (is_multigraph b) (is_multigraph o))); [discriminate |].
  destruct ((0 <? List.length unmerged_nodes) && (0 <? List.length merging_nodes));
    [discriminate |].
  unfold bind at 1 in Erun.
  match type of Erun with context [?m h2] =>
    match type of m with SE Heap GeoDataFrame =>
      assert (Hpure : forall s, fst (m s) = s) end end.
  { intro s. destruct (0 <? List.length merging_nodes).
    - apply graph_nodes_to_gdf_pure.
    - unfold bind. pose proof (graph_nodes_to_gdf_pure o s) as E.
      destruct (graph_nodes_to_gdf o s) as [s' [rs | e]]; simpl in E; subst s'.
      + apply drop_index_pure.
      + reflexivity. }
  match type of Erun with context [match ?m h2 with _ => _ end] =>
    specialize (Hpure h2); destruct (m h2) as [h3 [gdf |]] end; [| discriminate].
  simpl in Hpure. subst h3. cbn [negb] in Erun.
  unfold bind at 1 in Erun. unfold bind at 1 in Erun.
  unfold spatial_points_merge in Erun. cbn [negb] in Erun.
  unfold bind at 1 in Erun. unfold ret at 1 in Erun. unfold bind at 1 in Erun.
  unfold on at 1 in Erun. rewrite Hobjs in Erun. fold b in Erun.
  destruct (points_merge_body gdf merge_direction b) as [g' [[] | e]] eqn:Eb;
    [| discriminate].
  unfold ret at 1 in Erun. unfold ret at 1 in Erun.
  unfold bind at 1 in Erun. unfold compose in Erun. rewrite !bind_on_self in Erun.
  match type of Erun with context [if ?c then _ else _] => destruct c end; [| discriminate].
  unfold alloc, ret in Erun. cbn [negb] in Erun. injection Erun as Ehf Er. subst hf r.
  split; [reflexivity |]. split; [reflexivity |].
  exists gdf. fold b. rewrite Eb. cbn [fst objs store next].
  assert (E1 : (base_graph =? next h) = false) by (apply Nat.eqb_neq; lia).
  rewrite E1.
  destruct (Nat.eqb_spec base_graph other_graph) as [E |].
  - subst other_graph. rewrite !Nat.eqb_refl. reflexivity.
  - rewrite !Nat.eqb_refl. reflexivity.
Qed.
End InPlaceUnion.

(** ** The kind of the graph and its attribute keys are never written *)

Lemma same_keys_sym g g' : same_keys g g' -> same_keys g' g.
Proof.
  unfold same_keys. intros (A1 & A2 & A3 & A4 & A5). repeat split; congruence.
Qed.

Lemma kk_ret {A} (a : A) : keeps_keys (ret a).
Proof. intro g. apply same_keys_refl. Qed.

Lemma kk_raise {A} (e : Exn) : keeps_keys (@raise Graph A e).
Proof. intro g. apply same_keys_refl. Qed.

Lemma kk_self : keeps_keys self.
Proof. intro g. apply same_keys_refl. Qed.

Lemma kk_lookup {A} (o : option A) (e : Exn) : keeps_keys (lookup o e).
Proof. intro g. destruct o; apply same_keys_refl. Qed.

Lemma kk_mutate (f : Graph -> Graph) :
  (forall g, same_keys g (f g)) -> keeps_keys (mutate f).
Proof. intros H g. apply H. Qed.

Lemma kk_bind {A B} (m : GM A) (f : A -> GM B) :
  keeps_keys m -> (forall a, keeps_keys (f a)) -> keeps_keys (bind m f).
Proof.
  intros Hm Hf g. unfold bind. specialize (Hm g).
  destruct (m g) as [g1 [a | e]]; cbn [fst] in *; [| exact Hm].
  apply (same_keys_trans g g1); [exact Hm | apply Hf].
Qed.

Lemma kk_for_each {A S} (xs : list A) (body : S -> A -> GM S) :
  (forall acc x, keeps_keys (body acc x)) -> forall acc, keeps_keys (for_each xs body acc).
Proof.
  intro Hb. induction xs as [| x t IH]; intro acc; cbn [for_each].
  - apply kk_ret.
  - apply kk_bind; [apply Hb | intro; apply IH].
Qed.

Lemma kk_as_float v : keeps_keys (as_float v).
Proof. destruct v; first [apply kk_ret | apply kk_raise]. Qed.

Lemma kk_as_line v : keeps_keys (as_line v).
Proof. destruct v; first [apply kk_ret | apply kk_raise]. Qed.

Lemma add_node_keys g n a : same_keys g (add_node g n a).
Proof. unfold add_node. destruct (node_get g n); repeat split. Qed.

Lemma ensure_node_keys g n : same_keys g (ensure_node g n).
Proof. unfold ensure_node. destruct (has_node g n); repeat split. Qed.

Lemma put_edge_keys g u v key a : same_keys g (put_edge g u v key a).
Proof.
  unfold put_edge. destruct (dict_get _ _ _); repeat split.
Qed.

Lemma add_edge_keys g u v a : same_keys g (add_edge g u v a).
Proof.
  unfold add_edge.
  apply (same_keys_trans g (ensure_node (ensure_node g u) v)); [| apply put_edge_keys].
  apply (same_keys_trans g (ensure_node g u)); apply ensure_node_keys.
Qed.

Lemma add_edge_keyed_keys g u v key a : same_keys g (add_edge_keyed g u v key a).
Proof.
  unfold add_edge_keyed.
  apply (same_keys_trans g (ensure_node (ensure_node g u) v)); [| apply put_edge_keys].
  apply (same_keys_trans g (ensure_node g u)); apply ensure_node_keys.
Qed.

Lemma remove_edge_keys g e : same_keys g (remove_edge g e).
Proof. repeat split. Qed.

Create HintDb kkdb.

#[local] Hint Resolve add_node_keys add_edge_keys remove_edge_keys : kkdb.

Ltac kk_step :=
  first
    [ solve [auto 1 with kkdb nocore]
    | apply kk_ret | apply kk_raise | apply kk_self | apply kk_lookup
    | apply kk_as_float | apply kk_as_line
    | apply kk_mutate; intro; cbv beta; solve [auto 1 with kkdb nocore]
    | apply kk_bind; [| intro]
    | apply kk_for_each; intros ].

Ltac kk := repeat (kk_step || match goal with
                               | |- keeps_keys (if ?b then _ else _) => destruct b
                               end).

Lemma kk_node_attr n k : keeps_keys (node_attr n k).
Proof. unfold node_attr. kk. Qed.
#[local] Hint Resolve kk_node_attr : kkdb.

Lemma kk_node_point n : keeps_keys (node_point n).
Proof. unfold node_point. kk. Qed.
#[local] Hint Resolve kk_node_point : kkdb.

Lemma kk_edge_data a b : keeps_keys (edge_data a b).
Proof. unfold edge_data, get_node_coordinates, segment. kk. Qed.
#[local] Hint Resolve kk_edge_data : kkdb.

Lemma kk_searched r : keeps_keys (searched r).
Proof. unfold searched. destruct r; kk. Qed.
#[local] Hint Resolve kk_searched : kkdb.

Section KeepsKeys.
Context {C : Collaborators}.

Lemma kk_connect dir p i : keeps_keys (connect dir p i).
Proof. unfold connect. kk. Qed.
#[local] Hint Resolve kk_connect : kkdb.

Lemma kk_place_intersection ets e l idx pt : keeps_keys (place_intersection ets e l idx pt).
Proof. unfold place_intersection, closest_extremity. kk. Qed.
#[local] Hint Resolve kk_place_intersection : kkdb.

Lemma kk_merge_point eal li dir ets it : keeps_keys (merge_point eal li dir ets it).
Proof. unfold merge_point. kk. Qed.
#[local] Hint Resolve kk_merge_point : kkdb.

Lemma kk_splice_edge eal u it : keeps_keys (splice_edge eal u it).
Proof.
  unfold splice_edge, cut_initial_line, add_intermediary, add_line_edge. kk.
Qed.
#[local] Hint Resolve kk_splice_edge : kkdb.

Lemma kk_points_merge_body gdf dir : keeps_keys (points_merge_body gdf dir).
Proof. unfold points_merge_body. kk. Qed.
End KeepsKeys.

(** ** The merge direction on an undirected graph *)

(** Two continuations that agree on undirected graphs agree after a body
    that keeps the kind of the graph. *)
Lemma bind_undirected {A B} (m : GM A) (f f' : A -> GM B) g :
  keeps_keys m ->
  (forall a g', is_directed g' = false -> f a g' = f' a g') ->
  is_directed g = false ->
  bind m f g = bind m f' g.
Proof.
  intros Hm Hf Hd. unfold bind. specialize (Hm g).
  destruct (m g) as [g1 [a | e]]; cbn [fst] in Hm; [| reflexivity].
  apply Hf. destruct Hm as (Kd & _). congruence.
Qed.

Section Direction.
Context {C : Collaborators}.

Lemma connect_undirected d1 d2 p i g :
  is_directed g = false -> connect d1 p i g = connect d2 p i g.
Proof.
  intro Hd. unfold connect.
  apply bind_undirected; [apply kk_edge_data | | exact Hd].
  intros data g1 H1. unfold bind, self. cbv beta iota. rewrite H1. reflexivity.
Qed.

Lemma merge_point_undirected eal li d1 d2 ets it g :
  is_directed g = false ->
  merge_point eal li d1 ets it g = merge_point eal li d2 ets it g.
Proof.
  intro Hd. unfold merge_point.
  apply bind_undirected; [apply kk_self | | exact Hd]. intros g0 g1 H1.
  apply bind_undirected; [apply kk_mutate; intro; apply add_node_keys | | exact H1].
  intros _ g2 H2.
  apply bind_undirected; [apply kk_lookup | | exact H2]. intros i g3 H3.
  apply bind_undirected; [apply kk_lookup | | exact H3]. intros e g4 H4.
  apply bind_undirected; [apply kk_lookup | | exact H4]. intros v g5 H5.
  apply bind_undirected; [apply kk_as_line | | exact H5]. intros l g6 H6.
  apply bind_undirected; [apply kk_place_intersection | | exact H6]. intros r g7 H7.
  unfold bind. rewrite (connect_undirected d1 d2 _ _ g7 H7). reflexivity.
Qed.

Lemma points_loop_undirected eal li d1 d2 : forall its ets g,
  is_directed g = false ->
  for_each its (merge_point eal li d1) ets g = for_each its (merge_point eal li d2) ets g.
Proof.
  induction its as [| it rest IH]; intros ets g Hd; [reflexivity |].
  cbn [for_each].
  rewrite (bind_undirected _ _ (fun acc' => for_each rest (merge_point eal li d2) acc') g
                           (kk_merge_point eal li d1 ets it)); [| | exact Hd].
  - unfold bind. rewrite (merge_point_undirected eal li d1 d2 ets it g Hd). reflexivity.
  - intros acc g1 H1. apply IH. exact H1.
Qed.

(** X1: on an undirected graph [merge_direction] is never looked at: two
    calls of [spatial_points_merge] that differ in it only leave the same
    objects and end the same way, with the same result or the same
    exception, whatever the graph and the batch of points are. *)
Theorem undirected_merge_ignores_direction
        (h : Heap) (graph : Ref) (points_gdf : GeoDataFrame) (inplace : bool)
        (d1 d2 : string) :
  is_directed (objs h graph) = false ->
  spatial_points_merge graph points_gdf inplace d1 h
  = spatial_points_merge graph points_gdf inplace d2 h.
Proof.
  intro Hd.
  assert (Hbody : forall g, is_directed g = false ->
                            points_merge_body points_gdf d1 g = points_merge_body points_gdf d2 g).
  { intros g Hg.
    destruct (get_closest_line_from_points
                (map row_geometry points_gdf)
                (map snd (get_edge_attributes (edges g) (edges_geometry_key g))))
      as [li | msg] eqn:E.
    - rewrite !(points_merge_body_found g points_gdf _ li E).
      unfold bind. rewrite (points_loop_undirected _ _ d1 d2 _ [] g Hg). reflexivity.
    - rewrite !(points_merge_body_search_error g points_gdf _ msg E). reflexivity. }
  unfold spatial_points_merge. destruct inplace; cbn [negb].
  - unfold bind, ret, on. cbv beta iota. rewrite (Hbody _ Hd). reflexivity.
  - unfold copy, bind, on, self, alloc. cbv beta iota. cbn [objs store].
    rewrite !Nat.eqb_refl. rewrite (Hbody _ Hd). reflexivity.
Qed.
End Direction.

(** ** An exception in the loop over the points *)

Lemma bind_raise {S A B} (m : SE S A) (f : A -> SE S B) s s' e :
  m s = (s', Raise e) -> bind m f s = (s', Raise e).
Proof. intro H. unfold bind. rewrite H. reflexivity. Qed.

(** [graph.nodes[n][k]] on a node that has no attribute [k]. *)
Lemma node_attr_missing g n k a :
  node_get g n = Some a -> attr_get a k = None -> node_attr n k g = (g, Raise KeyError).
Proof.
  intros Hn Hk. unfold node_attr, bind, self, lookup. rewrite Hn. unfold ret.
  rewrite Hk. reflexivity.
Qed.

Lemma node_point_missing g n a :
  node_get g n = Some a ->
  attr_get a (x_key g) = None \/ attr_get a (y_key g) = None ->
  node_point n g = (g, Raise KeyError).
Proof.
  intros Hn Hk. unfold node_point. unfold bind at 1. unfold self at 1.
  destruct (attr_get a (x_key g)) as [vx |] eqn:Ex.
  - destruct Hk as [Hk | Hk]; [discriminate |].
    rewrite (bind_ok _ _ _ _ _ (node_attr_run g n _ a _ Hn Ex)).
    apply bind_raise. apply (node_attr_missing g n _ a Hn Hk).
  - apply bind_raise. apply (node_attr_missing g n _ a Hn Ex).
Qed.

Section PartialMerge.
Context {C : Collaborators}.

(** X2: when the nearest-line search returns and the first point of the batch snaps to an extremity of its
    closest edge and the first node of that edge has no x or no y
    coordinate, [spatial_points_merge] raises [KeyError] at once (the later
    points are not looked at) and the graph it works on is not restored:
    it keeps the node added for the point, joined to nothing. *)
Theorem snap_without_coordinates_keeps_point_node
        (g : Graph) (row : Row) (rest : GeoDataFrame) (merge_direction : string)
        (li : list nat) (e : EdgeKey) (l : LineString) (a : Attrs) :
  let eal := get_edge_attributes (edges g) (edges_geometry_key g) in
  let name := get_new_node_unique_name g (row_index row) in
  get_closest_line_from_points (map row_geometry (row :: rest)) (map snd eal) = Indexes li ->
  has_node g name = false ->
  closest_edge eal li 0 = Some (e, l) ->
  interior l (row_geometry row) = false ->
  node_get g (e0 e) = Some a ->
  attr_get a (x_key g) = None \/ attr_get a (y_key g) = None ->
  points_merge_body (row :: rest) merge_direction g
  = (set_nodes g (nodes g ++ [(name, position_info g (row_cells row) (row_geometry row))]),
     Raise KeyError).
Proof.
  intros eal name Eli Hn He Hin Ha Hk.
  rewrite (points_merge_body_found g (row :: rest) merge_direction li Eli). fold eal.
  apply bind_raise. cbn [List.length seq combine for_each]. apply bind_raise.
  rewrite (merge_point_prefix g eal li merge_direction [] 0 row e l He). cbv zeta.
  fold name. rewrite (add_node_new g name _ Hn).
  set (g1 := set_nodes g _).
  apply bind_raise. unfold place_intersection. unfold interior in Hin. rewrite Hin.
  apply bind_raise. unfold closest_extremity. apply bind_raise.
  apply (node_point_missing g1 (e0 e) a); [| exact Hk].
  unfold g1. rewrite node_get_grow, Ha. reflexivity.
Qed.
End PartialMerge.

(** ** Readiness, edge by edge *)

Lemma get_edge_attributes_In es name k v :
  In (k, v) (get_edge_attributes es name) <->
  exists a, In (k, a) es /\ attr_get a name = Some v.
Proof.
  induction es as [| [k0 a0] t IH]; simpl.
  - split; [contradiction | intros (a & [] & _)].
  - destruct (attr_get a0 name) as [v0 |] eqn:E.
    + simpl. rewrite IH. split.
      * intros [H | (a & Hin & Ha)].
        -- inversion H. subst. exists a0. auto.
        -- exists a. auto.
      * intros (a & [H | Hin] & Ha).
        -- inversion H. subst. left. congruence.
        -- right. exists a. auto.
    + rewrite IH. split.
      * intros (a & Hin & Ha). exists a. auto.
      * intros (a & [H | Hin] & Ha).
        -- inversion H. subst. congruence.
        -- exists a. auto.
Qed.

Lemma ready_edges_iff g :
  edges_closed g = true /\ lines_ready g = true <-> Forall (ready_edge g) (edges g).
Proof.
  unfold edges_closed, lines_ready. rewrite !forallb_forall, Forall_forall. split.
  - intros [Hc Hl] x Hx. specialize (Hc x Hx). apply andb_true_iff in Hc.
    destruct Hc as [C0 C1]. split; [exact C0 |]. split; [exact C1 |].
    intros v Hv.
    assert (Hin : In (fst x, v) (get_edge_attributes (edges g) (edges_geometry_key g))).
    { apply get_edge_attributes_In. exists (snd x). destruct x. auto. }
    specialize (Hl _ Hin). cbn [fst snd] in Hl.
    apply andb_true_iff in Hl. destruct Hl as [Hl L1].
    apply andb_true_iff in Hl. destruct Hl as [Hl L0]. auto.
  - intro H. split.
    + intros x Hx. destruct (H x Hx) as (C0 & C1 & _). rewrite C0, C1. reflexivity.
    + intros [k v] Hin. apply get_edge_attributes_In in Hin.
      destruct Hin as (a & Hin & Ha).
      destruct (H _ Hin) as (_ & _ & R). destruct (R v Ha) as (R1 & R2 & R3).
      cbn [fst snd] in *. rewrite R1, R2, R3. reflexivity.
Qed.

Lemma is_located_same g0 g added n :
  same_keys g0 g -> nodes g = nodes g0 ++ added ->
  is_located g0 n = true -> is_located g n = true.
Proof.
  intros Hk Hn H. unfold is_located in *.
  destruct (located g0 n) as [pt |] eqn:E; [| discriminate].
  rewrite (located_same g0 g added n pt Hk Hn E). reflexivity.
Qed.

Lemma is_located_has_node g n : is_located g n = true -> has_node g n = true.
Proof.
  unfold is_located. destruct (located g n) as [pt |] eqn:E; [| discriminate].
  intros _. apply (located_has_node g n pt E).
Qed.

Lemma ready_edge_grow g0 g added x :
  same_keys g0 g -> nodes g = nodes g0 ++ added -> ready_edge g0 x -> ready_edge g x.
Proof.
  intros Hk Hn (C0 & C1 & R).
  split; [apply (has_node_app g0 g added _ Hn C0) |].
  split; [apply (has_node_app g0 g added _ Hn C1) |].
  intros v Hv. destruct Hk as (Kd & Km & Kx & Ky & Kg). rewrite Kg in Hv.
  destruct (R v Hv) as (R1 & R2 & R3).
  assert (Hk' : same_keys g0 g) by (repeat split; assumption).
  split; [exact R1 |]. split; apply (is_located_same g0 g added _ Hk' Hn); assumption.
Qed.

(** ** What the loop over the points leaves, edge by edge *)

Lemma record_split_keys ets e i d e' :
  In e' (map fst (record_split ets e i d)) <-> e' = e \/ In e' (map fst ets).
Proof.
  induction ets as [| [k m] t IH].
  - simpl. intuition.
  - rewrite record_split_cons. destruct (edge_key_eqb k e) eqn:E.
    + apply edge_key_eqb_eq in E. subst k. simpl. intuition.
    + simpl. rewrite IH. intuition.
Qed.

Lemma request_located_grow eal g g' extra er :
  same_keys g g' -> nodes g' = nodes g ++ extra ->
  request_located eal g er -> request_located eal g' er.
Proof.
  intros Hk Hn (Hl & L0 & L1 & Lr).
  split; [exact Hl |].
  split; [apply (is_located_same g g' extra _ Hk Hn L0) |].
  split; [apply (is_located_same g g' extra _ Hk Hn L1) |].
  eapply Forall_impl; [| exact Lr]. intros nd. apply (is_located_same g g' extra _ Hk Hn).
Qed.

Lemma record_split_located eal g ets e l i d :
  Forall (request_located eal g) ets ->
  dict_get edge_key_eqb eal e = Some (VLine l) ->
  is_located g (e0 e) = true -> is_located g (e1 e) = true -> is_located g i = true ->
  Forall (request_located eal g) (record_split ets e i d).
Proof.
  intros Hets Hl L0 L1 Li. apply record_split_entries; [exact Hets |].
  intros m Hm. split; [exists l; exact Hl |]. split; [exact L0 |]. split; [exact L1 |].
  cbn [snd].
  apply (dict_set_Forall String.eqb (fun nd => is_located g (fst nd) = true)).
  - destruct Hm as [-> | (k & Hin & Hk)]; [constructor |].
    rewrite Forall_forall in Hets. destruct (Hets _ Hin) as (_ & _ & _ & Lr). exact Lr.
  - intros k' Hk'. apply String.eqb_eq in Hk'. subst k'. exact Li.
  - exact Li.
Qed.

Lemma links_ready g g' dir p t pp pc x :
  same_keys g g' ->
  located g' p = Some pp -> located g' t = Some pc ->
  In x (links g dir p t pp pc) -> ready_edge g' x.
Proof.
  intros Hk Lp Lt Hx.
  assert (Hloc : forall n, n = p \/ n = t -> is_located g' n = true).
  { intros n [-> | ->]; unfold is_located; [rewrite Lp | rewrite Lt]; reflexivity. }
  destruct (links_ends _ _ _ _ _ _ _ Hx) as [E0 E1].
  split; [apply is_located_has_node; apply Hloc; exact E0 |].
  split; [apply is_located_has_node; apply Hloc; exact E1 |].
  intros v Hv. split; [| split; apply Hloc; assumption].
  destruct Hk as (_ & _ & _ & _ & Kg). rewrite Kg in Hv.
  unfold links, line_edge in Hx.
  destruct (is_directed g);
    [destruct (String.eqb dir "both"); [| destruct (String.eqb dir "in")] |];
    simpl in Hx; intuition; subst x; cbn [snd] in Hv; unfold attr_get in Hv; simpl in Hv;
    rewrite String.eqb_refl in Hv; inversion Hv; reflexivity.
Qed.

Lemma links_length g dir p t pp pc :
  List.length (links g dir p t pp pc) = links_per_point (is_directed g) dir.
Proof.
  unfold links, links_per_point.
  destruct (is_directed g); [destruct (String.eqb dir "both");
                             [| destruct (String.eqb dir "in")] |]; reflexivity.
Qed.

Lemma record_split_keys_NoDup ets e i d :
  NoDup (map fst ets) -> NoDup (map fst (record_split ets e i d)).
Proof.
  induction ets as [| [k m] t IH]; intro H.
  - simpl. constructor; [intros [] | constructor].
  - rewrite record_split_cons. cbn [map fst] in H. inversion H as [| k' t' Hk Ht]; subst.
    destruct (edge_key_eqb k e) eqn:E.
    + cbn [map fst]. constructor; assumption.
    + cbn [map fst]. constructor; [| apply IH; exact Ht].
      rewrite record_split_keys. intros [-> | X]; [| contradiction].
      rewrite edge_key_eqb_refl in E. discriminate.
Qed.

Lemma request_located_names eal g ets n :
  Forall (request_located eal g) ets ->
  In n (List.concat (map request_names ets)) -> has_node g n = true.
Proof.
  intros Hets Hn. apply in_concat in Hn. destruct Hn as (l & Hl & Hn).
  apply in_map_iff in Hl. destruct Hl as (er & <- & Her).
  rewrite Forall_forall in Hets. destruct (Hets er Her) as (_ & _ & _ & Lr).
  unfold request_names in Hn. apply in_map_iff in Hn. destruct Hn as (nd & <- & Hnd).
  rewrite Forall_forall in Lr. apply is_located_has_node. apply Lr. exact Hnd.
Qed.

Section Shape.
Context {C : Collaborators}.

(** The loop over the points appends nodes and edges and nothing else: the
    edges it adds are ready for a later merge, the requests it records are
    for nodes with coordinates, and an edge has a request exactly when a
    point of the batch projects strictly inside its line. *)
Lemma points_loop_shape (g0 : Graph) eal li dir :
  names_are_new ->
  forall its g ets added,
    same_keys g0 g -> nodes g = nodes g0 ++ added ->
    edges_closed g = true ->
    Forall (request_located eal g) ets ->
    Forall (fun it => exists e l p1 p2,
                closest_edge eal li (fst it) = Some (e, l)
                /\ located g0 (e0 e) = Some p1 /\ located g0 (e1 e) = Some p2) its ->
    exists g' ets' N L,
      for_each its (merge_point eal li dir) ets g = (g', Ok ets')
      /\ same_keys g0 g'
      /\ nodes g' = nodes g ++ N
      /\ edges g' = edges g ++ L
      /\ Forall (ready_edge g') L
      /\ Forall (request_located eal g') ets'
      /\ (forall e, In e (map fst ets') <->
                    In e (map fst ets)
                    \/ exists it l, In it its /\ closest_edge eal li (fst it) = Some (e, l)
                                    /\ interior l (row_geometry (snd it)) = true)
      /\ Forall (fun x => has_node g0 (e0 (fst x)) = false
                          \/ has_node g0 (e1 (fst x)) = false) L
      /\ (NoDup (map fst ets) -> NoDup (map fst ets'))
      /\ exists m,
          m <= List.length its
          /\ List.length N = List.length its + m
          /\ List.length L = links_per_point (is_directed g0) dir * List.length its
          /\ List.length (List.concat (map request_names ets'))
             = List.length (List.concat (map request_names ets)) + m.
Proof.
  intros Hnew its. induction its as [| [p row] rest IH];
    intros g ets added Hk Hn Hc Hets Hits.
  - exists g, ets, [], []. cbn [for_each]. rewrite !app_nil_r.
    split; [reflexivity |]. split; [exact Hk |]. split; [reflexivity |].
    split; [reflexivity |]. split; [constructor |]. split; [exact Hets |].
    split.
    { intro e. split; [intro H; left; exact H |].
      intros [H | (it & l & [] & _)]. exact H. }
    split; [constructor |]. split; [auto |].
    exists 0. cbn [List.length]. repeat split; lia.
  - inversion Hits as [| it its' (e & l & p1 & p2 & He & L1 & L2) Hrest]; subst.
    cbn [fst] in He.
    pose proof (located_same g0 g added _ _ Hk Hn L1) as L1'.
    pose proof (located_same g0 g added _ _ Hk Hn L2) as L2'.
    destruct (merge_point_run g eal li dir ets p row e l p1 p2
                (Hnew g _) (Hnew _ _) Hc He L1' L2')
      as (g1 & ets1 & t & extra & pp & pc & Hrun & Eg & Hnodes & Hedges & _ & Lp & Lc
          & Hint & Hsnap).
    set (name := get_new_node_unique_name g (row_index row)) in *.
    set (info := position_info g (row_cells row) (row_geometry row)) in *.
    assert (Hgg1 : same_keys g g1) by (rewrite Eg; repeat split).
    assert (Hk1 : same_keys g0 g1) by (apply (same_keys_trans g0 g g1); assumption).
    assert (Hl1 : Forall (ready_edge g1) (links g dir name t pp pc)).
    { apply Forall_forall. intros x Hx. apply (links_ready g g1 dir name t pp pc x); assumption. }
    assert (Hc1 : edges_closed g1 = true).
    { apply (edges_closed_step g g1 _ _ Hc Hnodes Hedges).
      intros x Hx. rewrite Forall_forall in Hl1. destruct (Hl1 x Hx) as (A & B & _). auto. }
    assert (Hgrow : Forall (request_located eal g1) ets).
    { eapply Forall_impl; [| exact Hets]. intros er.
      apply (request_located_grow eal g g1 _ er Hgg1 Hnodes). }
    assert (Hp0 : has_node g0 name = false).
    { apply (has_node_false_app g0 g added name Hn). apply Hnew. }
    assert (Hcount : (NoDup (map fst ets) -> NoDup (map fst ets1))
                     /\ exists m1, m1 <= 1 /\ List.length extra = m1
                                   /\ List.length (List.concat (map request_names ets1))
                                      = List.length (List.concat (map request_names ets)) + m1).
    { destruct (interior l (row_geometry row)) eqn:Ei.
      - destruct (Hint eq_refl) as (_ & -> & ->). split; [apply record_split_keys_NoDup |].
        exists 1. split; [lia |]. split; [reflexivity |].
        pose proof (Hnew (set_nodes g (nodes g ++ [(name, info)]))
                         (String.append INTERSECTION_PREFIX (row_index row))) as Z.
        set (i := get_new_node_unique_name (set_nodes g (nodes g ++ [(name, info)])) _) in *.
        assert (Hfresh : ~ In i (List.concat (map request_names ets))).
        { intro X. pose proof (request_located_names eal g ets i Hets X) as Y.
          rewrite (has_node_grow g _ i Y) in Z. discriminate. }
        rewrite (Permutation_length (record_split_names ets e i _ Hfresh)). simpl. lia.
      - destruct (Hsnap eq_refl) as (_ & -> & ->). split; [auto |].
        exists 0. split; [lia |]. split; [reflexivity | lia]. }
    destruct Hcount as (Hnd1 & m1 & Hm1 & Hextra & Hnames1).
    assert (Hets1 : Forall (request_located eal g1) ets1
                    /\ (forall e', In e' (map fst ets1) <->
                                   In e' (map fst ets)
                                   \/ (e' = e /\ interior l (row_geometry row) = true))).
    { destruct (interior l (row_geometry row)) eqn:Ei.
      - destruct (Hint eq_refl) as (Et & _ & ->). split.
        + apply (record_split_located eal g1 ets e l).
          * exact Hgrow.
          * apply (closest_edge_line eal li p). exact He.
          * apply (is_located_same g g1 _ _ Hgg1 Hnodes). unfold is_located. rewrite L1'.
            reflexivity.
          * apply (is_located_same g g1 _ _ Hgg1 Hnodes). unfold is_located. rewrite L2'.
            reflexivity.
          * rewrite <- Et. unfold is_located. rewrite Lc. reflexivity.
        + intro e'. rewrite record_split_keys. intuition.
      - destruct (Hsnap eq_refl) as (_ & _ & ->). split; [exact Hgrow |].
        intro e'. intuition. discriminate. }
    destruct Hets1 as [Hets1 Hkeys1].
    assert (Hn1 : nodes g1 = nodes g0 ++ (added ++ (name, info) :: extra)).
    { rewrite Hnodes, Hn, <- app_assoc. reflexivity. }
    destruct (IH g1 ets1 _ Hk1 Hn1 Hc1 Hets1 Hrest)
      as (g2 & ets2 & N2 & L2x & Hrun2 & Hk2 & Hn2 & He2 & Hr2 & Hets2 & Hkeys2
          & Hnew2 & Hnd2 & m2 & Hm2 & HN2 & HL2 & Hnames2).
    exists g2, ets2, (((name, info) :: extra) ++ N2), (links g dir name t pp pc ++ L2x).
    split; [| split; [| split; [| split; [| split; [| split; [| split; [| split; [| split]]]]]]]];
      trivial.
    + cbn [for_each]. rewrite (bind_ok _ _ _ _ _ Hrun). exact Hrun2.
    + rewrite Hn2, Hnodes, <- app_assoc. reflexivity.
    + rewrite He2, Hedges, <- app_assoc. reflexivity.
    + apply Forall_app. split; [| exact Hr2].
      eapply Forall_impl; [| exact Hl1]. intros x.
      apply (ready_edge_grow g1 g2 N2 x); [| exact Hn2].
      apply (same_keys_trans g1 g0 g2); [apply same_keys_sym; exact Hk1 | exact Hk2].
    + intro e'. rewrite Hkeys2, Hkeys1. split.
      * intros [[H | [-> Hi]] | (it & l' & Hin & Hce & Hi)].
        -- left. exact H.
        -- right. exists (p, row), l. split; [left; reflexivity |]. auto.
        -- right. exists it, l'. split; [right; exact Hin |]. auto.
      * intros [H | (it & l' & [<- | Hin] & Hce & Hi)].
        -- left. left. exact H.
        -- cbn [fst snd] in Hce, Hi. rewrite He in Hce. inversion Hce. subst.
           left. right. auto.
        -- right. exists it, l'. auto.
    + apply Forall_app. split; [| exact Hnew2].
      apply Forall_forall. intros x Hx.
      destruct (links_joins _ _ _ _ _ _ _ Hx) as [[E _] | [_ E]]; rewrite E; auto.
    + intro H. apply Hnd2. apply Hnd1. exact H.
    + exists (m1 + m2). cbn [List.length]. rewrite !length_app, links_length. cbn [List.length].
      destruct Hk as (Kd & _). rewrite Kd.
      split; [lia |]. split; [lia |]. split; [lia |]. lia.
Qed.
End Shape.

(** ** What the loop over the edges to split leaves alone *)

Lemma same_pair_trans d a b c e u v :
  same_pair d a b c e = true -> same_pair d c e u v = true -> same_pair d a b u v = true.
Proof.
  unfold same_pair. intros H1 H2.
  repeat match goal with
         | H : (_ || _) = true |- _ => apply orb_true_iff in H; destruct H as [H | H]
         | H : (_ && _) = true |- _ => apply andb_true_iff in H; destruct H
         | H : String.eqb _ _ = true |- _ => apply String.eqb_eq in H
         | H : negb _ = true |- _ => apply negb_true_iff in H
         end; subst; rewrite ?String.eqb_refl, ?orb_true_r; cbn; trivial.
Qed.

Lemma same_edge_trans d x y z :
  same_edge d x y = true -> same_edge d y z = true -> same_edge d x z = true.
Proof.
  unfold same_edge. intros H1 H2.
  apply andb_true_iff in H1. destruct H1 as [P1 K1].
  apply andb_true_iff in H2. destruct H2 as [P2 K2].
  rewrite (same_pair_trans d _ _ _ _ _ _ P1 P2).
  apply Nat.eqb_eq in K1. apply Nat.eqb_eq in K2. rewrite K1, K2, Nat.eqb_refl. reflexivity.
Qed.

Lemma same_edge_sym d x y : same_edge d x y = same_edge d y x.
Proof.
  unfold same_edge. rewrite (same_pair_sym d (e0 x)), (Nat.eqb_sym (ekey x)). reflexivity.
Qed.

Lemma dict_set_In_other {K V} (eqb : K -> K -> bool) (d : list (K * V)) k v x :
  In x d -> eqb (fst x) k = false -> In x (dict_set eqb d k v).
Proof.
  induction d as [| [k0 v0] t IH]; intros Hin Hk; [contradiction |].
  simpl. destruct (eqb k0 k) eqn:E.
  - destruct Hin as [<- | Hin]; [cbn [fst] in Hk; congruence | right; exact Hin].
  - destruct Hin as [<- | Hin]; [left; reflexivity | right; auto].
Qed.

Lemma dict_set_found_keys {K V} (eqb : K -> K -> bool) (d : list (K * V)) k v old :
  dict_get eqb d k = Some old -> map fst (dict_set eqb d k v) = map fst d.
Proof.
  induction d as [| [k0 v0] t IH]; [discriminate |].
  simpl. destruct (eqb k0 k); intro H; [reflexivity |].
  simpl. rewrite (IH H). reflexivity.
Qed.

Lemma existsb_fst {K V} (p : K -> bool) (l : list (K * V)) :
  existsb (fun x => p (fst x)) l = existsb p (map fst l).
Proof. induction l as [| x t IH]; simpl; congruence. Qed.

Lemma has_edge_keys g g' e :
  is_directed g' = is_directed g -> map fst (edges g') = map fst (edges g) ->
  has_edge g' e = has_edge g e.
Proof.
  intros Hd Hk. unfold has_edge. rewrite Hd.
  rewrite (existsb_fst (fun k => same_edge (is_directed g) k e) (edges g')).
  rewrite (existsb_fst (fun k => same_edge (is_directed g) k e) (edges g)).
  rewrite Hk. reflexivity.
Qed.

(** An edge added between two nodes of the graph: nothing but the edge
    dictionary entry of its key is touched. *)
Lemma add_edge_put g a b attr :
  has_node g a = true -> has_node g b = true ->
  add_edge g a b attr =
  put_edge g a b (if is_multigraph g then new_edge_key g a b else 0) attr.
Proof.
  intros Ha Hb. unfold add_edge.
  rewrite (ensure_node_present g a Ha), (ensure_node_present g b Hb). reflexivity.
Qed.

Lemma ready_edge_same g g' x :
  same_keys g g' -> nodes g' = nodes g -> ready_edge g x -> ready_edge g' x.
Proof.
  intros Hk Hn. apply (ready_edge_grow g g' [] x Hk). rewrite app_nil_r. exact Hn.
Qed.

Lemma put_edge_ready g a b key l :
  is_located g a = true -> is_located g b = true ->
  Forall (ready_edge g) (edges g) ->
  Forall (ready_edge (put_edge g a b key [(edges_geometry_key g, VLine l)]))
         (edges (put_edge g a b key [(edges_geometry_key g, VLine l)])).
Proof.
  intros La Lb Hr.
  set (g' := put_edge g a b key _).
  assert (Hk : same_keys g g') by apply put_edge_keys.
  assert (Hn : nodes g' = nodes g).
  { unfold g', put_edge. destruct (dict_get _ _ _); reflexivity. }
  assert (Hnew : forall k' old,
             same_edge (is_directed g) k' (mkEdge a b key) = true ->
             ready_edge g (k', attr_update old [(edges_geometry_key g, VLine l)])).
  { intros k' old Hs. unfold same_edge in Hs. apply andb_true_iff in Hs.
    destruct Hs as [Hs _]. cbn [e0 e1] in Hs.
    assert (Hends : (e0 k' = a /\ e1 k' = b) \/ (e0 k' = b /\ e1 k' = a)).
    { destruct (same_pair_inv _ _ _ _ _ Hs) as [H | (_ & H)]; auto. }
    assert (L0 : is_located g (e0 k') = true) by (destruct Hends as [[-> _] | [-> _]]; assumption).
    assert (L1 : is_located g (e1 k') = true) by (destruct Hends as [[_ ->] | [_ ->]]; assumption).
    split; [apply is_located_has_node; exact L0 |].
    split; [apply is_located_has_node; exact L1 |].
    cbn [fst snd]. intros v Hv. split; [| split; assumption].
    unfold attr_update, dict_update in Hv. cbn [fold_left fst snd] in Hv.
    fold (attr_set old (edges_geometry_key g) (VLine l)) in Hv.
    rewrite attr_get_set_same in Hv. inversion Hv. reflexivity. }
  assert (Hall : Forall (ready_edge g) (edges g')).
  { unfold g', put_edge.
    destruct (dict_get (same_edge (is_directed g)) (edges g) (mkEdge a b key)) as [old |] eqn:E;
      cbn [edges set_edges].
    - apply dict_set_Forall; [exact Hr | |].
      + intros k' Hk'. apply Hnew. exact Hk'.
      + apply Hnew. unfold same_edge, same_pair. cbn [e0 e1 ekey].
        rewrite !String.eqb_refl, Nat.eqb_refl. reflexivity.
    - apply Forall_app. split; [exact Hr |]. constructor; [| constructor].
      pose proof (Hnew (mkEdge a b key) []) as H.
      unfold attr_update, dict_update in H. cbn [fold_left fst snd dict_set] in H.
      apply H. unfold same_edge, same_pair. cbn [e0 e1 ekey].
      rewrite !String.eqb_refl, Nat.eqb_refl. reflexivity. }
  eapply Forall_impl; [| exact Hall]. intro x. apply (ready_edge_same g g' x Hk Hn).
Qed.

Lemma put_edge_keeps g a b key attr x :
  In x (edges g) ->
  same_pair (is_directed g) (e0 (fst x)) (e1 (fst x)) a b = false ->
  In x (edges (put_edge g a b key attr)).
Proof.
  intros Hin Hs. unfold put_edge.
  destruct (dict_get _ _ _); cbn [edges set_edges].
  - apply dict_set_In_other; [exact Hin |].
    unfold same_edge. cbn [e0 e1]. rewrite Hs. reflexivity.
  - apply in_or_app. left. exact Hin.
Qed.

Lemma put_edge_no_edge g a b key attr e :
  has_edge g e = false ->
  same_pair (is_directed g) a b (e0 e) (e1 e) = false ->
  has_edge (put_edge g a b key attr) e = false.
Proof.
  intros He Hs. unfold put_edge.
  destruct (dict_get (same_edge (is_directed g)) (edges g) (mkEdge a b key)) as [old |] eqn:E.
  - rewrite (has_edge_keys g _ e); [exact He | reflexivity |].
    cbn [edges set_edges]. apply (dict_set_found_keys _ _ _ _ old E).
  - unfold has_edge in *. cbn [edges set_edges is_directed].
    rewrite existsb_app, He. cbn [existsb fst]. unfold same_edge at 1. cbn [e0 e1].
    rewrite Hs. reflexivity.
Qed.

Lemma is_located_same_nodes g g' n :
  same_keys g g' -> nodes g' = nodes g -> is_located g n = true -> is_located g' n = true.
Proof.
  intros Hk Hn. apply (is_located_same g g' [] n Hk). rewrite app_nil_r. exact Hn.
Qed.

Lemma has_edge_filter g (keep : EdgeKey * Attrs -> bool) e :
  has_edge g e = false -> has_edge (set_edges g (filter keep (edges g))) e = false.
Proof.
  unfold has_edge. cbn [edges set_edges is_directed]. intro H.
  induction (edges g) as [| x t IH]; [reflexivity |].
  simpl in H. apply orb_false_iff in H. destruct H as [H1 H2].
  simpl. destruct (keep x); simpl; [rewrite H1 |]; auto.
Qed.

(** Once the edge [e] is out of the way, no edge of the same pair and key
    is left. *)
Lemma has_edge_removed g e e' :
  same_edge (is_directed g) e' e = true ->
  has_edge (if has_edge g e then remove_edge g e else g) e' = false.
Proof.
  intro Hs.
  assert (Hx : forall x, same_edge (is_directed g) x e' = true ->
                         same_edge (is_directed g) x e = true).
  { intros x H. apply (same_edge_trans _ x e' e); assumption. }
  destruct (has_edge g e) eqn:He.
  - unfold has_edge, remove_edge. cbn [edges set_edges is_directed].
    induction (edges g) as [| x t IH]; [reflexivity |].
    simpl. destruct (same_edge (is_directed g) (fst x) e) eqn:E; simpl; [exact IH |].
    rewrite IH. destruct (same_edge (is_directed g) (fst x) e') eqn:E'; [| reflexivity].
    rewrite (Hx _ E') in E. discriminate.
  - unfold has_edge in *. apply not_true_is_false. intro H.
    apply existsb_exists in H. destruct H as (x & Hin & Hxe).
    assert (Y : existsb (fun x0 => same_edge (is_directed g) (fst x0) e) (edges g) = true).
    { apply existsb_exists. exists x. split; [exact Hin | apply Hx; exact Hxe]. }
    congruence.
Qed.

(** Adding edges that each have a node new to the graph the merge started
    from: the edges between nodes of that graph are neither changed nor
    created. *)
Lemma fold_add_frame (old : Name -> bool) : forall ts g,
  Forall (ready_edge g) (edges g) ->
  Forall (fun t => is_located g (fst (fst t)) = true /\ is_located g (snd (fst t)) = true
                   /\ (old (fst (fst t)) = false \/ old (snd (fst t)) = false)) ts ->
  nodes (fold_left add_triple ts g) = nodes g
  /\ same_keys g (fold_left add_triple ts g)
  /\ Forall (ready_edge (fold_left add_triple ts g)) (edges (fold_left add_triple ts g))
  /\ (forall x, In x (edges g) -> old (e0 (fst x)) = true -> old (e1 (fst x)) = true ->
                In x (edges (fold_left add_triple ts g)))
  /\ (forall e, old (e0 e) = true -> old (e1 e) = true -> has_edge g e = false ->
                has_edge (fold_left add_triple ts g) e = false).
Proof.
  induction ts as [| [[a b] l] rest IH]; intros g Hr Hts.
  - cbn [fold_left]. split; [reflexivity |]. split; [apply same_keys_refl |].
    split; [exact Hr |]. split; auto.
  - inversion Hts as [| t ts' (La & Lb & Hold) Hrest]; subst. cbn [fst snd] in La, Lb, Hold.
    cbn [fold_left].
    set (key := if is_multigraph g then new_edge_key g a b else 0).
    set (g1 := put_edge g a b key [(edges_geometry_key g, VLine l)]).
    assert (Eg : add_triple g (a, b, l) = g1).
    { unfold add_triple. cbn [fst snd].
      apply (add_edge_put g a b _ (is_located_has_node _ _ La) (is_located_has_node _ _ Lb)). }
    rewrite Eg.
    assert (Hk1 : same_keys g g1) by apply put_edge_keys.
    assert (Hn1 : nodes g1 = nodes g).
    { unfold g1, put_edge. destruct (dict_get _ _ _); reflexivity. }
    assert (Hr1 : Forall (ready_edge g1) (edges g1)) by (apply put_edge_ready; assumption).
    assert (Hts1 : Forall (fun t => is_located g1 (fst (fst t)) = true
                                    /\ is_located g1 (snd (fst t)) = true
                                    /\ (old (fst (fst t)) = false \/ old (snd (fst t)) = false))
                          rest).
    { eapply Forall_impl; [| exact Hrest]. intros t (A & B & D).
      split; [apply (is_located_same_nodes g g1 _ Hk1 Hn1 A) |].
      split; [apply (is_located_same_nodes g g1 _ Hk1 Hn1 B) | exact D]. }
    destruct (IH g1 Hr1 Hts1) as (Hn & Hk & Hr' & Hkeep & Hno).
    assert (Hdiff : forall s t, old s = true -> old t = true ->
                                same_pair (is_directed g) s t a b = false).
    { intros s t Hs Ht. destruct (same_pair (is_directed g) s t a b) eqn:E; [| reflexivity].
      destruct (same_pair_inv _ _ _ _ _ E) as [[-> ->] | (_ & -> & ->)];
        destruct Hold; congruence. }
    split; [rewrite Hn; exact Hn1 |].
    split; [apply (same_keys_trans g g1); assumption |].
    split; [exact Hr' |]. split.
    + intros x Hx O0 O1. apply Hkeep; trivial.
      apply put_edge_keeps; [exact Hx | apply Hdiff; assumption].
    + intros e O0 O1 He. apply Hno; trivial.
      apply put_edge_no_edge; [exact He |].
      rewrite same_pair_sym. apply Hdiff; assumption.
Qed.

Section SpliceFrame.
Context {C : Collaborators}.

(** The loop over the edges to split, when every request is for nodes with
    coordinates that are new to the graph the merge started from ([old]
    tells its nodes): it ends without an exception, keeps the graph ready,
    keeps every edge between old nodes that has no request and leaves no
    edge where a request was. *)
Lemma splice_loop_frame eal (old : Name -> bool) : forall rest g,
  Forall (ready_edge g) (edges g) ->
  Forall (request_located eal g) rest ->
  Forall (fun er => snd er <> [] /\ Forall (fun nd => old (fst nd) = false) (snd er)) rest ->
  exists g',
    for_each rest (splice_edge eal) tt g = (g', Ok tt)
    /\ nodes g' = nodes g
    /\ same_keys g g'
    /\ Forall (ready_edge g') (edges g')
    /\ (forall x, In x (edges g) -> old (e0 (fst x)) = true -> old (e1 (fst x)) = true ->
                  is_split g rest x = false -> In x (edges g'))
    /\ (forall e, old (e0 e) = true -> old (e1 e) = true ->
                  has_edge g e = false
                  \/ existsb (fun er => same_edge (is_directed g) e (fst er)) rest = true ->
                  has_edge g' e = false).
Proof.
  induction rest as [| [e reqs] rest IH]; intros g Hr Hreq Hold.
  - exists g. split; [reflexivity |]. split; [reflexivity |].
    split; [apply same_keys_refl |]. split; [exact Hr |]. split; [auto |].
    intros e _ _ [H | H]; [exact H | discriminate].
  - inversion Hreq as [| er ers ([l Hl] & L0 & L1 & Lr) Hreq']; subst.
    inversion Hold as [| er ers (Hne & Hnew) Hold']; subst.
    cbn [fst snd] in *.
    set (items := sorted_by_distance reqs).
    set (names := map fst items).
    set (pieces := sub_segments l (map snd items)).
    set (g0 := if has_edge g e then remove_edge g e else g).
    assert (PN : Permutation names (map fst reqs)).
    { apply Permutation_map. apply sorted_by_distance_perm. }
    assert (Hnn : names <> []).
    { intro E. apply Permutation_length in PN. rewrite E, length_map in PN.
      destruct reqs; [contradiction | discriminate]. }
    assert (Hpl : List.length pieces = S (List.length names)).
    { unfold pieces, names. rewrite sub_segments_length; [rewrite !length_map; reflexivity |].
      intro E. apply Hnn. unfold names. destruct items; [reflexivity | discriminate]. }
    assert (G0 : nodes g0 = nodes g /\ same_keys g g0
                 /\ edges g0 = filter (fun x => negb (same_edge (is_directed g) (fst x) e))
                                      (edges g)).
    { unfold g0. destruct (has_edge g e) eqn:He.
      - split; [reflexivity |]. split; [apply remove_edge_keys | reflexivity].
      - split; [reflexivity |]. split; [apply same_keys_refl |].
        symmetry. apply (filter_none (fun x => same_edge (is_directed g) (fst x) e)). exact He. }
    destruct G0 as (Gn & Gk & Ge).
    assert (Hr0 : Forall (ready_edge g0) (edges g0)).
    { rewrite Ge. apply Forall_forall. intros x Hx. apply filter_In in Hx.
      rewrite Forall_forall in Hr. apply (ready_edge_same g g0 x Gk Gn). apply Hr. apply Hx. }
    assert (Hin_names : forall n, In n names ->
                                  is_located g0 n = true /\ old n = false).
    { intros n Hn. apply (Permutation_in _ PN) in Hn. apply in_map_iff in Hn.
      destruct Hn as (nd & <- & Hnd). rewrite Forall_forall in Lr, Hnew. split.
      - apply (is_located_same_nodes g g0 _ Gk Gn). apply Lr. exact Hnd.
      - apply Hnew. exact Hnd. }
    assert (Hts : Forall (fun t => is_located g0 (fst (fst t)) = true
                                   /\ is_located g0 (snd (fst t)) = true
                                   /\ (old (fst (fst t)) = false \/ old (snd (fst t)) = false))
                         (code_triples (e0 e) names (e1 e) pieces)).
    { apply Forall_forall. intros t Ht.
      assert (Hloc : forall n, In n (e0 e :: e1 e :: names) -> is_located g0 n = true).
      { intros n [<- | [<- | Hn]].
        - apply (is_located_same_nodes g g0 _ Gk Gn L0).
        - apply (is_located_same_nodes g g0 _ Gk Gn L1).
        - apply Hin_names. exact Hn. }
      destruct (code_components _ _ _ _ _ Ht) as [C1 C2].
      split; [apply Hloc; exact C1 |]. split; [apply Hloc; exact C2 |].
      destruct (code_triples_chain (e0 e) names (e1 e) pieces Hnn Hpl) as [Pc _].
      apply (Permutation_in _ Pc) in Ht.
      destruct (chain_components _ _ _ _ t Hnn Hpl Ht) as [_ [D | D]];
        [left | right]; apply Hin_names; exact D. }
    destruct (fold_add_frame old _ g0 Hr0 Hts) as (Hn1 & Hk1 & Hr1 & Hkeep1 & Hno1).
    set (g1 := fold_left add_triple (code_triples (e0 e) names (e1 e) pieces) g0) in *.
    assert (Hrun : splice_edge eal tt (e, reqs) g = (g1, Ok tt)).
    { rewrite (splice_edge_run g eal e reqs l Hl Hne). reflexivity. }
    assert (Kg1 : same_keys g g1) by (apply (same_keys_trans g g0 g1); assumption).
    assert (Ng1 : nodes g1 = nodes g) by congruence.
    assert (Hd1 : is_directed g1 = is_directed g) by (destruct Kg1 as (K & _); exact K).
    assert (Hreq1 : Forall (request_located eal g1) rest).
    { eapply Forall_impl; [| exact Hreq']. intros er.
      apply (request_located_grow eal g g1 [] er Kg1). rewrite app_nil_r. exact Ng1. }
    destruct (IH g1 Hr1 Hreq1 Hold') as (g2 & Hrun2 & Hn2 & Hk2 & Hr2 & Hkeep2 & Hno2).
    exists g2. split.
    { cbn [for_each]. rewrite (bind_ok _ _ _ _ _ Hrun). exact Hrun2. }
    split; [congruence |]. split; [apply (same_keys_trans g g1 g2); assumption |].
    split; [exact Hr2 |]. split.
    + intros x Hx O0 O1 Hs. unfold is_split in Hs. cbn [existsb fst] in Hs.
      apply orb_false_iff in Hs. destruct Hs as [Hs1 Hs2].
      apply Hkeep2; trivial.
      * apply Hkeep1; trivial. rewrite Ge. apply filter_In. split; [exact Hx |].
        rewrite Hs1. reflexivity.
      * unfold is_split. rewrite Hd1. exact Hs2.
    + intros e' O0 O1 H. cbn [existsb fst] in H. rewrite Hd1 in Hno2.
      assert (Hcase : has_edge g0 e' = false
                      \/ existsb (fun er => same_edge (is_directed g) e' (fst er)) rest = true).
      { destruct H as [H | H].
        - left. unfold g0. destruct (has_edge g e); [| exact H].
          apply (has_edge_filter g _ e' H).
        - apply orb_true_iff in H. destruct H as [H | H]; [| right; exact H].
          left. apply has_edge_removed. exact H. }
      apply Hno2; trivial. destruct Hcase as [H0 | H0]; [left | right; exact H0].
      apply Hno1; trivial.
Qed.
End SpliceFrame.

(** ** The whole merge, edge by edge *)

Lemma in_combine_seq {A} (l : list A) : forall s p a,
  In (p, a) (combine (seq s (List.length l)) l) <-> s <= p /\ nth_error l (p - s) = Some a.
Proof.
  induction l as [| x t IH]; intros s p a; cbn [List.length seq combine].
  - split; [contradiction |]. intros [_ H]. destruct (p - s); discriminate.
  - cbn [In]. rewrite IH. split.
    + intros [H | [Hle Hn]].
      * inversion H. subst. rewrite Nat.sub_diag. split; [lia | reflexivity].
      * split; [lia |]. replace (p - s) with (S (p - S s)) by lia. exact Hn.
    + intros [Hle Hn]. destruct (Nat.eq_dec p s) as [-> | Hne].
      * rewrite Nat.sub_diag in Hn. left. inversion Hn. reflexivity.
      * right. split; [lia |]. replace (p - s) with (S (p - S s)) in Hn by lia. exact Hn.
Qed.

Section WholeFrame.
Context {C : Collaborators}.

(** A merge into a graph that is ready for it, in one statement: it ends
    without an exception; nodes are appended; every edge afterwards is
    ready; an edge of the graph is kept as it is unless a point of the batch
    projects strictly inside its line, and then it is gone. *)
Lemma merge_run_frame (g : Graph) (points_gdf : GeoDataFrame) (merge_direction : string) :
  names_are_new ->
  edges_closed g = true ->
  lines_ready g = true ->
  indexes_ready g points_gdf = true ->
  exists g' N,
    points_merge_body points_gdf merge_direction g = (g', Ok tt)
    /\ same_keys g g'
    /\ nodes g' = nodes g ++ N
    /\ Forall (ready_edge g') (edges g')
    /\ (forall x, In x (edges g) ->
                  (~ split_by_batch g points_gdf (fst x) -> In x (edges g'))
                  /\ (split_by_batch g points_gdf (fst x) -> has_edge g' (fst x) = false))
    /\ (forall e, has_node g (e0 e) = true -> has_node g (e1 e) = true ->
                  has_edge g e = false -> has_edge g' e = false).
Proof.
  intros Hnew Hc Hl Hi.
  set (eal := get_edge_attributes (edges g) (edges_geometry_key g)).
  destruct (batch_closest_edges g points_gdf Hl Hi) as (li & Eli & Hits).
  fold eal in Eli, Hits.
  set (its := combine (seq 0 (List.length points_gdf)) points_gdf) in *.
  destruct (points_loop_run g eal li merge_direction Hnew its g [] [] [] []
              (same_keys_refl g) (eq_sym (app_nil_r _)) Hc (Forall_nil _)
              (placed_start g) Hits)
    as (g1 & ets & chunks & P & I & Hrun & _ & _ & _ & _ & _ & Hpl).
  destruct (points_loop_shape g eal li merge_direction Hnew its g [] []
              (same_keys_refl g) (eq_sym (app_nil_r _)) Hc (Forall_nil _) Hits)
    as (g1' & ets' & N & L & Hrun' & Hk1 & Hn1 & He1 & HL & Hreq & Hkeys & HLnew & _).
  rewrite Hrun in Hrun'. injection Hrun' as <- <-.
  assert (Hready : Forall (ready_edge g) (edges g)) by (apply ready_edges_iff; auto).
  assert (Hr1 : Forall (ready_edge g1) (edges g1)).
  { rewrite He1. apply Forall_app. split; [| exact HL].
    eapply Forall_impl; [| exact Hready]. intro x. apply (ready_edge_grow g g1 N x Hk1 Hn1). }
  assert (Hold : Forall (fun er => snd er <> []
                                   /\ Forall (fun nd => has_node g (fst nd) = false) (snd er))
                        ets).
  { destruct Hpl as (J1 & _ & _ & J4 & _).
    eapply Forall_impl; [| exact J4]. intros er (Hne & Hsub & _).
    split; [exact Hne |]. apply Forall_forall. intros nd Hnd.
    apply J1. right. apply Hsub. unfold request_names. apply in_map. exact Hnd. }
  destruct (splice_loop_frame eal (has_node g) ets g1 Hr1 Hreq Hold)
    as (g2 & Hrun2 & Hn2 & Hk2 & Hr2 & Hkeep & Hgone).
  exists g2, N.
  split.
  { rewrite (points_merge_body_found g points_gdf merge_direction li Eli).
    fold eal. fold its. rewrite (bind_ok _ _ _ _ _ Hrun). exact Hrun2. }
  split; [apply (same_keys_trans g g1 g2); assumption |].
  split; [congruence |]. split; [exact Hr2 |].
  assert (Hd1 : is_directed g1 = is_directed g) by (destruct Hk1 as (K & _); exact K).
  assert (Hsplit : forall k, existsb (fun er => same_edge (is_directed g) k (fst er)) ets = true
                             <-> split_by_batch g points_gdf k).
  { intro k. unfold split_by_batch. fold eal. rewrite existsb_exists. split.
    - intros (er & Her & Hs).
      assert (Hin : In (fst er) (map fst ets)) by (apply in_map; exact Her).
      apply Hkeys in Hin. destruct Hin as [[] | ([p row] & l & Hit & Hce & Hint)].
      cbn [fst snd] in Hce, Hint. apply in_combine_seq in Hit.
      rewrite Nat.sub_0_r in Hit. destruct Hit as [_ Hit].
      exists li, p, row, (fst er), l. auto.
    - intros (li' & p & row & e & l & Eli' & Hn & Hce & Hint & Hs).
      rewrite Eli in Eli'. injection Eli' as <-.
      assert (Hin : In e (map fst ets)).
      { apply Hkeys. right. exists (p, row), l. split; [| split; assumption].
        apply in_combine_seq. rewrite Nat.sub_0_r. split; [lia | exact Hn]. }
      apply in_map_iff in Hin. destruct Hin as (er & <- & Her). exists er. auto. }
  split.
  - intros x Hx.
    assert (Hends : has_node g (e0 (fst x)) = true /\ has_node g (e1 (fst x)) = true).
    { rewrite Forall_forall in Hready. destruct (Hready x Hx) as (A & B & _). auto. }
    destruct Hends as [O0 O1]. split.
    + intro Hns. apply Hkeep; trivial.
      * rewrite He1. apply in_or_app. left. exact Hx.
      * unfold is_split. rewrite Hd1. apply not_true_is_false. intro H.
        apply Hns. apply Hsplit. exact H.
    + intro Hs. apply Hgone; trivial. right. rewrite Hd1. apply Hsplit. exact Hs.
  - intros e O0 O1 He. apply Hgone; trivial. left.
    unfold has_edge in *. rewrite He1, Hd1, existsb_app, He. cbn [orb].
    apply not_true_is_false. intro X. apply existsb_exists in X.
    destruct X as (x & Hx & Hs). rewrite Forall_forall in HLnew. specialize (HLnew x Hx).
    unfold same_edge in Hs. apply andb_true_iff in Hs. destruct Hs as [Hs _].
    destruct (same_pair_inv _ _ _ _ _ Hs) as [[E0 E1] | (_ & E0 & E1)];
      rewrite E0, E1 in HLnew; destruct HLnew; congruence.
Qed.

(** X4: a merge into a graph that is ready for it never touches what was
    there, but for the edges it splits: every node keeps its attributes,
    and an edge of the graph is an edge afterwards, with its key and its
    attributes, when no point of the batch projects strictly inside the
    line of that edge as its closest edge; when a point does, no edge of
    that pair and key is left.  And no edge is created between two nodes
    the graph had: every new edge has a new node at one end. *)
Theorem merge_keeps_unsplit_edges (g : Graph) (points_gdf : GeoDataFrame)
        (merge_direction : string) :
  names_are_new ->
  edges_closed g = true ->
  lines_ready g = true ->
  indexes_ready g points_gdf = true ->
  exists g',
    points_merge_body points_gdf merge_direction g = (g', Ok tt)
    /\ (forall n a, node_get g n = Some a -> node_get g' n = Some a)
    /\ (forall x, In x (edges g) ->
                  (~ split_by_batch g points_gdf (fst x) -> In x (edges g'))
                  /\ (split_by_batch g points_gdf (fst x) -> has_edge g' (fst x) = false))
    /\ (forall e, has_node g (e0 e) = true -> has_node g (e1 e) = true ->
                  has_edge g e = false -> has_edge g' e = false).
Proof.
  intros Hnew Hc Hl Hi.
  destruct (merge_run_frame g points_gdf merge_direction Hnew Hc Hl Hi)
    as (g' & N & Hrun & _ & Hn & _ & He).
  exists g'. split; [exact Hrun |]. split; [| exact He].
  intros n a Ha. unfold node_get in *. rewrite Hn, dict_get_app, Ha. reflexivity.
Qed.

(** X6: readiness for a merge is kept by the merge: when the edges of the
    graph join nodes of the graph and every edge geometry is a line between
    nodes with coordinates, the same holds of the graph the merge leaves,
    whose kind and attribute keys are unchanged, so that another batch can
    be merged into it. *)
Theorem merged_graph_stays_ready (g : Graph) (points_gdf : GeoDataFrame)
        (merge_direction : string) :
  names_are_new ->
  edges_closed g = true ->
  lines_ready g = true ->
  indexes_ready g points_gdf = true ->
  exists g',
    points_merge_body points_gdf merge_direction g = (g', Ok tt)
    /\ same_keys g g'
    /\ edges_closed g' = true
    /\ lines_ready g' = true.
Proof.
  intros Hnew Hc Hl Hi.
  destruct (merge_run_frame g points_gdf merge_direction Hnew Hc Hl Hi)
    as (g' & N & Hrun & Hk & _ & Hr & _).
  exists g'. split; [exact Hrun |]. split; [exact Hk |].
  apply ready_edges_iff. exact Hr.
Qed.
End WholeFrame.

(** ** Counting the edges of a merge *)

Lemma EdgeKey_eq_dec (a b : EdgeKey) : {a = b} + {a <> b}.
Proof.
  decide equality; first [apply Nat.eq_dec | apply string_dec].
Qed.

Lemma same_edge_refl d k : same_edge d k k = true.
Proof.
  unfold same_edge, same_pair. rewrite !String.eqb_refl, Nat.eqb_refl. reflexivity.
Qed.

Lemma existsb_middle {A} (f : A -> bool) l1 a l2 :
  f a = false -> existsb f (l1 ++ a :: l2) = existsb f (l1 ++ l2).
Proof.
  intro H. rewrite !existsb_app. cbn [existsb]. rewrite H. reflexivity.
Qed.

(** Among distinct edges, a set of keys of edges filters out one edge per
    key. *)
Lemma unsplit_count d : forall es ks,
  distinct_edges d es = true ->
  NoDup ks ->
  (forall k, In k ks -> In k (map fst es)) ->
  List.length (filter (fun x => negb (existsb (fun k => same_edge d (fst x) k) ks)) es)
  + List.length ks = List.length es.
Proof.
  induction es as [| x t IH]; intros ks Hd Hnd Hsub.
  - destruct ks as [| k ks']; [reflexivity |]. destruct (Hsub k (or_introl eq_refl)).
  - cbn [distinct_edges] in Hd. apply andb_true_iff in Hd. destruct Hd as [Hx Hd].
    apply negb_true_iff in Hx.
    assert (Hother : forall y, In y t -> same_edge d (fst y) (fst x) = false).
    { intros y Hy. destruct (same_edge d (fst y) (fst x)) eqn:E; [| reflexivity].
      assert (X : existsb (fun y0 => same_edge d (fst y0) (fst x)) t = true).
      { apply existsb_exists. exists y. auto. }
      congruence. }
    destruct (in_dec EdgeKey_eq_dec (fst x) ks) as [Hin | Hnin].
    + destruct (in_split _ _ Hin) as (l1 & l2 & ->).
      pose proof (NoDup_remove_1 _ _ _ Hnd) as Hnd'.
      pose proof (NoDup_remove_2 _ _ _ Hnd) as Hnx.
      assert (Hsub' : forall k, In k (l1 ++ l2) -> In k (map fst t)).
      { intros k Hk.
        assert (Hk' : In k (l1 ++ fst x :: l2)).
        { apply in_app_iff in Hk. apply in_app_iff. destruct Hk; [left | right; right]; auto. }
        destruct (Hsub k Hk') as [E | H]; [| exact H]. subst k. contradiction. }
      specialize (IH (l1 ++ l2) Hd Hnd' Hsub').
      cbn [filter]. rewrite existsb_app. cbn [existsb]. rewrite same_edge_refl.
      rewrite orb_true_r. cbn [negb].
      rewrite (filter_ext_in _ (fun y => negb (existsb (fun k => same_edge d (fst y) k)
                                                       (l1 ++ l2)))).
      * rewrite length_app in *. cbn [List.length]. lia.
      * intros y Hy. rewrite existsb_middle; [reflexivity | apply Hother; exact Hy].
    + assert (Hsub' : forall k, In k ks -> In k (map fst t)).
      { intros k Hk. destruct (Hsub k Hk) as [E | H]; [| exact H]. subst k. contradiction. }
      specialize (IH ks Hd Hnd Hsub').
      cbn [filter].
      assert (Hkeep : existsb (fun k => same_edge d (fst x) k) ks = false).
      { apply not_true_is_false. intro X. apply existsb_exists in X.
        destruct X as (k & Hk & Hs). apply Hsub' in Hk. apply in_map_iff in Hk.
        destruct Hk as (y & <- & Hy). rewrite same_edge_sym in Hs.
        rewrite (Hother y Hy) in Hs. discriminate. }
      rewrite Hkeep. cbn [negb List.length]. lia.
Qed.

Section ChainLengths.
Context {C : Collaborators}.

Lemma chain_of_length g eal er :
  request_ok eal g er -> snd er <> [] ->
  List.length (chain_of g eal er) = S (List.length (snd er)).
Proof.
  intros ([l Hl] & _) Hne. unfold chain_of. rewrite Hl. cbv beta iota zeta.
  rewrite List.length_map.
  set (items := sorted_by_distance (snd er)).
  assert (Hlen : List.length (map fst items) = List.length (snd er)).
  { rewrite length_map. apply Permutation_length. apply sorted_by_distance_perm. }
  assert (Hnn : map fst items <> []).
  { intro E. rewrite E in Hlen. destruct (snd er); [contradiction | discriminate]. }
  assert (Hpl : List.length (sub_segments l (map snd items)) = S (List.length (map fst items))).
  { rewrite sub_segments_length; [rewrite !length_map; reflexivity |].
    intro E. apply Hnn. destruct items; [reflexivity | discriminate]. }
  destruct (code_triples_chain (e0 (fst er)) (map fst items) (e1 (fst er)) _ Hnn Hpl)
    as [_ Lc].
  rewrite Lc, Hlen. reflexivity.
Qed.

Lemma chains_length g eal : forall ets,
  Forall (request_ok eal g) ets ->
  Forall (fun er => snd er <> []) ets ->
  List.length (List.concat (map (chain_of g eal) ets))
  = List.length ets + List.length (List.concat (map request_names ets)).
Proof.
  induction ets as [| er rest IH]; intros Hok Hne; [reflexivity |].
  inversion Hok; subst. inversion Hne; subst.
  cbn [map List.concat List.length]. rewrite !length_app, IH by assumption.
  rewrite chain_of_length by assumption.
  change (request_names er) with (map fst (snd er)). rewrite length_map. lia.
Qed.
End ChainLengths.

Section MergeCounts.
Context {C : Collaborators}.

(** X5: the counts of a merge.  On a graph ready for the merge, whose edge
    dictionary has one entry per edge, and which is directed, a multigraph
    or without closed edge: a batch of [n] points adds [n + m] nodes and
    [c * n + m] edges, where [m <= n] is the number of intersection nodes
    and [c] is 2 on a directed graph merged in both directions and 1
    otherwise.  The edges that are split are counted: each is replaced by
    one edge more than it has intersection nodes. *)
Theorem merge_counts (g : Graph) (points_gdf : GeoDataFrame) (merge_direction : string) :
  names_are_new ->
  edges_closed g = true ->
  lines_ready g = true ->
  indexes_ready g points_gdf = true ->
  distinct_edges (is_directed g) (edges g) = true ->
  chains_kept_apart g = true ->
  exists g' m,
    points_merge_body points_gdf merge_direction g = (g', Ok tt)
    /\ m <= List.length points_gdf
    /\ List.length (nodes g') = List.length (nodes g) + List.length points_gdf + m
    /\ List.length (edges g')
       = List.length (edges g)
         + links_per_point (is_directed g) merge_direction * List.length points_gdf + m.
Proof.
  intros Hnew Hc Hl Hi Hdist Hapart.
  set (eal := get_edge_attributes (edges g) (edges_geometry_key g)).
  destruct (batch_closest_edges g points_gdf Hl Hi) as (li & Eli & Hits).
  fold eal in Eli, Hits.
  set (its := combine (seq 0 (List.length points_gdf)) points_gdf) in *.
  assert (Hlen : List.length its = List.length points_gdf).
  { unfold its. rewrite length_combine, length_seq. lia. }
  destruct (points_loop_run g eal li merge_direction Hnew its g [] [] [] []
              (same_keys_refl g) (eq_sym (app_nil_r _)) Hc (Forall_nil _)
              (placed_start g) Hits)
    as (g1 & ets & chunks & P & I & Hrun & _ & _ & _ & Hok & _ & Hpl).
  destruct (points_loop_shape g eal li merge_direction Hnew its g [] []
              (same_keys_refl g) (eq_sym (app_nil_r _)) Hc (Forall_nil _) Hits)
    as (g1' & ets' & N & L & Hrun' & Hk1 & Hn1 & He1 & _ & _ & Hkeys & HLnew & Hnd
        & m & Hm & HN & HL & Hnames).
  rewrite Hrun in Hrun'. injection Hrun' as <- <-.
  specialize (Hnd (NoDup_nil _)). cbn [map List.concat List.length] in Hnames.
  destruct Hk1 as (Kd & Km & Kx & Ky & Kg).
  assert (Hedge : forall k, In k (map fst ets) -> In k (map fst (edges g))).
  { intros k Hk. apply Hkeys in Hk. destruct Hk as [[] | (it & l & _ & Hce & _)].
    apply closest_edge_line in Hce. destruct (dict_get_In _ _ _ _ Hce) as (k' & Hin & Ek).
    apply edge_key_eqb_eq in Ek. subst k'. apply get_edge_attributes_In in Hin.
    destruct Hin as (a & Hin & _). apply in_map_iff. exists (k, a). auto. }
  assert (Hends : forall k, In k (map fst ets) ->
                            has_node g (e0 k) = true /\ has_node g (e1 k) = true).
  { intros k Hk. apply Hedge in Hk. apply in_map_iff in Hk. destruct Hk as (x & <- & Hx).
    unfold edges_closed in Hc. rewrite forallb_forall in Hc. specialize (Hc x Hx).
    apply andb_true_iff in Hc. exact Hc. }
  assert (Hno : Forall (fun er => ~ cut_once_loop g1 er) ets).
  { apply Forall_forall. intros er Her (D0 & M0 & Eloop & _).
    rewrite Kd in D0. rewrite Km in M0.
    unfold chains_kept_apart in Hapart. rewrite D0, M0 in Hapart. cbn [orb] in Hapart.
    rewrite forallb_forall in Hapart.
    assert (Hk : In (fst er) (map fst (edges g))) by (apply Hedge; apply in_map; exact Her).
    apply in_map_iff in Hk. destruct Hk as (x & Ex & Hx).
    specialize (Hapart x Hx). rewrite Ex, Eloop, String.eqb_refl in Hapart. discriminate. }
  assert (Hne : Forall (fun er => snd er <> []) ets).
  { destruct Hpl as (_ & _ & _ & J4 & _).
    eapply Forall_impl; [| exact J4]. intros er (H & _). exact H. }
  destruct (splice_loop_edges eal P I ets g1 (placed_replayable eal g g1 ets P I Hpl Hok) Hno)
    as (g2 & Hrun2 & Hn2 & _ & Hperm).
  exists g2, m.
  split.
  { rewrite (points_merge_body_found g points_gdf merge_direction li Eli).
    fold eal. fold its. rewrite (bind_ok _ _ _ _ _ Hrun). exact Hrun2. }
  split; [lia |]. split.
  { rewrite Hn2, Hn1, length_app. lia. }
  apply Permutation_length in Hperm. rewrite !length_app, !length_map in Hperm.
  rewrite (chains_length g1 eal ets Hok Hne) in Hperm.
  rewrite He1, filter_app, length_app in Hperm.
  assert (HfL : filter (fun x => negb (is_split g1 ets x)) L = L).
  { apply filter_all. intros x Hx. apply negb_true_iff. apply not_true_is_false. intro X.
    unfold is_split in X. apply existsb_exists in X. destruct X as (er & Her & Hs).
    destruct (Hends (fst er) (in_map fst _ _ Her)) as [A B].
    unfold same_edge in Hs. apply andb_true_iff in Hs. destruct Hs as [Hs _].
    rewrite Forall_forall in HLnew. specialize (HLnew x Hx).
    destruct (same_pair_inv _ _ _ _ _ Hs) as [[E0 E1] | (_ & E0 & E1)];
      rewrite E0, E1 in HLnew; destruct HLnew; congruence. }
  assert (Hfg : List.length (filter (fun x => negb (is_split g1 ets x)) (edges g))
                + List.length ets = List.length (edges g)).
  { rewrite <- (length_map fst ets).
    rewrite <- (unsplit_count (is_directed g) (edges g) (map fst ets) Hdist Hnd Hedge).
    f_equal. f_equal. apply filter_ext. intro x. unfold is_split. rewrite Kd.
    rewrite (existsb_fst (fun k => same_edge (is_directed g) (fst x) k) ets). reflexivity. }
  rewrite HfL in Hperm. rewrite Hperm, HL, Hlen. lia.
Qed.
End MergeCounts.

(** ** A run of [spatial_graph_merge], step by step *)

Lemma staging_run {S} (o : Graph) (unmerged_nodes merging_nodes : list Name) (s : S) :
  (if 0 <? List.length merging_nodes then
     graph_nodes_to_gdf (subgraph o merging_nodes)
   else
     bind (graph_nodes_to_gdf o) (fun nodes_gdf => drop_index nodes_gdf unmerged_nodes)) s
  = (s, staged_rows o unmerged_nodes merging_nodes).
Proof.
  unfold staged_rows. destruct (0 <? List.length merging_nodes).
  - unfold graph_nodes_to_gdf. cbn [x_key y_key subgraph].
    destruct (rows_of_nodes _ _ _); reflexivity.
  - unfold bind, graph_nodes_to_gdf.
    destruct (rows_of_nodes (x_key o) (y_key o) (nodes o)) as [rs | e]; [| reflexivity].
    unfold ret, drop_index. destruct (forallb _ _); reflexivity.
Qed.

(** [nx.compose] on two objects of the same kind allocates their union. *)
Lemma compose_run (G H : Ref) (h : Heap) :
  is_multigraph (objs h G) = is_multigraph (objs h H) ->
  exists h',
    compose G H h = (h', Ok (next h))
    /\ next h' = S (next h)
    /\ objs h' (next h) = compose_graphs (objs h G) (objs h H)
    /\ forall r, r <> next h -> objs h' r = objs h r.
Proof.
  intro Hm. unfold compose. rewrite !bind_on_self. rewrite objs_store_same.
  rewrite Hm, Bool.eqb_reflx. unfold alloc. eexists. split; [reflexivity |].
  cbn [next objs store]. rewrite Nat.eqb_refl.
  split; [reflexivity |]. split; [reflexivity |].
  intros r Hr. destruct (Nat.eqb_spec r (next h)) as [E |]; [contradiction |].
  destruct (Nat.eqb_spec r H) as [-> |]; [reflexivity |].
  destruct (Nat.eqb_spec r G) as [-> |]; reflexivity.
Qed.

Section PointsMergeRuns.
Context {C : Collaborators}.

Lemma points_merge_inplace_run (h : Heap) (graph : Ref) (points_gdf : GeoDataFrame)
      (merge_direction : string) :
  let body := points_merge_body points_gdf merge_direction (objs h graph) in
  exists h',
    spatial_points_merge graph points_gdf true merge_direction h
    = (h', match snd body with Ok _ => Ok None | Raise e => Raise e end)
    /\ next h' = next h
    /\ objs h' graph = fst body
    /\ forall r, r <> graph -> objs h' r = objs h r.
Proof.
  intro body. subst body.
  unfold spatial_points_merge, bind, on, ret. cbn [negb].
  destruct (points_merge_body points_gdf merge_direction (objs h graph)) as [g' [[] | e]];
    eexists; (split; [reflexivity |]); cbn [fst snd next objs store];
    rewrite Nat.eqb_refl; (split; [reflexivity |]); (split; [reflexivity |]);
    intros r Hr; destruct (Nat.eqb_spec r graph); [contradiction | reflexivity
                                                   | contradiction | reflexivity].
Qed.

Lemma points_merge_copy_run (h : Heap) (graph : Ref) (points_gdf : GeoDataFrame)
      (merge_direction : string) :
  let body := points_merge_body points_gdf merge_direction (objs h graph) in
  exists h',
    spatial_points_merge graph points_gdf false merge_direction h
    = (h', match snd body with Ok _ => Ok (Some (next h)) | Raise e => Raise e end)
    /\ next h' = S (next h)
    /\ objs h' (next h) = fst body
    /\ forall r, r <> next h -> objs h' r = objs h r.
Proof.
  intro body. subst body.
  unfold spatial_points_merge, copy, bind, on, self, alloc, ret, store.
  cbn [negb next objs]. rewrite !Nat.eqb_refl.
  destruct (points_merge_body points_gdf merge_direction (objs h graph)) as [g' [[] | e]];
    eexists; (split; [reflexivity |]); cbn [fst snd next objs];
    rewrite Nat.eqb_refl; (split; [reflexivity |]); (split; [reflexivity |]);
    intros r Hr; destruct (Nat.eqb_spec r (next h)) as [E |]; try contradiction;
    destruct (Nat.eqb_spec r graph) as [-> |]; reflexivity.
Qed.
End PointsMergeRuns.

Section GraphMergeRun.
Context {C : Collaborators}.

(** Every run of [spatial_graph_merge] that passes the three checks, on two
    objects of the heap: what it returns or raises, and what each object
    holds afterwards. *)
Lemma graph_merge_run (h : Heap) (base_graph other_graph : Ref) (inplace : bool)
      (merge_direction : string) (unmerged_nodes merging_nodes : list Name) :
  let b := objs h base_graph in
  let o := objs h other_graph in
  base_graph < next h -> other_graph < next h ->
  is_directed b = is_directed o ->
  is_multigraph b = is_multigraph o ->
  unmerged_nodes = [] \/ merging_nodes = [] ->
  let run := spatial_graph_merge base_graph other_graph inplace merge_direction
                                 unmerged_nodes merging_nodes h in
  match staged_rows o unmerged_nodes merging_nodes with
  | Raise e =>
      snd run = Raise e /\ next (fst run) = next h /\ forall r, objs (fst run) r = objs h r
  | Ok nodes_gdf =>
      let body := points_merge_body nodes_gdf merge_direction b in
      if inplace then
        objs (fst run) base_graph = fst body
        /\ (forall r, r < next h -> r <> base_graph -> objs (fst run) r = objs h r)
        /\ match snd body with
           | Raise e => snd run = Raise e /\ next (fst run) = next h
           | Ok _ =>
               snd run = Ok None /\ next (fst run) = S (next h)
               /\ objs (fst run) (next h)
                  = compose_graphs (fst body)
                                   (if Nat.eqb other_graph base_graph then fst body else o)
           end
      else
        (forall r, r < next h -> objs (fst run) r = objs h r)
        /\ objs (fst run) (next h) = fst body
        /\ match snd body with
           | Raise e => snd run = Raise e /\ next (fst run) = S (next h)
           | Ok _ =>
               snd run = Ok (Some (S (next h))) /\ next (fst run) = S (S (next h))
               /\ objs (fst run) (S (next h)) = compose_graphs (fst body) o
           end
  end.
Proof.
  intros b o Hb Ho Hd Hm Hlists run.
  destruct run as [hf res] eqn:Erun. subst run. cbn [fst snd].
  unfold spatial_graph_merge in Erun. rewrite !bind_on_self in Erun.
  rewrite objs_store_same in Erun. fold b in Erun. fold o in Erun.
  set (h2 := store (store h base_graph b) other_graph o) in Erun.
  assert (Hn2 : next h2 = next h) by reflexivity.
  assert (Ho2 : forall r, objs h2 r = objs h r).
  { intro r. unfold h2. simpl.
    destruct (Nat.eqb_spec r other_graph) as [-> |]; [reflexivity |].
    destruct (Nat.eqb_spec r base_graph) as [-> |]; reflexivity. }
  rewrite Hd, Hm, !Bool.eqb_reflx in Erun. cbn [negb] in Erun.
  assert (Hl : (0 <? List.length unmerged_nodes) && (0 <? List.length merging_nodes) = false).
  { destruct Hlists as [-> | ->]; [reflexivity | apply andb_false_r]. }
  rewrite Hl in Erun. unfold bind at 1 in Erun. rewrite staging_run in Erun.
  destruct (staged_rows o unmerged_nodes merging_nodes) as [gdf | e].
  2:{ injection Erun as <- <-. auto. }
  cbv zeta.
  assert (Kb : same_keys b (fst (points_merge_body gdf merge_direction b)))
    by apply kk_points_merge_body.
  destruct inplace; cbn [negb] in Erun.
  - destruct (points_merge_inplace_run h2 base_graph gdf merge_direction)
      as (h3 & Hrun & Hn3 & Hb3 & Ho3).
    cbv zeta in Hrun, Hb3. rewrite Ho2 in Hrun, Hb3. fold b in Hrun, Hb3.
    unfold bind at 1 in Erun. unfold bind at 1 in Erun. rewrite Hrun in Erun.
    destruct (points_merge_body gdf merge_direction b) as [g' [[] | e]] eqn:Eb;
      cbn [fst snd] in *.
    + unfold ret at 1 in Erun.
      assert (Hother : objs h3 other_graph = if Nat.eqb other_graph base_graph then g' else o).
      { destruct (Nat.eqb_spec other_graph base_graph) as [-> | Hne]; [exact Hb3 |].
        rewrite (Ho3 _ Hne). apply Ho2. }
      assert (Hmulti : is_multigraph (objs h3 base_graph) = is_multigraph (objs h3 other_graph)).
      { rewrite Hother, Hb3. destruct (Nat.eqb other_graph base_graph); [reflexivity |].
        destruct Kb as (_ & Km & _). congruence. }
      destruct (compose_run base_graph other_graph h3 Hmulti) as (h4 & Hc & Hn4 & Hu4 & Ho4).
      unfold bind at 1 in Erun. rewrite Hc in Erun. unfold ret in Erun.
      injection Erun as <- <-.
      assert (Hfresh : forall r, r < next h -> r <> next h3) by (intros r Hr; lia).
      split; [rewrite (Ho4 _ (Hfresh _ Hb)); exact Hb3 |].
      split.
      { intros r Hr Hne. rewrite (Ho4 _ (Hfresh _ Hr)), (Ho3 _ Hne). apply Ho2. }
      split; [reflexivity |]. split; [lia |].
      replace (next h) with (next h3) by lia. rewrite Hu4, Hb3, Hother. reflexivity.
    + injection Erun as <- <-.
      split; [exact Hb3 |]. split; [| split; [reflexivity | lia]].
      intros r Hr Hne. rewrite (Ho3 _ Hne). apply Ho2.
  - destruct (points_merge_copy_run h2 base_graph gdf merge_direction)
      as (h3 & Hrun & Hn3 & Hb3 & Ho3).
    cbv zeta in Hrun, Hb3. rewrite Ho2 in Hrun, Hb3. fold b in Hrun, Hb3.
    rewrite Hn2 in Hrun, Hn3, Hb3, Ho3.
    unfold bind at 1 in Erun. unfold bind at 1 in Erun. rewrite Hrun in Erun.
    assert (Hold : forall r, r < next h -> objs h3 r = objs h r).
    { intros r Hr. rewrite Ho3 by lia. apply Ho2. }
    destruct (points_merge_body gdf merge_direction b) as [g' [[] | e]] eqn:Eb;
      cbn [fst snd] in *.
    + unfold lookup at 1 in Erun. unfold ret at 1 in Erun.
      assert (Hmulti : is_multigraph (objs h3 (next h)) = is_multigraph (objs h3 other_graph)).
      { rewrite Hb3, (Hold _ Ho). fold o. destruct Kb as (_ & Km & _). congruence. }
      destruct (compose_run (next h) other_graph h3 Hmulti) as (h4 & Hc & Hn4 & Hu4 & Ho4).
      unfold bind at 1 in Erun. rewrite Hc in Erun. unfold ret in Erun.
      injection Erun as <- <-. rewrite Hn3 in *.
      split.
      { intros r Hr. rewrite Ho4 by lia. apply Hold. exact Hr. }
      split; [rewrite Ho4 by lia; exact Hb3 |].
      split; [reflexivity |]. split; [lia |].
      rewrite Hu4, Hb3, (Hold _ Ho). reflexivity.
    + injection Erun as <- <-.
      split; [exact Hold |]. split; [exact Hb3 |]. split; [reflexivity | lia].
Qed.
End GraphMergeRun.

(** ** What a composition holds *)

Lemma has_node_add_node g n c m :
  has_node g m = true -> has_node (add_node g n c) m = true.
Proof.
  intro H. apply has_node_get_some in H. destruct H as [a Ha].
  apply has_node_get_some. destruct (String.eqb_spec n m) as [-> | Hne].
  - rewrite node_get_add_node_same. eauto.
  - rewrite (node_get_add_node_other g n c m Hne). eauto.
Qed.

Lemma has_node_add_node_self g n c : has_node (add_node g n c) n = true.
Proof. apply has_node_get_some. rewrite node_get_add_node_same. eauto. Qed.

Lemma has_node_add_nodes_from ns : forall R n,
  has_node R n = true \/ In n (map fst ns) -> has_node (add_nodes_from R ns) n = true.
Proof.
  induction ns as [| [m c] t IH]; intros R n H.
  - destruct H as [H | []]. exact H.
  - unfold add_nodes_from. cbn [fold_left fst snd]. apply IH.
    destruct H as [H | [<- | H]].
    + left. apply has_node_add_node. exact H.
    + left. apply has_node_add_node_self.
    + right. exact H.
Qed.

Lemma has_node_add_edges_from es R n :
  has_node R n = true -> has_node (add_edges_from R es) n = true.
Proof.
  intro H. apply has_node_get_some in H. destruct H as [a Ha].
  apply has_node_get_some. exists a. apply add_edges_from_keeps_node. exact Ha.
Qed.

Lemma has_node_In g n : has_node g n = true -> In n (map fst (nodes g)).
Proof.
  intro H. apply has_node_get_some in H. destruct H as [a Ha].
  destruct (dict_get_In _ _ _ _ Ha) as (k' & Hin & Hk).
  apply String.eqb_eq in Hk. subst k'. apply in_map_iff. exists (n, a). auto.
Qed.

Lemma has_edge_ensure_node g n e : has_edge (ensure_node g n) e = has_edge g e.
Proof. unfold ensure_node. destruct (has_node g n); reflexivity. Qed.

Lemma has_edge_put_same g u v key a : has_edge (put_edge g u v key a) (mkEdge u v key) = true.
Proof.
  assert (Hrefl : same_edge (is_directed g) (mkEdge u v key) (mkEdge u v key) = true).
  { unfold same_edge, same_pair. cbn [e0 e1 ekey].
    rewrite !String.eqb_refl, Nat.eqb_refl. reflexivity. }
  unfold put_edge.
  destruct (dict_get (same_edge (is_directed g)) (edges g) (mkEdge u v key)) as [old |] eqn:E.
  - rewrite (has_edge_keys g);
      [| reflexivity | cbn [edges set_edges]; apply (dict_set_found_keys _ _ _ _ old E)].
    destruct (dict_get_In _ _ _ _ E) as (k' & Hin & Hk).
    unfold has_edge. apply existsb_exists. exists (k', old). auto.
  - unfold has_edge. cbn [edges set_edges is_directed]. rewrite existsb_app.
    cbn [existsb fst]. rewrite Hrefl. apply orb_true_iff. right. reflexivity.
Qed.

Lemma has_edge_put_mono g u v key a e :
  has_edge g e = true -> has_edge (put_edge g u v key a) e = true.
Proof.
  intro H. unfold put_edge.
  destruct (dict_get (same_edge (is_directed g)) (edges g) (mkEdge u v key)) as [old |] eqn:E.
  - rewrite (has_edge_keys g);
      [exact H | reflexivity | cbn [edges set_edges]; apply (dict_set_found_keys _ _ _ _ old E)].
  - unfold has_edge in *. cbn [edges set_edges is_directed]. rewrite existsb_app, H.
    reflexivity.
Qed.

Lemma add_edges_from_keys es : forall R, same_keys R (add_edges_from R es).
Proof.
  induction es as [| x t IH]; intro R; [apply same_keys_refl |].
  unfold add_edges_from. cbn [fold_left].
  eapply same_keys_trans; [apply add_edge_keyed_keys | apply IH].
Qed.

Lemma add_nodes_from_keys ns : forall R, same_keys R (add_nodes_from R ns).
Proof.
  induction ns as [| x t IH]; intro R; [apply same_keys_refl |].
  unfold add_nodes_from. cbn [fold_left].
  eapply same_keys_trans; [apply add_node_keys | apply IH].
Qed.

Lemma has_edge_add_edge_keyed_mono g u v key a e :
  has_edge g e = true -> has_edge (add_edge_keyed g u v key a) e = true.
Proof.
  intro H. unfold add_edge_keyed. apply has_edge_put_mono.
  rewrite !has_edge_ensure_node. exact H.
Qed.

Lemma has_edge_add_edges_from es : forall R e,
  has_edge R e = true
  \/ (exists x, In x es
                /\ e = mkEdge (e0 (fst x)) (e1 (fst x))
                              (if is_multigraph R then ekey (fst x) else 0)) ->
  has_edge (add_edges_from R es) e = true.
Proof.
  induction es as [| y t IH]; intros R e H.
  - destruct H as [H | (x & [] & _)]. exact H.
  - unfold add_edges_from. cbn [fold_left]. apply IH.
    assert (Hm : is_multigraph (add_edge_keyed R (e0 (fst y)) (e1 (fst y)) (ekey (fst y)) (snd y))
                 = is_multigraph R).
    { destruct (add_edge_keyed_keys R (e0 (fst y)) (e1 (fst y)) (ekey (fst y)) (snd y))
        as (_ & Km & _). exact Km. }
    destruct H as [H | (x & [<- | Hin] & ->)].
    + left. apply has_edge_add_edge_keyed_mono. exact H.
    + left. unfold add_edge_keyed. apply has_edge_put_same.
    + right. exists x. rewrite Hm. auto.
Qed.

(** [nx.compose(G, H)] holds every node and every edge of both graphs, and
    is of the kind of [G]. *)
Lemma compose_graphs_holds (G H : Graph) :
  same_keys G (compose_graphs G H)
  /\ (forall n, has_node G n = true \/ has_node H n = true ->
                has_node (compose_graphs G H) n = true)
  /\ (forall x, In x (edges G) \/ In x (edges H) ->
                has_edge (compose_graphs G H)
                         (mkEdge (e0 (fst x)) (e1 (fst x))
                                 (if is_multigraph G then ekey (fst x) else 0)) = true).
Proof.
  unfold compose_graphs.
  set (R0 := mkGraph (is_directed G) (is_multigraph G) (x_key G) (y_key G)
                     (edges_geometry_key G) [] []).
  set (R1 := add_nodes_from R0 (nodes G)).
  set (R2 := add_nodes_from R1 (nodes H)).
  set (R3 := add_edges_from R2 (edges G)).
  assert (K0 : same_keys G R0) by (repeat split).
  assert (K1 : same_keys G R1).
  { apply (same_keys_trans G R0); [exact K0 | apply add_nodes_from_keys]. }
  assert (K2 : same_keys G R2).
  { apply (same_keys_trans G R1); [exact K1 | apply add_nodes_from_keys]. }
  assert (K3 : same_keys G R3).
  { apply (same_keys_trans G R2); [exact K2 | apply add_edges_from_keys]. }
  split; [apply (same_keys_trans G R3); [exact K3 | apply add_edges_from_keys] |].
  split.
  - intros n Hn. apply has_node_add_edges_from. apply has_node_add_edges_from.
    destruct Hn as [Hn | Hn].
    + apply has_node_add_nodes_from. left. apply has_node_add_nodes_from. right.
      apply has_node_In. exact Hn.
    + apply has_node_add_nodes_from. right. apply has_node_In. exact Hn.
  - intros x [Hx | Hx].
    + apply has_edge_add_edges_from. left. apply has_edge_add_edges_from. right.
      exists x. split; [exact Hx |]. destruct K2 as (_ & Km & _). rewrite Km. reflexivity.
    + apply has_edge_add_edges_from. right.
      exists x. split; [exact Hx |]. destruct K3 as (_ & Km & _). rewrite Km. reflexivity.
Qed.

(** ** The exceptions of the loops *)

Section RaisesOnly.
Context (ok : Exn -> bool).

Lemma ro_ret {S A} (a : A) : raises_only ok (@ret S A a).
Proof. intro s. exact I. Qed.

Lemma ro_raise {S A} (e : Exn) : ok e = true -> raises_only ok (@raise S A e).
Proof. intros H s. exact H. Qed.

Lemma ro_self {S} : raises_only ok (@self S).
Proof. intro s. exact I. Qed.

Lemma ro_mutate {S} (f : S -> S) : raises_only ok (mutate f).
Proof. intro s. exact I. Qed.

Lemma ro_lookup {S A} (o : option A) (e : Exn) : ok e = true -> raises_only ok (@lookup S A o e).
Proof. intros H s. destruct o; [exact I | exact H]. Qed.

Lemma ro_bind {S A B} (m : SE S A) (f : A -> SE S B) :
  raises_only ok m -> (forall a, raises_only ok (f a)) -> raises_only ok (bind m f).
Proof.
  intros Hm Hf s. unfold bind. specialize (Hm s).
  destruct (m s) as [s' [a | e]]; cbn [snd] in *; [apply Hf | exact Hm].
Qed.

Lemma ro_for_each {St A S} (xs : list A) (body : S -> A -> SE St S) :
  (forall acc x, raises_only ok (body acc x)) ->
  forall acc, raises_only ok (for_each xs body acc).
Proof.
  intro Hb. induction xs as [| x t IH]; intro acc; cbn [for_each].
  - apply ro_ret.
  - apply ro_bind; [apply Hb | intro; apply IH].
Qed.
End RaisesOnly.

Create HintDb rodb.

Ltac ro_step :=
  first
    [ solve [auto 1 with rodb nocore]
    | apply ro_ret | apply ro_self | apply ro_mutate
    | apply ro_raise; reflexivity
    | apply ro_lookup; reflexivity
    | apply ro_bind; [| intro]
    | apply ro_for_each; intros ].

Ltac ro := repeat (ro_step || match goal with
                               | |- raises_only _ (if ?b then _ else _) => destruct b
                               end).

Lemma ro_as_float v : raises_only not_networkx_error (as_float v).
Proof. destruct v; first [apply ro_ret | apply ro_raise; reflexivity]. Qed.
#[local] Hint Resolve ro_as_float : rodb.

Lemma ro_as_line v : raises_only not_networkx_error (as_line v).
Proof. destruct v; first [apply ro_ret | apply ro_raise; reflexivity]. Qed.
#[local] Hint Resolve ro_as_line : rodb.

Lemma ro_node_attr n k : raises_only not_networkx_error (node_attr n k).
Proof. unfold node_attr. ro. Qed.
#[local] Hint Resolve ro_node_attr : rodb.

Lemma ro_node_point n : raises_only not_networkx_error (node_point n).
Proof. unfold node_point. ro. Qed.
#[local] Hint Resolve ro_node_point : rodb.

Lemma ro_edge_data a b : raises_only not_networkx_error (edge_data a b).
Proof. unfold edge_data, get_node_coordinates, segment. ro. Qed.
#[local] Hint Resolve ro_edge_data : rodb.

Lemma ro_searched {S} r : raises_only not_networkx_error (@searched S r).
Proof. destruct r; first [apply ro_ret | apply ro_raise; reflexivity]. Qed.
#[local] Hint Resolve ro_searched : rodb.

Section LoopExceptions.
Context {C : Collaborators}.

Lemma ro_connect d p i : raises_only not_networkx_error (connect d p i).
Proof. unfold connect. ro. Qed.
#[local] Hint Resolve ro_connect : rodb.

Lemma ro_place_intersection ets e l idx pt :
  raises_only not_networkx_error (place_intersection ets e l idx pt).
Proof. unfold place_intersection, closest_extremity. ro. Qed.
#[local] Hint Resolve ro_place_intersection : rodb.

Lemma ro_merge_point eal li d ets it :
  raises_only not_networkx_error (merge_point eal li d ets it).
Proof. unfold merge_point. ro. Qed.
#[local] Hint Resolve ro_merge_point : rodb.

Lemma ro_splice_edge eal u it : raises_only not_networkx_error (splice_edge eal u it).
Proof. unfold splice_edge, cut_initial_line, add_intermediary, add_line_edge. ro. Qed.
#[local] Hint Resolve ro_splice_edge : rodb.

(** The body of [spatial_points_merge] raises nothing but what the
    nearest-line search, a missing key, an index out of range or a value of
    the wrong type raises. *)
Lemma ro_points_merge_body gdf dir :
  raises_only not_networkx_error (points_merge_body gdf dir).
Proof. unfold points_merge_body. ro. Qed.
End LoopExceptions.

Lemma rows_of_nodes_raises xk yk ns e :
  rows_of_nodes xk yk ns = Raise e -> not_networkx_error e = true.
Proof.
  induction ns as [| [n a] t IH]; simpl; [discriminate |].
  destruct (attr_get a xk) as [[] |]; destruct (attr_get a yk) as [[] |];
    try (intro H; inversion H; reflexivity).
  destruct (rows_of_nodes xk yk t); [discriminate |].
  intro H. inversion H. subst. apply IH. reflexivity.
Qed.

Lemma staged_rows_raises o unmerged_nodes merging_nodes e :
  staged_rows o unmerged_nodes merging_nodes = Raise e -> not_networkx_error e = true.
Proof.
  unfold staged_rows. destruct (0 <? List.length merging_nodes).
  - apply rows_of_nodes_raises.
  - destruct (rows_of_nodes (x_key o) (y_key o) (nodes o)) as [rs | e'] eqn:E.
    + destruct (forallb _ _); [discriminate |]. intro H. inversion H. reflexivity.
    + intro H. inversion H. subst. apply (rows_of_nodes_raises _ _ _ _ E).
Qed.

(** ** Properties of [spatial_graph_merge] *)

Lemma rows_of_nodes_index xk yk : forall ns rs,
  rows_of_nodes xk yk ns = Ok rs -> map row_index rs = map fst ns.
Proof.
  induction ns as [| [n a] t IH]; intros rs H; simpl in H.
  - inversion H. reflexivity.
  - destruct (attr_get a xk) as [[x | | |] |]; destruct (attr_get a yk) as [[y | | |] |];
      try discriminate.
    destruct (rows_of_nodes xk yk t) as [rs' |]; [| discriminate].
    inversion H. subst. cbn [map row_index fst]. rewrite (IH rs' eq_refl). reflexivity.
Qed.

Lemma has_node_false_notin g n : has_node g n = false -> ~ In n (map fst (nodes g)).
Proof.
  unfold has_node, dict_mem. induction (nodes g) as [| [k a] t IH]; [intros _ [] |].
  simpl. destruct (String.eqb_spec k n) as [-> | Hne]; [discriminate |].
  intros H [E | Hin]; [contradiction | exact (IH H Hin)].
Qed.

Section GraphMergeProperties.
Context {C : Collaborators}.

(** A run that fails one of the three checks: a [ValueError], and the heap
    as it was. *)
Lemma graph_merge_rejected (h : Heap) (base_graph other_graph : Ref) (inplace : bool)
      (merge_direction : string) (unmerged_nodes merging_nodes : list Name) :
  is_directed (objs h base_graph) <> is_directed (objs h other_graph)
  \/ is_multigraph (objs h base_graph) <> is_multigraph (objs h other_graph)
  \/ (unmerged_nodes <> [] /\ merging_nodes <> []) ->
  let run := spatial_graph_merge base_graph other_graph inplace merge_direction
                                 unmerged_nodes merging_nodes h in
  (exists msg, snd run = Raise (ValueError msg))
  /\ next (fst run) = next h /\ forall r, objs (fst run) r = objs h r.
Proof.
  intros Hrej run. subst run.
  unfold spatial_graph_merge. rewrite !bind_on_self. rewrite objs_store_same.
  set (b := objs h base_graph) in *. set (o := objs h other_graph) in *.
  set (h2 := store (store h base_graph b) other_graph o).
  assert (Hh2 : next h2 = next h /\ forall r, objs h2 r = objs h r).
  { split; [reflexivity |]. intro r. unfold h2. simpl.
    destruct (Nat.eqb_spec r other_graph) as [-> |]; [reflexivity |].
    destruct (Nat.eqb_spec r base_graph) as [-> |]; reflexivity. }
  destruct (Bool.eqb (is_directed b) (is_directed o)) eqn:Ed; cbn [negb].
  2:{ split; [eexists; reflexivity | exact Hh2]. }
  destruct (Bool.eqb (is_multigraph b) (is_multigraph o)) eqn:Em; cbn [negb].
  2:{ split; [eexists; reflexivity | exact Hh2]. }
  destruct ((0 <? List.length unmerged_nodes) && (0 <? List.length merging_nodes)) eqn:El.
  { split; [eexists; reflexivity | exact Hh2]. }
  exfalso. apply Bool.eqb_prop in Ed. apply Bool.eqb_prop in Em.
  destruct Hrej as [H | [H | [H1 H2]]]; try contradiction.
  apply length_pos_nonempty in H1. apply length_pos_nonempty in H2.
  rewrite H1, H2 in El. discriminate.
Qed.

Lemma graph_merge_checks (b o : Graph) (unmerged_nodes merging_nodes : list Name) :
  (is_directed b = is_directed o /\ is_multigraph b = is_multigraph o
   /\ (unmerged_nodes = [] \/ merging_nodes = []))
  \/ (is_directed b <> is_directed o \/ is_multigraph b <> is_multigraph o
      \/ (unmerged_nodes <> [] /\ merging_nodes <> [])).
Proof.
  destruct (Bool.bool_dec (is_directed b) (is_directed o)) as [Hd | Hd]; [| auto].
  destruct (Bool.bool_dec (is_multigraph b) (is_multigraph o)) as [Hm | Hm]; [| auto].
  destruct unmerged_nodes as [| u us]; [auto |].
  destruct merging_nodes as [| m ms]; [auto |].
  right. right. right. split; discriminate.
Qed.

(** X8: on two graphs of the same kind and without [merging_nodes], naming
    in [unmerged_nodes] something that is not a node of [other_graph] makes
    [spatial_graph_merge] raise [KeyError] when the name is dropped from the
    staged batch, before anything is merged: no object is allocated and
    every object of the heap is as it was, in place as in copy mode. *)
Theorem graph_merge_unknown_unmerged_node
        (h : Heap) (base_graph other_graph : Ref) (inplace : bool)
        (merge_direction : string) (unmerged_nodes : list Name)
        (rows : GeoDataFrame) (n : Name) :
  let b := objs h base_graph in
  let o := objs h other_graph in
  base_graph < next h -> other_graph < next h ->
  is_directed b = is_directed o ->
  is_multigraph b = is_multigraph o ->
  rows_of_nodes (x_key o) (y_key o) (nodes o) = Ok rows ->
  In n unmerged_nodes -> has_node o n = false ->
  let run := spatial_graph_merge base_graph other_graph inplace merge_direction
                                 unmerged_nodes [] h in
  snd run = Raise KeyError
  /\ next (fst run) = next h
  /\ forall r, objs (fst run) r = objs h r.
Proof.
  intros b o Hb Ho Hd Hm Hrows Hin Hn run.
  pose proof (graph_merge_run h base_graph other_graph inplace merge_direction
                              unmerged_nodes [] Hb Ho Hd Hm (or_intror eq_refl)) as R.
  cbv zeta in R. fold o in R.
  assert (Hs : staged_rows o unmerged_nodes [] = Raise KeyError).
  { unfold staged_rows. cbn [List.length Nat.ltb Nat.leb]. rewrite Hrows.
    match goal with |- context [forallb ?f unmerged_nodes] =>
      destruct (forallb f unmerged_nodes) eqn:F end; [| reflexivity].
    exfalso.
    rewrite forallb_forall in F. specialize (F n Hin).
    apply existsb_exists in F. destruct F as (r & Hr & E).
    apply String.eqb_eq in E.
    apply (has_node_false_notin o n Hn).
    rewrite <- (rows_of_nodes_index _ _ _ _ Hrows). rewrite <- E.
    apply in_map. exact Hr. }
  rewrite Hs in R. exact R.
Qed.

(** X9: in place, [spatial_graph_merge] does to [base_graph] what copy mode
    does to the clone it merges the points into, and no more: whenever the
    copy-mode call returns a graph, the in-place call on the same heap
    returns [None], leaves in [base_graph] the graph that clone holds, and
    what copy mode returned is that graph composed with [other_graph]. *)
Theorem graph_merge_inplace_stops_before_union
        (h : Heap) (base_graph other_graph : Ref)
        (merge_direction : string) (unmerged_nodes merging_nodes : list Name) (r : Ref) :
  base_graph < next h -> other_graph < next h ->
  let copy_run := spatial_graph_merge base_graph other_graph false merge_direction
                                      unmerged_nodes merging_nodes h in
  let inplace_run := spatial_graph_merge base_graph other_graph true merge_direction
                                         unmerged_nodes merging_nodes h in
  snd copy_run = Ok (Some r) ->
  snd inplace_run = Ok None
  /\ objs (fst inplace_run) base_graph = objs (fst copy_run) (next h)
  /\ objs (fst copy_run) r
     = compose_graphs (objs (fst inplace_run) base_graph) (objs h other_graph).
Proof.
  intros Hb Ho copy_run inplace_run Hres.
  destruct (graph_merge_checks (objs h base_graph) (objs h other_graph)
                               unmerged_nodes merging_nodes)
    as [(Hd & Hm & Hl) | Hrej].
  2:{ destruct (graph_merge_rejected h base_graph other_graph false merge_direction
                                     unmerged_nodes merging_nodes Hrej) as ([msg H] & _).
      fold copy_run in H. rewrite H in Hres. discriminate. }
  pose proof (graph_merge_run h base_graph other_graph false merge_direction
                              unmerged_nodes merging_nodes Hb Ho Hd Hm Hl) as Rc.
  pose proof (graph_merge_run h base_graph other_graph true merge_direction
                              unmerged_nodes merging_nodes Hb Ho Hd Hm Hl) as Ri.
  cbv zeta in Rc, Ri. fold copy_run in Rc. fold inplace_run in Ri.
  destruct (staged_rows _ _ _) as [gdf | e].
  2:{ destruct Rc as (H & _). rewrite H in Hres. discriminate. }
  destruct Rc as (_ & Hclone & Rc). destruct Ri as (Hbase & _ & Ri).
  destruct (snd (points_merge_body gdf merge_direction (objs h base_graph))) as [[] | e].
  2:{ destruct Rc as (H & _). rewrite H in Hres. discriminate. }
  destruct Rc as (Hret & _ & Hu). destruct Ri as (Hnone & _).
  rewrite Hret in Hres. inversion Hres. subst r.
  split; [exact Hnone |]. split; [congruence |]. rewrite Hu, Hbase. reflexivity.
Qed.

(** X10: [spatial_graph_merge] writes to one object of the caller at most,
    [base_graph], and only in place: however the call ends, every other
    object that existed before it is as it was, and in copy mode
    [base_graph] is too.  In particular [other_graph] is never modified,
    in place or not, unless it is the very object passed as [base_graph]. *)
Theorem graph_merge_writes_base_only
        (h : Heap) (base_graph other_graph : Ref) (inplace : bool)
        (merge_direction : string) (unmerged_nodes merging_nodes : list Name) :
  base_graph < next h -> other_graph < next h ->
  let run := spatial_graph_merge base_graph other_graph inplace merge_direction
                                 unmerged_nodes merging_nodes h in
  forall r, r < next h -> (inplace = true -> r <> base_graph) ->
            objs (fst run) r = objs h r.
Proof.
  intros Hb Ho run r Hr Hne.
  destruct (graph_merge_checks (objs h base_graph) (objs h other_graph)
                               unmerged_nodes merging_nodes)
    as [(Hd & Hm & Hl) | Hrej].
  2:{ destruct (graph_merge_rejected h base_graph other_graph inplace merge_direction
                                     unmerged_nodes merging_nodes Hrej) as (_ & _ & H).
      apply H. }
  pose proof (graph_merge_run h base_graph other_graph inplace merge_direction
                              unmerged_nodes merging_nodes Hb Ho Hd Hm Hl) as R.
  cbv zeta in R. fold run in R.
  destruct (staged_rows _ _ _) as [gdf | e].
  - destruct inplace.
    + destruct R as (_ & H & _). apply H; [exact Hr | apply Hne; reflexivity].
    + destruct R as (H & _). apply H. exact Hr.
  - destruct R as (_ & _ & H). apply H.
Qed.


(** X12: the check that [nx.compose] makes of its two graphs never fails
    inside [spatial_graph_merge]: the points merge leaves the graph of the
    kind it was, and the two kinds were compared before.  So the call never
    ends with a [NetworkXError]. *)
Theorem graph_merge_never_networkx_error
        (h : Heap) (base_graph other_graph : Ref) (inplace : bool)
        (merge_direction : string) (unmerged_nodes merging_nodes : list Name) :
  base_graph < next h -> other_graph < next h ->
  forall msg,
    snd (spatial_graph_merge base_graph other_graph inplace merge_direction
                             unmerged_nodes merging_nodes h)
    <> Raise (NetworkXError msg).
Proof.
  intros Hb Ho msg.
  set (run := spatial_graph_merge _ _ _ _ _ _ _).
  destruct (graph_merge_checks (objs h base_graph) (objs h other_graph)
                               unmerged_nodes merging_nodes)
    as [(Hd & Hm & Hl) | Hrej].
  2:{ destruct (graph_merge_rejected h base_graph other_graph inplace merge_direction
                                     unmerged_nodes merging_nodes Hrej) as ([m H] & _).
      fold run in H. rewrite H. discriminate. }
  pose proof (graph_merge_run h base_graph other_graph inplace merge_direction
                              unmerged_nodes merging_nodes Hb Ho Hd Hm Hl) as R.
  cbv zeta in R. fold run in R.
  destruct (staged_rows _ _ _) as [gdf | e] eqn:Es.
  - pose proof (ro_points_merge_body gdf merge_direction (objs h base_graph)) as Hro.
    destruct inplace.
    + destruct R as (_ & _ & R).
      destruct (snd (points_merge_body gdf merge_direction (objs h base_graph)))
        as [[] | e]; destruct R as (H & _); rewrite H; [discriminate |].
      intro X. inversion X. subst e. discriminate Hro.
    + destruct R as (_ & _ & R).
      destruct (snd (points_merge_body gdf merge_direction (objs h base_graph)))
        as [[] | e]; destruct R as (H & _); rewrite H; [discriminate |].
      intro X. inversion X. subst e. discriminate Hro.
  - destruct R as (H & _). rewrite H. intro X. inversion X. subst e.
    pose proof (staged_rows_raises _ _ _ _ Es) as Y. discriminate Y.
Qed.
(** X13: a graph merge that cannot fail.  When the two graphs are of the
    same kind, at most one of the two lists is given, the nodes to merge
    are staged without an exception, and [base_graph] is ready for the
    merge of the staged batch, [spatial_graph_merge] ends without an
    exception: in copy mode it returns the second object it allocates, in
    place it returns [None]. *)
Theorem graph_merge_succeeds
        (h : Heap) (base_graph other_graph : Ref) (inplace : bool)
        (merge_direction : string) (unmerged_nodes merging_nodes : list Name)
        (nodes_gdf : GeoDataFrame) :
  let b := objs h base_graph in
  let o := objs h other_graph in
  base_graph < next h -> other_graph < next h ->
  is_directed b = is_directed o ->
  is_multigraph b = is_multigraph o ->
  unmerged_nodes = [] \/ merging_nodes = [] ->
  staged_rows o unmerged_nodes merging_nodes = Ok nodes_gdf ->
  names_are_new ->
  edges_closed b = true ->
  lines_ready b = true ->
  indexes_ready b nodes_gdf = true ->
  snd (spatial_graph_merge base_graph other_graph inplace merge_direction
                           unmerged_nodes merging_nodes h)
  = if inplace then Ok None else Ok (Some (S (next h))).
Proof.
  intros b o Hb Ho Hd Hm Hl Hs Hnew Hc Hr Hi.
  pose proof (graph_merge_run h base_graph other_graph inplace merge_direction
                              unmerged_nodes merging_nodes Hb Ho Hd Hm Hl) as R.
  cbv zeta in R. fold o in R. fold b in R. rewrite Hs in R.
  destruct (merge_run_frame b nodes_gdf merge_direction Hnew Hc Hr Hi)
    as (g' & N & Hrun & _).
  rewrite Hrun in R. cbn [fst snd] in R.
  destruct inplace.
  - destruct R as (_ & _ & H & _). exact H.
  - destruct R as (_ & _ & H & _). exact H.
Qed.
End GraphMergeProperties.

(** ** The order of the requests of an edge *)

Lemma filter_length_perm {A} (f : A -> bool) (l l' : list A) :
  Permutation l l' -> List.length (filter f l) = List.length (filter f l').
Proof.
  intro P. induction P as [| x l l' _ IH | x y l | l l' l'' _ IH1 _ IH2]; simpl.
  - reflexivity.
  - destruct (f x); simpl; congruence.
  - destruct (f x), (f y); reflexivity.
  - congruence.
Qed.

Lemma filter_length_In {A} (f : A -> bool) (l : list A) a :
  In a l -> f a = true -> 1 <= List.length (filter f l).
Proof.
  intros Hin Hf.
  assert (H : In a (filter f l)) by (apply filter_In; auto).
  destruct (filter f l); [contradiction | simpl; lia].
Qed.

(** With distinct distances, each request is the only one at its distance. *)
Lemma distinct_distances_alone l :
  distinct_distances l = true ->
  forall a, In a l ->
            List.length (filter (fun y => Qeq_bool (snd y) (snd a)) l) = 1.
Proof.
  induction l as [| x t IH]; intros Hd a Ha; [contradiction |].
  cbn [distinct_distances] in Hd. apply andb_true_iff in Hd. destruct Hd as [Hx Hd].
  rewrite forallb_forall in Hx.
  assert (Hne : forall y, In y t -> Qeq_bool (snd y) (snd x) = false).
  { intros y Hy. specialize (Hx y Hy). apply negb_true_iff in Hx.
    destruct (Qeq_bool (snd y) (snd x)) eqn:E; [| reflexivity].
    apply Qeq_bool_iff in E. symmetry in E. apply Qeq_bool_iff in E. congruence. }
  destruct Ha as [<- | Ha].
  - cbn [filter].
    assert (E : Qeq_bool (snd x) (snd x) = true) by (apply Qeq_bool_iff; reflexivity).
    rewrite E. cbn [List.length].
    rewrite (filter_ext_in _ (fun _ => false)); [| exact Hne].
    assert (F : filter (fun _ : Name * Q => false) t = []).
    { clear. induction t; simpl; auto. }
    rewrite F. reflexivity.
  - cbn [filter]. specialize (Hx a Ha). apply negb_true_iff in Hx. rewrite Hx.
    apply IH; assumption.
Qed.

Lemma alone_strict (l : list (Name * Q)) :
  Sorted by_distance l ->
  (forall a, In a l -> List.length (filter (fun y => Qeq_bool (snd y) (snd a)) l) = 1) ->
  StronglySorted (fun a b => (snd a < snd b)%Q) l.
Proof.
  intros Hs. apply Sorted_StronglySorted in Hs.
  2:{ intros a b c. unfold by_distance. apply Qle_trans. }
  induction Hs as [| a t Hs IH Hall]; intro Hone; [constructor |].
  assert (Ea : Qeq_bool (snd a) (snd a) = true) by (apply Qeq_bool_iff; reflexivity).
  assert (Hhead : forall c, In c t -> Qeq_bool (snd a) (snd c) = false
                                     /\ List.length (filter (fun y => Qeq_bool (snd y) (snd c)) t)
                                        = 1).
  { intros c Hc. specialize (Hone c (or_intror Hc)). cbn [filter] in Hone.
    assert (Ec : Qeq_bool (snd c) (snd c) = true) by (apply Qeq_bool_iff; reflexivity).
    pose proof (filter_length_In (fun y => Qeq_bool (snd y) (snd c)) t c Hc Ec) as Hge.
    destruct (Qeq_bool (snd a) (snd c)); cbn [List.length] in Hone; split;
      first [reflexivity | lia]. }
  constructor.
  - apply IH. intros c Hc. apply Hhead. exact Hc.
  - apply Forall_forall. intros c Hc. rewrite Forall_forall in Hall.
    specialize (Hall c Hc). unfold by_distance in Hall.
    destruct (Hhead c Hc) as [Hne _].
    apply Qle_lteq in Hall. destruct Hall as [Hlt | Heq]; [exact Hlt |].
    apply Qeq_bool_iff in Heq. congruence.
Qed.

Lemma strict_sorted_unique (l1 : list (Name * Q)) : forall l2,
  StronglySorted (fun a b => (snd a < snd b)%Q) l1 ->
  StronglySorted (fun a b => (snd a < snd b)%Q) l2 ->
  Permutation l1 l2 -> l1 = l2.
Proof.
  induction l1 as [| a t1 IH]; intros l2 H1 H2 P.
  - apply Permutation_nil in P. congruence.
  - destruct l2 as [| b t2]; [apply Permutation_sym, Permutation_nil in P; discriminate |].
    inversion H1 as [| a' t1' S1 A1]; subst. inversion H2 as [| b' t2' S2 A2]; subst.
    rewrite Forall_forall in A1, A2.
    assert (E : a = b).
    { assert (Ha : In a (b :: t2)) by (apply (Permutation_in _ P); left; reflexivity).
      assert (Hb : In b (a :: t1)).
      { apply (Permutation_in _ (Permutation_sym P)). left. reflexivity. }
      destruct Ha as [Ha | Ha]; [congruence |].
      destruct Hb as [Hb | Hb]; [congruence |].
      pose proof (A1 b Hb) as X. pose proof (A2 a Ha) as Y.
      exfalso. apply (Qlt_irrefl (snd a)). apply (Qlt_trans _ (snd b)); assumption. }
    subst b. f_equal. apply IH; trivial.
    apply (Permutation_cons_inv P).
Qed.

Lemma sorted_by_distance_order (reqs reqs' : list (Name * Q)) :
  Permutation reqs reqs' ->
  distinct_distances reqs = true ->
  sorted_by_distance reqs = sorted_by_distance reqs'.
Proof.
  intros P Hd.
  pose proof (distinct_distances_alone reqs Hd) as Hone.
  assert (P1 : Permutation (sorted_by_distance reqs) reqs) by apply sorted_by_distance_perm.
  assert (P2 : Permutation (sorted_by_distance reqs') reqs).
  { apply (Permutation_trans (sorted_by_distance_perm reqs')). apply Permutation_sym. exact P. }
  assert (Hall : forall l, Permutation l reqs ->
                           forall a, In a l ->
                                     List.length (filter (fun y => Qeq_bool (snd y) (snd a)) l)
                                     = 1).
  { intros l Pl a Ha. rewrite (filter_length_perm _ l reqs Pl). apply Hone.
    apply (Permutation_in _ Pl). exact Ha. }
  apply strict_sorted_unique.
  - apply alone_strict; [apply sorted_by_distance_sorted | apply Hall; exact P1].
  - apply alone_strict; [apply sorted_by_distance_sorted | apply Hall; exact P2].
  - apply (Permutation_trans P1). apply Permutation_sym. exact P2.
Qed.

Section RequestOrder.
Context {C : Collaborators}.

(** X7: how an edge is cut does not depend on the order in which its
    split requests were recorded, that is on the order of the points in the
    batch: when no two requests are at the same distance along the line, the
    splicer does the same to the graph for every rearrangement of them. *)
Theorem splice_ignores_request_order
        (g : Graph) (eal : list (EdgeKey * Value)) (e : EdgeKey)
        (reqs reqs' : list (Name * Q)) :
  Permutation reqs reqs' ->
  distinct_distances reqs = true ->
  splice_edge eal tt (e, reqs) g = splice_edge eal tt (e, reqs') g.
Proof.
  intros P Hd. unfold splice_edge. cbn [fst snd].
  rewrite (Permutation_length P).
  rewrite (sorted_by_distance_order reqs reqs' P Hd). reflexivity.
Qed.
End RequestOrder.

(** ** Runs on the sample graphs *)

(** On the scenario graph, the point [P] at (5,1) is merged into a clone and
    the graph handed in stays as it was. *)
Lemma points_merge_ownership_sample :
  0 < next (heap_of [AB false])
  /\ objs (fst (spatial_points_merge 0 [point_at "P" 5 1] false "both" (heap_of [AB false])))
          0
     = AB false.
Proof.
  split; [simpl; lia |].
  apply (proj1 (proj1 (points_merge_ownership (C := Rectilinear.collaborators)
                                              (heap_of [AB false]) 0 [point_at "P" 5 1] "both"
                                              ltac:(simpl; lia)))).
Defined.

(** C1, as stated, fails: [A] is a node of both graphs, at (0,0) in the
    primary graph and at (0,5) in the secondary one; in the graph the union
    step returns, [A] carries the attributes of the secondary graph. *)
Lemma union_overwrites_primary_attributes :
  let run := spatial_graph_merge 0 1 false "both" ["A"] [] (heap_of [AB false; CD]) in
  snd run = Ok (Some 3)
  /\ node_get (objs (fst run) 2) "A" = Some (at_xy 0 0)
  /\ node_get (objs (fst run) 1) "A" = Some (at_xy 0 5)
  /\ node_get (objs (fst run) 3) "A" = Some (at_xy 0 5)
  /\ node_get (objs (fst run) 3) "A" <> node_get (objs (fst run) 2) "A".
Proof.
  vm_compute. repeat split; discriminate.
Qed.

Lemma compose_node_attributes_sample :
  node_get (compose_graphs (AB false) CD) "A"
  = Some (attr_update (at_xy 0 0) (at_xy 0 5)).
Proof.
  apply (compose_node_attributes (AB false) CD "A" (at_xy 0 0) (at_xy 0 5)); reflexivity.
Defined.

(** C2 on the sample graphs, in place: the call returns [None]; the graph
    handed in has received the points [C] and [D], but neither the node [E]
    nor the edge from [C] to [D] of the second graph; the union exists only
    as a new object no reference to which is returned. *)
Theorem inplace_graph_merge_drops_union :
  let h := heap_of [AB false; CD] in
  let run := spatial_graph_merge 0 1 true "both" ["E"; "A"] [] h in
  snd run = Ok None
  /\ has_edge (objs h 1) (mkEdge "C" "D" 0) = true
  /\ has_node (objs h 1) "E" = true
  /\ has_node (objs (fst run) 0) "C" = true
  /\ has_edge (objs (fst run) 0) (mkEdge "C" "D" 0) = false
  /\ has_node (objs (fst run) 0) "E" = false
  /\ has_edge (objs (fst run) 2) (mkEdge "C" "D" 0) = true
  /\ has_node (objs (fst run) 2) "E" = true.
Proof.
  vm_compute. repeat split.
Qed.

(** The scenario graph with the point [P] at (5,1): an interior projection,
    recorded in the split table at distance 5 along the edge. *)
Lemma intersection_or_snap_sample :
  let g := AB false in
  let eal := get_edge_attributes (edges g) (edges_geometry_key g) in
  exists g' ets',
    merge_point eal [0] "both" [] (0, point_at "P" 5 1) g = (g', Ok ets')
    /\ List.length (nodes g') = 4
    /\ requested ets' (mkEdge "A" "B" 0) "intersection_P" = Some 5%Q.
Proof.
  destruct (intersection_or_snap (C := Rectilinear.collaborators) (AB false)
              (get_edge_attributes (edges (AB false)) (edges_geometry_key (AB false)))
              [0] "both" [] 0 (point_at "P" 5 1) (mkEdge "A" "B" 0)
              [(0, 0); (10, 0)]%Q (0, 0)%Q (10, 0)%Q
              eq_refl eq_refl eq_refl eq_refl eq_refl eq_refl)
    as (g' & ets' & Hrun & Hin & _).
  destruct (Hin ltac:(split; reflexivity)) as (Hn & _ & Hreq & _).
  exists g', ets'. split; [exact Hrun |]. split.
  - rewrite Hn. reflexivity.
  - exact Hreq.
Defined.

(** The directed scenario graph with the point [P] at (5,1): for ["in"] the
    one edge added runs from [P] to the intersection node created for it. *)
Lemma link_edges_sample :
  let g := AB true in
  let eal := get_edge_attributes (edges g) (edges_geometry_key g) in
  exists g' ets',
    merge_point eal [0] "in" [] (0, point_at "P" 5 1) g = (g', Ok ets')
    /\ map fst (edges g') = [mkEdge "A" "B" 0; mkEdge "P" "intersection_P" 0].
Proof.
  destruct (link_edges (C := Rectilinear.collaborators) (AB true)
              (get_edge_attributes (edges (AB true)) (edges_geometry_key (AB true)))
              [0] "in" [] 0 (point_at "P" 5 1) (mkEdge "A" "B" 0) [(0, 0); (10, 0)]%Q
              (0, 0)%Q (10, 0)%Q
              eq_refl eq_refl eq_refl eq_refl eq_refl eq_refl)
    as (g' & ets' & pp & pc & Hrun & _ & _ & _ & _ & Hin & _).
  exists g', ets'. split; [exact Hrun |].
  rewrite (Hin eq_refl eq_refl). reflexivity.
Defined.

(** A line that leaves [A] downwards and comes back up to [B]: the point at
    (5,3) projects on its start and is as far from [A] as from [B]. *)
Lemma equidistant_snaps_to_second_sample :
  place_intersection [] (mkEdge "A" "B" 0) [(0, 0); (0, -5); (10, -5); (10, 0)]%Q "P" (5, 3)%Q
                     (AB false)
  = (AB false, Ok ("B", [])).
Proof.
  apply (equidistant_snaps_to_second (C := Rectilinear.collaborators) (AB false) []
           (mkEdge "A" "B" 0) [(0, 0); (0, -5); (10, -5); (10, 0)]%Q "P" (5, 3)%Q
           (0, 0)%Q (10, 0)%Q);
    reflexivity.
Defined.

(** The directed scenario graph with a direction outside the documented
    ones: the one edge added runs from the intersection node to [P]. *)
Lemma other_direction_is_out_sample :
  let g := AB true in
  let eal := get_edge_attributes (edges g) (edges_geometry_key g) in
  exists g' ets',
    merge_point eal [0] "sideways" [] (0, point_at "P" 5 1) g = (g', Ok ets')
    /\ map fst (edges g') = [mkEdge "A" "B" 0; mkEdge "intersection_P" "P" 0].
Proof.
  destruct (other_direction_is_out (C := Rectilinear.collaborators) (AB true)
              (get_edge_attributes (edges (AB true)) (edges_geometry_key (AB true)))
              [0] "sideways" [] 0 (point_at "P" 5 1) (mkEdge "A" "B" 0) [(0, 0); (10, 0)]%Q
              (0, 0)%Q (10, 0)%Q
              eq_refl eq_refl eq_refl eq_refl eq_refl eq_refl eq_refl
              ltac:(discriminate) ltac:(discriminate))
    as (g' & ets' & pp & pc & Hrun & _ & _ & _ & He).
  exists g', ets'. split; [exact Hrun |].
  rewrite He. reflexivity.
Defined.

(** The sample name generator returns names that are not in use. *)
Lemma longest_bound ns n :
  dict_mem String.eqb ns n = true -> String.length n <= Rectilinear.longest ns.
Proof.
  unfold dict_mem. induction ns as [| [k a] t IH]; simpl; [discriminate |].
  destruct (String.eqb_spec k n) as [-> | N]; intro H; [lia |].
  specialize (IH H). lia.
Qed.

Lemma length_underscores n : String.length (Rectilinear.underscores n) = n.
Proof. induction n; simpl; congruence. Qed.

Lemma append_length (a b : string) :
  String.length (String.append a b) = String.length a + String.length b.
Proof. induction a; simpl; congruence. Qed.

Lemma rectilinear_names_are_new : names_are_new (C := Rectilinear.collaborators).
Proof.
  intros g n. cbn [get_new_node_unique_name Rectilinear.collaborators].
  unfold Rectilinear.get_new_node_unique_name. destruct (has_node g n) eqn:E.
  - destruct (has_node g (String.append n (Rectilinear.underscores
                                            (S (Rectilinear.longest (nodes g))))))
      eqn:F; [| reflexivity].
    apply longest_bound in F. rewrite append_length, length_underscores in F. lia.
  - exact E.
Qed.

(** The sample search raises none of the configuration errors. *)
Lemma rectilinear_search_errors_apart : search_errors_apart (C := Rectilinear.collaborators).
Proof.
  intros points lines msg H.
  cbn [get_closest_line_from_points Rectilinear.collaborators] in H.
  unfold Rectilinear.get_closest_line_from_points in H.
  destruct lines; inversion H. reflexivity.
Qed.



(** Two points on the scenario graph, one projected inside the edge and one
    snapping to [A]: three nodes are added, the intersection node after the
    node of the first point. *)
Lemma points_merge_node_count_sample :
  exists g',
    points_merge_body [point_at "P" 5 1; point_at "R" (-1) 0] "both" (AB false)
    = (g', Ok tt)
    /\ List.length (nodes g') = 2 + 2 + 1.
Proof.
  destruct (points_merge_node_count (C := Rectilinear.collaborators) (AB false)
              [point_at "P" 5 1; point_at "R" (-1) 0] "both"
              rectilinear_names_are_new eq_refl eq_refl eq_refl)
    as (g' & li & chunks & Eli & Hrun & _ & _ & Hlen & _).
  exists g'. split; [exact Hrun |].
  vm_compute in Eli. injection Eli as <-. exact Hlen.
Defined.

(** *** The sample line splitter *)

Module RectilinearFacts.
Import Rectilinear.
Local Open Scope Q_scope.

Lemma rect_abs_nonneg q : 0 <= Qabs' q.
Proof.
  unfold Qabs'. destruct (Qltb q 0) eqn:E.
  - apply Qltb_lt in E. lra.
  - destruct (Qlt_le_dec q 0) as [L | L]; [| exact L].
    apply Qltb_lt in L. congruence.
Qed.

Lemma rect_abs_scale t u v : 0 <= t -> v == t * u -> Qabs' v == t * Qabs' u.
Proof.
  intros Ht Hv. unfold Qabs'.
  destruct (Qltb v 0) eqn:E; destruct (Qltb u 0) eqn:F.
  - rewrite Hv. ring.
  - apply Qltb_lt in E.
    assert (0 <= u).
    { destruct (Qlt_le_dec u 0) as [L | L]; [| exact L]. apply Qltb_lt in L. congruence. }
    rewrite Hv in *. nra.
  - apply Qltb_lt in F.
    assert (0 <= v).
    { destruct (Qlt_le_dec v 0) as [L | L]; [| exact L]. apply Qltb_lt in L. congruence. }
    rewrite Hv in *. nra.
  - exact Hv.
Qed.

Lemma rect_span_nonneg a b : 0 <= span a b.
Proof.
  unfold span. rewrite Qred_correct.
  pose proof (rect_abs_nonneg (fst b - fst a)). pose proof (rect_abs_nonneg (snd b - snd a)). lra.
Qed.

Lemma rect_span_along_from a b t : 0 <= t -> span a (along a b t) == t * span a b.
Proof.
  intro Ht. unfold span, along. cbn [fst snd]. rewrite !Qred_correct.
  rewrite (rect_abs_scale t (fst b - fst a) (Qred (fst a + t * (fst b - fst a)) - fst a));
    [| exact Ht | rewrite Qred_correct; ring].
  rewrite (rect_abs_scale t (snd b - snd a) (Qred (snd a + t * (snd b - snd a)) - snd a));
    [| exact Ht | rewrite Qred_correct; ring].
  rewrite Qred_correct. ring.
Qed.

Lemma rect_span_along_to a b t : t <= 1 -> span (along a b t) b == (1 - t) * span a b.
Proof.
  intro Ht. unfold span, along. cbn [fst snd]. rewrite !Qred_correct.
  rewrite (rect_abs_scale (1 - t) (fst b - fst a) (fst b - Qred (fst a + t * (fst b - fst a))));
    [| lra | rewrite Qred_correct; ring].
  rewrite (rect_abs_scale (1 - t) (snd b - snd a) (snd b - Qred (snd a + t * (snd b - snd a))));
    [| lra | rewrite Qred_correct; ring].
  rewrite Qred_correct. ring.
Qed.

Lemma rect_line_length_cons a b t :
  line_length (a :: b :: t) == span a b + line_length (b :: t).
Proof. cbn [line_length]. apply Qred_correct. Qed.

Lemma rect_split_line_head b t x : exists tl, fst (split_line (b :: t) x) = b :: tl.
Proof.
  destruct t as [| c t']; cbn [split_line]; [eexists; reflexivity |].
  destruct (Qltb (span b c) x); [eexists; reflexivity |].
  destruct (Qeq_bool (span b c) x); eexists; reflexivity.
Qed.

Lemma rect_split_line_cons a b t d :
  split_line (a :: b :: t) d
  = if Qltb (span a b) d
    then (a :: fst (split_line (b :: t) (d - span a b)),
          snd (split_line (b :: t) (d - span a b)))
    else if Qeq_bool (span a b) d then ([a; b], b :: t)
         else ([a; along a b (d / span a b)], along a b (d / span a b) :: b :: t).
Proof. reflexivity. Qed.

(** The sample line splitter keeps the contract of the line splitter. *)
Lemma rect_split_exact l : forall d,
  0 <= d -> d <= line_length l ->
  line_length (fst (split_line l d)) == d
  /\ line_length (snd (split_line l d)) == line_length l - d.
Proof.
  induction l as [| a t IH]; intros d H0 H1.
  - cbn in *. lra.
  - destruct t as [| b t'].
    + cbn in *. lra.
    + rewrite rect_line_length_cons in H1. rewrite rect_split_line_cons.
      pose proof (rect_span_nonneg a b) as Hs.
      destruct (Qltb (span a b) d) eqn:E.
      * apply Qltb_lt in E. cbv zeta. cbn [fst snd].
        assert (P1 : 0 <= d - span a b) by lra.
        assert (P2 : d - span a b <= line_length (b :: t')) by lra.
        destruct (IH (d - span a b) P1 P2) as [I1 I2].
        destruct (rect_split_line_head b t' (d - span a b)) as [tl Htl].
        rewrite Htl in *. rewrite !rect_line_length_cons. lra.
      * assert (Hle : d <= span a b).
        { destruct (Qlt_le_dec (span a b) d) as [L | L]; [| exact L].
          apply Qltb_lt in L. congruence. }
        destruct (Qeq_bool (span a b) d) eqn:Q.
        -- apply Qeq_bool_iff in Q. cbn [fst snd]. rewrite !rect_line_length_cons.
           cbn [line_length]. lra.
        -- assert (Hne : ~ span a b == d).
           { intro X. apply Qeq_bool_iff in X. congruence. }
           assert (Hpos : 0 < span a b) by lra.
           cbn [fst snd]. rewrite !rect_line_length_cons.
           assert (Ht0 : 0 <= d / span a b).
           { apply Qle_shift_div_l; [exact Hpos | lra]. }
           assert (Ht1 : d / span a b <= 1).
           { apply Qle_shift_div_r; [exact Hpos | lra]. }
           rewrite (rect_span_along_from a b _ Ht0), (rect_span_along_to a b _ Ht1).
           cbn [line_length]. split; field_simplify_eq; try lra.
Qed.

End RectilinearFacts.

Lemma rectilinear_splitter_exact : splitter_exact (C := Rectilinear.collaborators).
Proof.
  intros line d H0 H1. apply RectilinearFacts.rect_split_exact; assumption.
Qed.



(** Two points on the edge of the scenario graph, at 7 and at 3 along its
    line: the edge is replaced by the chain through both intersection nodes. *)
Lemma split_table_replayed_sample :
  exists g',
    points_merge_body [point_at "P" 7 1; point_at "R" 3 (-1)] "both"
                      (AB false) = (g', Ok tt)
    /\ List.length (nodes g') = 6.
Proof.
  destruct (split_table_replayed (C := Rectilinear.collaborators) (AB false)
              [point_at "P" 7 1; point_at "R" 3 (-1)] "both"
              rectilinear_names_are_new eq_refl eq_refl eq_refl)
    as (li & g1 & ets & g' & Eli & Hrun1 & _ & Hrun & Hn & _).
  exists g'. split; [exact Hrun |].
  vm_compute in Eli. injection Eli as <-.
  rewrite Hn. vm_compute in Hrun1. injection Hrun1 as <- _. reflexivity.
Defined.

(** ** More runs on the sample graphs *)

(** The undirected scenario graph, merged in place in two directions. *)
Lemma undirected_merge_ignores_direction_sample :
  spatial_points_merge 0 [point_at "P" 5 1] true "both" (heap_of [AB false])
  = spatial_points_merge 0 [point_at "P" 5 1] true "in" (heap_of [AB false]).
Proof.
  apply (undirected_merge_ignores_direction (C := Rectilinear.collaborators)
           (heap_of [AB false]) 0 [point_at "P" 5 1] true "both" "in").
  reflexivity.
Defined.

(** The point [R] at (-1,0) snaps to an extremity of the edge of the graph
    whose node [A] has no coordinates. *)
Lemma snap_without_coordinates_sample :
  points_merge_body [point_at "R" (-1) 0] "both" ABbare
  = (set_nodes ABbare (nodes ABbare ++ [("R", at_xy (-1) 0)]), Raise KeyError).
Proof.
  apply (snap_without_coordinates_keeps_point_node (C := Rectilinear.collaborators)
           ABbare (point_at "R" (-1) 0) [] "both" [0] (mkEdge "A" "B" 0)
           [(0, 0); (10, 0)]%Q []);
    first [reflexivity | left; reflexivity].
Defined.

(** The point [R] at (-1,0) snaps to [A]: the edge of the scenario graph is
    kept as it is. *)
Lemma merge_keeps_unsplit_edges_sample :
  exists g',
    points_merge_body [point_at "R" (-1) 0] "both" (AB false) = (g', Ok tt)
    /\ In (mkEdge "A" "B" 0, [("geometry", VLine [(0, 0); (10, 0)]%Q)]) (edges g').
Proof.
  destruct (merge_keeps_unsplit_edges (C := Rectilinear.collaborators) (AB false)
              [point_at "R" (-1) 0] "both"
              rectilinear_names_are_new eq_refl eq_refl eq_refl)
    as (g' & Hrun & _ & He & _).
  exists g'. split; [exact Hrun |].
  apply (proj1 (He _ (or_introl eq_refl))).
  intros (li & p & row & e & l & Eli & Hn & Hce & Hin & _).
  vm_compute in Eli. injection Eli as <-.
  destruct p as [| p]; [| destruct p; discriminate Hn].
  injection Hn as <-. vm_compute in Hce. injection Hce as <- <-.
  vm_compute in Hin. discriminate Hin.
Defined.

(** Two points on the scenario graph, one inside the edge and one snapping
    to [A]: three nodes and three edges more. *)
Lemma merge_counts_sample :
  exists g' m,
    points_merge_body [point_at "P" 5 1; point_at "R" (-1) 0] "both" (AB false) = (g', Ok tt)
    /\ m <= 2
    /\ List.length (nodes g') = 2 + 2 + m
    /\ List.length (edges g') = 1 + 1 * 2 + m.
Proof.
  exact (merge_counts (C := Rectilinear.collaborators) (AB false)
           [point_at "P" 5 1; point_at "R" (-1) 0] "both"
           rectilinear_names_are_new eq_refl eq_refl eq_refl eq_refl eq_refl).
Defined.

(** The scenario graph is ready for a merge, and so is what the merge of a
    point leaves. *)
Lemma merged_graph_stays_ready_sample :
  exists g',
    points_merge_body [point_at "P" 5 1] "both" (AB false) = (g', Ok tt)
    /\ same_keys (AB false) g'
    /\ edges_closed g' = true
    /\ lines_ready g' = true.
Proof.
  exact (merged_graph_stays_ready (C := Rectilinear.collaborators) (AB false)
           [point_at "P" 5 1] "both" rectilinear_names_are_new eq_refl eq_refl eq_refl).
Defined.

(** [Z] is not a node of the second sample graph. *)
Lemma graph_merge_unknown_unmerged_node_sample :
  let run := spatial_graph_merge 0 1 true "both" ["E"; "Z"] [] (heap_of [AB false; CD]) in
  snd run = Raise KeyError
  /\ next (fst run) = 2
  /\ forall r, objs (fst run) r = objs (heap_of [AB false; CD]) r.
Proof.
  apply (graph_merge_unknown_unmerged_node (C := Rectilinear.collaborators)
           (heap_of [AB false; CD]) 0 1 true "both" ["E"; "Z"]
           [mkRow "C" (3, 2)%Q (at_xy 3 2); mkRow "D" (7, 2)%Q (at_xy 7 2);
            mkRow "E" (5, 9)%Q (at_xy 5 9); mkRow "A" (0, 5)%Q (at_xy 0 5)]
           "Z");
    first [reflexivity | simpl; lia | right; left; reflexivity].
Defined.

(** The two sample graphs, merged in copy mode and in place. *)
Lemma graph_merge_inplace_stops_before_union_sample :
  let h := heap_of [AB false; CD] in
  let copy_run := spatial_graph_merge 0 1 false "both" ["E"; "A"] [] h in
  let inplace_run := spatial_graph_merge 0 1 true "both" ["E"; "A"] [] h in
  snd inplace_run = Ok None
  /\ objs (fst inplace_run) 0 = objs (fst copy_run) 2
  /\ objs (fst copy_run) 3 = compose_graphs (objs (fst inplace_run) 0) CD.
Proof.
  exact (graph_merge_inplace_stops_before_union (C := Rectilinear.collaborators)
           (heap_of [AB false; CD]) 0 1 "both" ["E"; "A"] [] 3
           ltac:(simpl; lia) ltac:(simpl; lia) ltac:(vm_compute; reflexivity)).
Defined.

(** In place, the second sample graph is as it was after the call. *)
Lemma graph_merge_writes_base_only_sample :
  objs (fst (spatial_graph_merge 0 1 true "both" ["E"; "A"] [] (heap_of [AB false; CD]))) 1
  = CD.
Proof.
  apply (graph_merge_writes_base_only (C := Rectilinear.collaborators)
           (heap_of [AB false; CD]) 0 1 true "both" ["E"; "A"] [] ltac:(simpl; lia)
           ltac:(simpl; lia) 1 ltac:(simpl; lia)).
  intros _. discriminate.
Defined.


(** The two sample graphs: no error of the composition. *)
Lemma graph_merge_never_networkx_error_sample :
  snd (spatial_graph_merge 0 1 true "both" ["E"; "A"] [] (heap_of [AB false; CD]))
  <> Raise (NetworkXError "G and H must both be graphs or multigraphs.").
Proof.
  apply (graph_merge_never_networkx_error (C := Rectilinear.collaborators)
           (heap_of [AB false; CD]) 0 1 true "both" ["E"; "A"] []); simpl; lia.
Defined.

(** The two sample graphs, [C] and [D] merged as points: the call returns
    the second object it allocates. *)
Lemma graph_merge_succeeds_sample :
  snd (spatial_graph_merge 0 1 false "both" ["E"; "A"] [] (heap_of [AB false; CD]))
  = Ok (Some 3).
Proof.
  apply (graph_merge_succeeds (C := Rectilinear.collaborators)
           (heap_of [AB false; CD]) 0 1 false "both" ["E"; "A"] []
           [mkRow "C" (3, 2)%Q (at_xy 3 2); mkRow "D" (7, 2)%Q (at_xy 7 2)]);
    first [exact rectilinear_names_are_new | reflexivity | simpl; lia | right; reflexivity].
Defined.

(** The two requests on the edge of the scenario graph, in both orders. *)
Lemma splice_ignores_request_order_sample :
  let eal := get_edge_attributes (edges ABplaced) (edges_geometry_key ABplaced) in
  splice_edge eal tt (mkEdge "A" "B" 0, [("J", 7); ("I", 3)]%Q) ABplaced
  = splice_edge eal tt (mkEdge "A" "B" 0, [("I", 3); ("J", 7)]%Q) ABplaced.
Proof.
  apply (splice_ignores_request_order (C := Rectilinear.collaborators) ABplaced
           (get_edge_attributes (edges ABplaced) (edges_geometry_key ABplaced))
           (mkEdge "A" "B" 0) [("J", 7); ("I", 3)]%Q [("I", 3); ("J", 7)]%Q).
  - apply perm_swap.
  - reflexivity.
Defined.
